(** * CivicSweep: the offline-first synchronisation core of [app.js]

    A shallow embedding of the client's offline layer
    ([src/app/src/main/assets/app.js]): the TTL cache, the network gateway
    [api], the token expiry check, the remembered offline accounts and the
    retry queue [OfflineQueue], with the properties of the specification
    stated and proved (or refuted) over it.

    Conventions of the embedding.
    - JavaScript numbers that hold instants, counters and ages are integers
      ([Z] or [nat]); [Date.now()] is an integer number of milliseconds.
    - JavaScript strings are [string]. [String.prototype.toLowerCase] and
      [String.prototype.trim] are functions of the platform ([Platform]),
      like [atob] and [JSON.parse]: the program is embedded over any
      platform, and what a proof needs of them is a hypothesis of its
      theorem.
    - A falsy string ([undefined], [null] or the empty string) is the empty
      string; a falsy number is [0].
    - Everything the program reads from its surroundings ([navigator.onLine],
      the clock, [Math.random], the answers of [fetch]) is an explicit
      argument, never a hidden assumption. *)

From Stdlib Require Import ZArith Lia List Ascii String Bool.
From stdpp Require Import base tactics option list strings gmap pretty.

Set Warnings "-register-all".
Local Open Scope string_scope.

(** ** JavaScript strings *)

(** [String.prototype.toLowerCase] and [String.prototype.trim]. They fold
    every cased letter of Unicode and strip every space of Unicode; no table
    of either is written here. Every definition that calls them takes the
    platform [P] as an argument, and every theorem about such a definition
    is stated for all platforms. *)
Class Platform : Type := mkPlatform {
  toLowerCase : string -> string;
  trim : string -> string
}.

Definition is_upper (c : ascii) : bool :=
  let n := nat_of_ascii c in (65 <=? n)%nat && (n <=? 90)%nat.

(** ASCII case folding of one character. *)
Definition lower_ascii (c : ascii) : ascii :=
  if is_upper c then ascii_of_nat (nat_of_ascii c + 32) else c.

(** The folding under which a regular expression with the flag [i] (and
    without the flag [u]) matches a pattern of ASCII letters: [A-Z] go to
    [a-z], and a character outside ASCII never matches an ASCII one. *)
Fixpoint fold_case (s : string) : string :=
  match s with
  | EmptyString => EmptyString
  | String c r => String (lower_ascii c) (fold_case r)
  end.

(** The white space of the ASCII range: space, and TAB to CR. *)
Definition is_space (c : ascii) : bool :=
  let n := nat_of_ascii c in (n =? 32)%nat || ((9 <=? n)%nat && (n <=? 13)%nat).

Fixpoint trimStart (s : string) : string :=
  match s with
  | EmptyString => EmptyString
  | String c r => if is_space c then trimStart r else s
  end.

Fixpoint trimEnd (s : string) : string :=
  match s with
  | EmptyString => EmptyString
  | String c r =>
      match trimEnd r with
      | EmptyString => if is_space c then EmptyString else String c EmptyString
      | r' => String c r'
      end
  end.

Definition trim_ascii (s : string) : string := trimEnd (trimStart s).

(** A platform for the examples, whose strings are ASCII: on them the two
    functions are [fold_case] and [trim_ascii]. No theorem is stated on it;
    it serves to run the definitions on concrete inputs. *)
Definition toy_platform : Platform :=
  {| toLowerCase := fold_case; trim := trim_ascii |}.

(** [s.includes(pat)]: [pat] occurs in [s] as a contiguous run. *)
Fixpoint includes (s pat : string) : bool :=
  String.prefix pat s ||
  match s with
  | EmptyString => false
  | String _ r => includes r pat
  end.

(** [a || b] on strings: the first one that is not empty. *)
Definition str_or (a b : string) : string :=
  if String.eqb a "" then b else a.

(** [s.split(sep)] for a one-character separator. *)
Fixpoint split (sep : ascii) (s : string) : list string :=
  match s with
  | EmptyString => [EmptyString]
  | String c r =>
      if Ascii.eqb c sep then EmptyString :: split sep r
      else match split sep r with
           | [] => [String c EmptyString]
           | p :: ps => String c p :: ps
           end
  end.

(** [s.replace(/a/g, b)] for single characters. *)
Fixpoint replaceAll (a b : ascii) (s : string) : string :=
  match s with
  | EmptyString => EmptyString
  | String c r => String (if Ascii.eqb c a then b else c) (replaceAll a b r)
  end.

(** [sep.repeat(n)]. *)
Fixpoint repeat_str (c : ascii) (n : nat) : string :=
  match n with
  | O => EmptyString
  | S k => String c (repeat_str c k)
  end.

(** ** JavaScript values (what [JSON.parse] yields, and [undefined]) *)

Inductive jsval : Type :=
  | VUndefined
  | VNull
  | VBool (b : bool)
  | VNum (n : Z)
  | VStr (s : string)
  | VArr (xs : list jsval)
  | VObj (fields : list (string * jsval)).

(** Truthiness, as [if (x)], [!x], [x || y] and [x && y] test it. *)
Definition truthy (x : jsval) : bool :=
  match x with
  | VUndefined | VNull => false
  | VBool b => b
  | VNum n => negb (n =? 0)%Z
  | VStr s => negb (String.eqb s "")
  | VArr _ | VObj _ => true
  end.

(** [a || b] and [a && b]. *)
Definition js_or (a b : jsval) : jsval := if truthy a then a else b.
Definition js_and (a b : jsval) : jsval := if truthy a then b else a.

(** [x == null]: [null] or [undefined]. *)
Definition nullish (x : jsval) : bool :=
  match x with
  | VUndefined | VNull => true
  | _ => false
  end.

(** [x.k] for a value that is not nullish: the own property of an object,
    [undefined] on anything else. *)
Definition prop (k : string) (x : jsval) : jsval :=
  match x with
  | VObj fields =>
      match List.find (fun kv => String.eqb (fst kv) k) fields with
      | Some kv => snd kv
      | None => VUndefined
      end
  | _ => VUndefined
  end.

Fixpoint join (sep : string) (l : list string) : string :=
  match l with
  | [] => ""
  | [s] => s
  | s :: r => s ++ sep ++ join sep r
  end.

(** [String(x)]. *)
Fixpoint ToString (x : jsval) : string :=
  match x with
  | VUndefined => "undefined"
  | VNull => "null"
  | VBool true => "true"
  | VBool false => "false"
  | VNum n => pretty n
  | VStr s => s
  | VArr xs =>
      join "," (List.map (fun y => if nullish y then "" else ToString y) xs)
  | VObj _ => "[object Object]"
  end.

(** A thrown value, as the handlers read it: [err?.name], [err?.message]. *)
Record js_error : Type := mkError { err_name : string; err_message : string }.

(** [new Error(msg)]. *)
Definition Error (msg : jsval) : js_error :=
  {| err_name := "Error"; err_message := ToString msg |}.

(** ** The surroundings *)

(** What the program reads from the platform at one moment. [random] is the
    numerator of [Math.random()] over [2^53]; [uid] is what [uid()], a second
    draw, returns. *)
Record Env : Type := mkEnv {
  onLine : bool;
  now_ms : Z;
  now_iso : string;
  random : Z;
  uid : string
}.

(** ** Cache *)

(** The record [{ t, v }] kept under [cache:<key>]; a timestamp that is
    missing or zero is [rec_t = 0], the falsy case of [rec.t && ...]. *)
Record CacheRec : Type := mkRec { rec_t : Z; rec_v : jsval }.

(** The default of [maxAgeMs]: ten minutes. *)
Definition default_max_age : Z := 10 * 60 * 1000.

(** [Cache.get(key, maxAgeMs)]; [None] is an argument left out. The result
    [null] is the absent value. *)
Definition Cache_get (key : string) (maxAgeMs : option Z) (now : Z)
    (store : gmap string CacheRec) : jsval :=
  let maxAge := default default_max_age maxAgeMs in
  match store !! key with
  | None => VNull
  | Some rec =>
      if negb (rec_t rec =? 0)%Z && (now - rec_t rec >? maxAge)%Z then VNull
      else rec_v rec
  end.

(** [Cache.set(key, val)]. *)
Definition Cache_set (key : string) (val : jsval) (now : Z)
    (store : gmap string CacheRec) : gmap string CacheRec :=
  <[ key := {| rec_t := now; rec_v := val |} ]> store.

(** ** Error discrimination *)

Definition network_pattern (msg : string) : bool :=
  let m := fold_case msg in
  includes m "failed to fetch" || includes m "networkerror" ||
  includes m "load failed" || includes m "network".

(** [isNetworkError(err)]; the pattern is
    [/failed to fetch|networkerror|load failed|network/i]. *)
Definition isNetworkError (env : Env) (err : js_error) : bool :=
  if negb (onLine env) then true
  else String.eqb (err_name err) "TypeError" || network_pattern (err_message err).

(** ** Network gateway *)

Record Options : Type := mkOptions { cacheKey : string; cacheMaxAgeMs : Z }.

(** [options = {}]. *)
Definition no_options : Options := {| cacheKey := ""; cacheMaxAgeMs := 0 |}.

(** The gateway's share of the persistent store and of the module state. *)
Record Gateway : Type := mkGateway {
  cache : gmap string CacheRec;
  lastSyncAt : option string;
  lastFromCache : bool;
  JWT : string
}.

(** [api.lastFromCache = b]. *)
Definition set_lastFromCache (b : bool) (g : Gateway) : Gateway :=
  {| cache := cache g; lastSyncAt := lastSyncAt g; lastFromCache := b; JWT := JWT g |}.

(** [setLastSync(ts)]. *)
Definition setLastSync (ts : string) (g : Gateway) : Gateway :=
  {| cache := cache g; lastSyncAt := Some ts; lastFromCache := lastFromCache g;
     JWT := JWT g |}.

Definition set_cache (c : gmap string CacheRec) (g : Gateway) : Gateway :=
  {| cache := c; lastSyncAt := lastSyncAt g; lastFromCache := lastFromCache g;
     JWT := JWT g |}.

(** What [fetch] does: it rejects, or it answers with [res.ok], [res.status]
    and the body as [res.json()] reads it ([null] when that fails). *)
Inductive fetch_result : Type :=
  | FetchRejected (err : js_error)
  | FetchResponse (ok : bool) (status : Z) (data : jsval).

(** How an [await api(...)] ends. *)
Inductive api_outcome : Type :=
  | Resolved (data : jsval)
  | Thrown (err : js_error).

Definition API_BASE : string := "https://civicsweep-api.onrender.com".

(** The address called: a [GET] carries the time as a parameter. *)
Definition api_url (path method : string) (env : Env) : string :=
  let baseUrl := API_BASE ++ path in
  if String.eqb method "GET"
  then baseUrl ++ (if includes baseUrl "?" then "&" else "?") ++ "t=" ++ pretty (now_ms env)
  else baseUrl.

(** The request handed to [fetch]. *)
Record Request : Type := mkRequest {
  req_url : string;
  req_method : string;
  req_authorization : option string;
  req_body : jsval
}.

Definition api_request (path method : string) (body : jsval) (env : Env)
    (g : Gateway) : Request :=
  {| req_url := api_url path method env;
     req_method := method;
     req_authorization :=
       if String.eqb (JWT g) "" then None else Some ("Bearer " ++ JWT g);
     req_body := body |}.

(** [options.cacheMaxAgeMs || (10 * 60 * 1000)]. *)
Definition effective_max_age (opts : Options) : Z :=
  if (cacheMaxAgeMs opts =? 0)%Z then default_max_age else cacheMaxAgeMs opts.

(** [method === "GET" && cacheKey]. *)
Definition cacheable (method : string) (opts : Options) : bool :=
  String.eqb method "GET" && negb (String.eqb (cacheKey opts) "").

(** [api(path, method, body, options)]. [env] is the platform when the call
    starts, [reply] what [fetch] does together with the platform when it
    settles. The reply is not looked at when the offline shortcut answers. *)
Definition api (path method : string) (body : jsval) (opts : Options)
    (env : Env) (reply : fetch_result * Env) (g : Gateway)
    : Gateway * api_outcome :=
  let g0 := set_lastFromCache false g in
  let maxAge := effective_max_age opts in
  let shortcut :=
    if cacheable method opts && negb (onLine env)
    then Cache_get (cacheKey opts) (Some maxAge) (now_ms env) (cache g0)
    else VNull in
  if negb (nullish shortcut) then (set_lastFromCache true g0, Resolved shortcut)
  else
    let env' := snd reply in
    match fst reply with
    | FetchRejected err =>
        let cached :=
          if cacheable method opts && isNetworkError env' err
          then Cache_get (cacheKey opts) (Some maxAge) (now_ms env') (cache g0)
          else VNull in
        if negb (nullish cached) then (set_lastFromCache true g0, Resolved cached)
        else (g0, Thrown err)
    | FetchResponse ok status data =>
        if negb ok then
          let msg :=
            js_or (js_and data (js_or (prop "error" data) (prop "message" data)))
                  (VStr ("HTTP " ++ pretty status)) in
          (g0, Thrown (Error msg))
        else
          let g1 := if onLine env' then setLastSync (now_iso env') g0 else g0 in
          let g2 :=
            if cacheable method opts
            then set_cache (Cache_set (cacheKey opts) data (now_ms env') (cache g1)) g1
            else g1 in
          (set_lastFromCache false g2, Resolved data)
    end.

(** ** Token expiry *)

(** The middle segment of a token as it is handed to [atob]: the URL-safe
    alphabet put back, and the padding restored. *)
Definition padded (seg : string) : string :=
  let b64 := replaceAll "_" "/" (replaceAll "-" "+" seg) in
  let r := (String.length b64 mod 4)%nat in
  let pad := if (r =? 0)%nat then "" else repeat_str "=" (4 - r) in
  b64 ++ pad.

Section Token.

(** The platform's [atob], [JSON.parse] and string-to-number coercion;
    [None] is a thrown exception for the first two and [NaN] for the
    third. *)
Variable atob : string -> option string.
Variable JSON_parse : string -> option jsval.
Variable StringToNumber : string -> option Z.

Definition decodeJwtPayload (token : string) : jsval :=
  match split "." token with
  | _ :: seg :: _ =>
      match atob (padded seg) with
      | None => VNull
      | Some json =>
          match JSON_parse json with
          | None => VNull
          | Some p => p
          end
      end
  | _ => VNull
  end.

(** The number a truthy value stands for in [x - skew]; [None] is [NaN]. *)
Definition ToNumber (x : jsval) : option Z :=
  match x with
  | VUndefined => None
  | VNull => Some 0%Z
  | VBool b => Some (if b then 1 else 0)%Z
  | VNum n => Some n
  | VStr s => StringToNumber s
  | VArr xs => StringToNumber (ToString (VArr xs))
  | VObj _ => None
  end.

Definition isJwtExpired (token : string) (skewSeconds : option Z) (env : Env)
    : bool :=
  let skew := default 60%Z skewSeconds in
  let p := decodeJwtPayload token in
  if negb (truthy p) || negb (truthy (prop "exp" p)) then true
  else
    let nowSec := (now_ms env / 1000)%Z in
    match ToNumber (prop "exp" p) with
    | Some exp => (exp - skew <=? nowSec)%Z
    | None => false
    end.

End Token.

(** ** Remembered accounts *)

Record Session : Type := mkSession {
  session_role : string;
  adminEmail : string;
  vendorId : string;
  userId : string;
  session_name : string
}.

Record Account : Type := mkAccount {
  acc_key : string;
  acc_role : string;
  acc_loginId : string;
  acc_name : string;
  acc_session : Session;
  acc_token : string;
  acc_lastLoginAt : string
}.

(** The vault's share of the persistent store. *)
Record Vault : Type := mkVault {
  offlineAccounts : list Account;
  lastSession : option Session;
  lastJwt : string;
  lastLoginId : string;
  lastLoginAt : string
}.

Definition empty_vault : Vault :=
  {| offlineAccounts := []; lastSession := None; lastJwt := "";
     lastLoginId := ""; lastLoginAt := "" |}.

Section Accounts.

Context {P : Platform}.

(** [accountKey(role, loginId)]. *)
Definition accountKey (role loginId : string) : string :=
  toLowerCase role ++ ":" ++ toLowerCase loginId.

(** [rememberSession(session, token, identifier)]; an identifier left out is
    empty, a session left out is [None]. *)
Definition rememberSession (session : option Session) (token identifier : string)
    (env : Env) (vault : Vault) : Vault :=
  match session with
  | None => vault
  | Some session =>
      if String.eqb token "" then vault
      else
        let slots := {|
          offlineAccounts := offlineAccounts vault;
          lastSession := Some session;
          lastJwt := token;
          lastLoginId :=
            if String.eqb identifier "" then lastLoginId vault
            else toLowerCase (trim identifier);
          lastLoginAt := now_iso env |} in
        let role := toLowerCase (session_role session) in
        let loginId :=
          toLowerCase (trim (str_or identifier (str_or (adminEmail session)
            (str_or (vendorId session) (userId session))))) in
        if String.eqb role "" || String.eqb loginId "" then slots
        else
          let list := offlineAccounts slots in
          let key := accountKey role loginId in
          let next := List.filter (fun a => negb (String.eqb (acc_key a) key)) list in
          let next :=
            {| acc_key := key; acc_role := role; acc_loginId := loginId;
               acc_name := session_name session; acc_session := session;
               acc_token := token; acc_lastLoginAt := now_iso env |} :: next in
          {| offlineAccounts := take 5 next;
             lastSession := lastSession slots;
             lastJwt := lastJwt slots;
             lastLoginId := lastLoginId slots;
             lastLoginAt := lastLoginAt slots |}
  end.

End Accounts.

(** [UI.clearOfflineSession]: every slot of the vault is removed. *)
Definition clearOfflineSession (vault : Vault) : Vault := empty_vault.

(** [{ ok: true, item }] or [{ ok: false, reason }]. *)
Inductive offline_result : Type :=
  | Ok (item : Account)
  | NotOk (reason : string).

Section OfflineLogin.

Context {P : Platform}.
Variable atob : string -> option string.
Variable JSON_parse : string -> option jsval.
Variable StringToNumber : string -> option Z.

Definition findOfflineAccount (role loginId : string) (env : Env)
    (vault : Vault) : offline_result :=
  let r := toLowerCase role in
  let id := toLowerCase (trim loginId) in
  if String.eqb r "" || String.eqb id "" then NotOk "missing"
  else
    let list := offlineAccounts vault in
    let item :=
      List.find (fun a => String.eqb (acc_role a) r && String.eqb (acc_loginId a) id)
                list in
    let item :=
      match item with
      | Some a => Some a
      | None =>
          (* legacy fallback *)
          match lastSession vault with
          | Some legacySession =>
              let legacyRole := toLowerCase (session_role legacySession) in
              let legacyLogin := toLowerCase (trim (lastLoginId vault)) in
              if negb (String.eqb (lastJwt vault) "") &&
                 String.eqb legacyRole r && String.eqb legacyLogin id
              then Some {| acc_key := accountKey r id; acc_role := r;
                           acc_loginId := id;
                           acc_name := session_name legacySession;
                           acc_session := legacySession;
                           acc_token := lastJwt vault;
                           acc_lastLoginAt :=
                             str_or (lastLoginAt vault) (now_iso env) |}
              else None
          | None => None
          end
      end in
    match item with
    | None => NotOk "not_found"
    | Some a =>
        if isJwtExpired atob JSON_parse StringToNumber (acc_token a) None env
        then NotOk "expired"
        else Ok a
    end.

End OfflineLogin.

(** ** Retry queue *)

Record Item : Type := mkItem {
  item_id : string;
  item_type : string;
  item_payload : jsval;
  item_createdAt : string;
  item_error : option string;
  item_failedAt : option string
}.

(** The module state of [OfflineQueue] ([queue] is its [list]), with the
    queue's slot of the persistent store ([stored]) and the two pieces of
    page state its path writes: [_lastOfflineNotice] and the notices shown
    ([toasts]). An armed timer is [Some ms], its delay. *)
Record OfflineQueue : Type := mkQueue {
  queue : list Item;
  stored : list Item;
  _flushing : bool;
  _retryCount : nat;
  _nextRetryAt : option Z;
  _timer : option Z;
  _lastOfflineNotice : Z;
  toasts : list string
}.

(** [save()]: the list goes to the store. *)
Definition save (q : OfflineQueue) : OfflineQueue :=
  {| queue := queue q; stored := queue q; _flushing := _flushing q;
     _retryCount := _retryCount q; _nextRetryAt := _nextRetryAt q; _timer := _timer q;
     _lastOfflineNotice := _lastOfflineNotice q; toasts := toasts q |}.

Definition count (q : OfflineQueue) : nat := length (queue q).

Definition set_queue (l : list Item) (q : OfflineQueue) : OfflineQueue :=
  {| queue := l; stored := stored q; _flushing := _flushing q;
     _retryCount := _retryCount q; _nextRetryAt := _nextRetryAt q; _timer := _timer q;
     _lastOfflineNotice := _lastOfflineNotice q; toasts := toasts q |}.

Definition set_flushing (b : bool) (q : OfflineQueue) : OfflineQueue :=
  {| queue := queue q; stored := stored q; _flushing := b;
     _retryCount := _retryCount q; _nextRetryAt := _nextRetryAt q; _timer := _timer q;
     _lastOfflineNotice := _lastOfflineNotice q; toasts := toasts q |}.

Definition set_retryCount (n : nat) (q : OfflineQueue) : OfflineQueue :=
  {| queue := queue q; stored := stored q; _flushing := _flushing q;
     _retryCount := n; _nextRetryAt := _nextRetryAt q; _timer := _timer q;
     _lastOfflineNotice := _lastOfflineNotice q; toasts := toasts q |}.

Definition toast (s : string) (q : OfflineQueue) : OfflineQueue :=
  {| queue := queue q; stored := stored q; _flushing := _flushing q;
     _retryCount := _retryCount q; _nextRetryAt := _nextRetryAt q; _timer := _timer q;
     _lastOfflineNotice := _lastOfflineNotice q; toasts := toasts q ++ [s] |}.

(** [notifyOffline(message)]: at most one notice every 15 seconds. *)
Definition notifyOffline (message : string) (env : Env) (q : OfflineQueue)
    : OfflineQueue :=
  let nowTs := now_ms env in
  if (nowTs - _lastOfflineNotice q <? 15000)%Z then q
  else
    toast message
      {| queue := queue q; stored := stored q; _flushing := _flushing q;
         _retryCount := _retryCount q; _nextRetryAt := _nextRetryAt q;
         _timer := _timer q; _lastOfflineNotice := nowTs; toasts := toasts q |}.

(** [Math.floor(Math.random() * 400)], the product taken exactly. *)
Definition jitter (env : Env) : Z := (random env * 400 / 2 ^ 53)%Z.

(** [Math.min(60000, base * Math.pow(2, this._retryCount))]. *)
Definition backoff (retries : nat) : Z :=
  Z.min 60000 (2000 * 2 ^ Z.of_nat retries).

(** [scheduleFlush()]. *)
Definition scheduleFlush (env : Env) (q : OfflineQueue) : OfflineQueue :=
  match _timer q, queue q with
  | Some _, _ | _, [] => q
  | None, _ :: _ =>
      let delay := backoff (_retryCount q) in
      let ms := (delay + jitter env)%Z in
      {| queue := queue q; stored := stored q; _flushing := _flushing q;
         _retryCount := _retryCount q; _nextRetryAt := Some (now_ms env + ms)%Z;
         _timer := Some ms; _lastOfflineNotice := _lastOfflineNotice q;
         toasts := toasts q |}
  end.

(** [clearSchedule()]. *)
Definition clearSchedule (q : OfflineQueue) : OfflineQueue :=
  {| queue := queue q; stored := stored q; _flushing := _flushing q;
     _retryCount := _retryCount q; _nextRetryAt := None; _timer := None;
     _lastOfflineNotice := _lastOfflineNotice q; toasts := toasts q |}.

(** The argument of [enqueue]; an absent [id] or [createdAt] is empty. *)
Record QueueInput : Type := mkInput {
  in_id : string;
  in_type : string;
  in_payload : jsval;
  in_createdAt : string
}.

(** The entry that [enqueue] builds. *)
Definition new_entry (env : Env) (item : QueueInput) : Item :=
  {| item_id := str_or (in_id item) ("q_" ++ pretty (now_ms env) ++ "_" ++ uid env);
     item_type := in_type item;
     item_payload := js_or (in_payload item) (VObj []);
     item_createdAt := str_or (in_createdAt item) (now_iso env);
     item_error := None;
     item_failedAt := None |}.

(** [enqueue(item)]. *)
Definition enqueue (env : Env) (item : QueueInput) (q : OfflineQueue)
    : OfflineQueue * Item :=
  let entry := new_entry env item in
  let q := save (set_queue (queue q ++ [entry]) q) in
  let q := if onLine env then scheduleFlush env q else q in
  (q, entry).

(** [enqueueAction(type, payload)]. *)
Definition enqueueAction (env : Env) (type : string) (payload : jsval)
    (q : OfflineQueue) : OfflineQueue * Item :=
  enqueue env {| in_id := ""; in_type := type; in_payload := payload;
                 in_createdAt := "" |} q.

(** The remote endpoint of an item, by its [type]; none for any other type. *)
Definition endpoint (item : Item) : option string :=
  if String.eqb (item_type item) "report.create" then Some "/reports"
  else if String.eqb (item_type item) "vendor.complete" then Some "/reports/vendor/complete"
  else if String.eqb (item_type item) "admin.assign" then Some "/reports/assign"
  else if String.eqb (item_type item) "admin.status" then Some "/reports/status"
  else None.

(** One remote call issued by a flush: the position of its item in the queue
    as the flush found it, the request, and how the call ended. *)
Record Attempt : Type := mkAttempt {
  at_pos : nat;
  at_request : Request;
  at_outcome : api_outcome
}.

(** How the [for] loop of [flush] ends: it runs off the end of the list, or
    the [catch] block [break]s at index [i]. *)
Inductive loop_end : Type :=
  | Completed
  | Failed (i : nat) (item : Item) (err : js_error).

Record LoopResult : Type := mkLoop {
  loop_exit : loop_end;
  loop_env : Env;
  loop_gateway : Gateway;
  loop_log : list Attempt
}.

Definition log_attempt (a : Attempt) (r : LoopResult) : LoopResult :=
  {| loop_exit := loop_exit r; loop_env := loop_env r;
     loop_gateway := loop_gateway r; loop_log := a :: loop_log r |}.

(** The loop of [flush] over the items from index [i] on. [replies i] is what
    [fetch] does for the call of the item at index [i], with the platform as
    it is when that call settles; an item without endpoint awaits nothing. *)
Fixpoint flush_loop (items : list Item) (i : nat) (env : Env)
    (replies : nat -> fetch_result * Env) (g : Gateway) : LoopResult :=
  match items with
  | [] => {| loop_exit := Completed; loop_env := env; loop_gateway := g;
             loop_log := [] |}
  | item :: rest =>
      match endpoint item with
      | None => flush_loop rest (S i) env replies g
      | Some path =>
          let res := api path "POST" (item_payload item) no_options env (replies i) g in
          let env' := snd (replies i) in
          let a := {| at_pos := i;
                      at_request := api_request path "POST" (item_payload item) env g;
                      at_outcome := snd res |} in
          match snd res with
          | Resolved _ => log_attempt a (flush_loop rest (S i) env' replies (fst res))
          | Thrown err =>
              {| loop_exit := Failed i item err; loop_env := env';
                 loop_gateway := fst res; loop_log := [a] |}
          end
      end
  end.

(** [{ ...item, error: e?.message || "Failed", failedAt: now() }]. *)
Definition annotate (item : Item) (err : js_error) (env : Env) : Item :=
  {| item_id := item_id item; item_type := item_type item;
     item_payload := item_payload item; item_createdAt := item_createdAt item;
     item_error := Some (str_or (err_message err) "Failed");
     item_failedAt := Some (now_iso env) |}.

(** [remaining[0] = x]. *)
Definition set_first (x : Item) (remaining : list Item) : list Item :=
  match remaining with
  | [] => [x]
  | _ :: r => x :: r
  end.

(** The [catch] block: the items kept, and whether the failure was a network
    one. *)
Definition on_failure (i : nat) (item : Item) (err : js_error) (env : Env)
    (items : list Item) : list Item * bool :=
  let remaining := drop i items in
  let isNet := isNetworkError env err in
  (if isNet then remaining else set_first (annotate item err env) remaining, isNet).

(** What [flush] does after its loop. The refresh of the view that follows
    an emptied queue ([UI.route]) belongs to the presentation layer. *)
Definition finish (remaining : list Item) (failedNet : bool) (env : Env)
    (q : OfflineQueue) : OfflineQueue :=
  let q := save (set_queue remaining q) in
  let q := set_flushing false q in
  match queue q with
  | [] => toast "Offline changes synced" (clearSchedule (set_retryCount 0 q))
  | _ :: _ =>
      if onLine env && failedNet
      then scheduleFlush env (set_retryCount (Nat.min (_retryCount q + 1) 6) q)
      else q
  end.

(** What [flush] does before its loop; [inr] when it goes on to the loop. *)
Definition flush_enter (force : bool) (env : Env) (q : OfflineQueue)
    : OfflineQueue + OfflineQueue :=
  if _flushing q then inl q
  else
    let q := if force then clearSchedule (set_retryCount 0 q) else q in
    if negb (onLine env) then
      let q := if force
               then notifyOffline "Offline. Sync will retry automatically." env q
               else q in
      inl (scheduleFlush env q)
    else
      match queue q with
      | [] => inl q
      | _ :: _ => inr (set_flushing true q)
      end.

(** [OfflineQueue.flush(force)], run from its call to its return with
    nothing else scheduled in between. *)
Definition flush (force : bool) (env : Env) (replies : nat -> fetch_result * Env)
    (s : OfflineQueue * Gateway) : OfflineQueue * Gateway * list Attempt :=
  match flush_enter force env (fst s) with
  | inl q => (q, snd s, [])
  | inr q =>
      let r := flush_loop (queue q) 0 env replies (snd s) in
      let '(remaining, failedNet) :=
        match loop_exit r with
        | Completed => ([], false)
        | Failed i item err => on_failure i item err (loop_env r) (queue q)
        end in
      (finish remaining failedNet (loop_env r) q, loop_gateway r, loop_log r)
  end.

(** ** The event loop

    [flush] is an [async] function: it gives the control back at every
    [await api(...)], and other handlers run before it goes on. A suspended
    activation holds its loop index, the item it read and the call in flight. *)

Record Frame : Type := mkFrame {
  fr_index : nat;
  fr_item : Item;
  fr_path : string;
  fr_env : Env;
  fr_request : Request
}.

Record Machine : Type := mkMachine {
  m_queue : OfflineQueue;
  m_gateway : Gateway;
  m_suspended : list Frame;
  m_log : list Attempt
}.

Definition with_queue (q : OfflineQueue) (m : Machine) : Machine :=
  {| m_queue := q; m_gateway := m_gateway m; m_suspended := m_suspended m;
     m_log := m_log m |}.

(** The next [await] of the loop from index [i] on, if there is one. *)
Fixpoint next_await (items : list Item) (i : nat) (env : Env) (g : Gateway)
    : option Frame :=
  match items with
  | [] => None
  | item :: rest =>
      match endpoint item with
      | None => next_await rest (S i) env g
      | Some path =>
          Some {| fr_index := i; fr_item := item; fr_path := path; fr_env := env;
                  fr_request := api_request path "POST" (item_payload item) env g |}
      end
  end.

(** The loop from its test [i < this.list.length] to its next [await], or to
    the return of [flush]. *)
Definition run_loop (i : nat) (env : Env) (m : Machine) : Machine :=
  match next_await (drop i (queue (m_queue m))) i env (m_gateway m) with
  | Some fr =>
      {| m_queue := m_queue m; m_gateway := m_gateway m;
         m_suspended := m_suspended m ++ [fr]; m_log := m_log m |}
  | None => with_queue (finish [] false env (m_queue m)) m
  end.

(** A call of [flush(force)], up to its first [await] or its return. *)
Definition call_flush (force : bool) (env : Env) (m : Machine) : Machine :=
  match flush_enter force env (m_queue m) with
  | inl q => with_queue q m
  | inr q => run_loop 0 env (with_queue q m)
  end.

Definition set_timer (t : option Z) (q : OfflineQueue) : OfflineQueue :=
  {| queue := queue q; stored := stored q; _flushing := _flushing q;
     _retryCount := _retryCount q; _nextRetryAt := _nextRetryAt q; _timer := t;
     _lastOfflineNotice := _lastOfflineNotice q; toasts := toasts q |}.

(** What the event loop runs: a call of [flush], the settling of the call
    awaited by the [k]-th suspended activation, a call of [enqueue], the
    firing of the retry timer. *)
Inductive Event : Type :=
  | CallFlush (force : bool) (env : Env)
  | Settles (k : nat) (reply : fetch_result * Env)
  | CallEnqueue (env : Env) (item : QueueInput)
  | TimerFires (env : Env).

(** The activation [fr] goes on after its [await]. *)
Definition settle (fr : Frame) (reply : fetch_result * Env) (m : Machine)
    : Machine :=
  let res := api (fr_path fr) "POST" (item_payload (fr_item fr)) no_options
                 (fr_env fr) reply (m_gateway m) in
  let env' := snd reply in
  let a := {| at_pos := fr_index fr; at_request := fr_request fr;
              at_outcome := snd res |} in
  let m := {| m_queue := m_queue m; m_gateway := fst res;
              m_suspended := m_suspended m; m_log := m_log m ++ [a] |} in
  match snd res with
  | Resolved _ => run_loop (S (fr_index fr)) env' m
  | Thrown err =>
      let kept := on_failure (fr_index fr) (fr_item fr) err env' (queue (m_queue m)) in
      with_queue (finish (fst kept) (snd kept) env' (m_queue m)) m
  end.

(** One turn of the event loop. A timer that fires resets [_timer] and calls
    [flush()]. *)
Definition step (m : Machine) (ev : Event) : Machine :=
  match ev with
  | CallFlush force env => call_flush force env m
  | Settles k reply =>
      match m_suspended m !! k with
      | None => m
      | Some fr =>
          settle fr reply
            {| m_queue := m_queue m; m_gateway := m_gateway m;
               m_suspended := delete k (m_suspended m); m_log := m_log m |}
      end
  | CallEnqueue env item => with_queue (fst (enqueue env item (m_queue m))) m
  | TimerFires env =>
      match _timer (m_queue m) with
      | None => m
      | Some _ => call_flush false env (with_queue (set_timer None (m_queue m)) m)
      end
  end.

Definition run (m : Machine) (evs : list Event) : Machine := fold_left step evs m.

(** The page as it loads: the queue read from the store, nothing in flight. *)
Definition boot (persisted : list Item) (g : Gateway) : Machine :=
  {| m_queue := {| queue := persisted; stored := persisted; _flushing := false;
                   _retryCount := 0; _nextRetryAt := None; _timer := None;
                   _lastOfflineNotice := 0; toasts := [] |};
     m_gateway := g; m_suspended := []; m_log := [] |}.

(** A flush run to its end by the event loop with nothing in between: the
    call, then each awaited reply in turn. *)
Fixpoint settle_all (fuel : nat) (replies : nat -> fetch_result * Env)
    (m : Machine) : Machine :=
  match fuel with
  | O => m
  | S fuel =>
      match m_suspended m with
      | [] => m
      | fr :: _ => settle_all fuel replies (step m (Settles 0 (replies (fr_index fr))))
      end
  end.

(** ** Vocabulary of the properties *)

(** What identifies a queue item whatever its annotation. *)
Definition core (item : Item) : string * string * jsval * string :=
  (item_id item, item_type item, item_payload item, item_createdAt item).

Definition enqueue_all (inputs : list (Env * QueueInput)) (q : OfflineQueue)
    : OfflineQueue :=
  fold_left (fun q c => fst (enqueue (fst c) (snd c) q)) inputs q.

(** One call of [flush] with what its surroundings do. *)
Record FlushCall : Type := mkFlushCall {
  fc_force : bool;
  fc_env : Env;
  fc_replies : nat -> fetch_result * Env
}.

Definition shift (n : nat) (a : Attempt) : Attempt :=
  {| at_pos := n + at_pos a; at_request := at_request a;
     at_outcome := at_outcome a |}.

Definition resolved (a : Attempt) : bool :=
  match at_outcome a with
  | Resolved _ => true
  | Thrown _ => false
  end.

(** A sequence of flushes, each run to its end. Beside the final state it
    gives the number of items taken off the head so far, and every remote
    call made, at the position its item had before the first flush. *)
Fixpoint flush_all (calls : list FlushCall) (removed : nat)
    (s : OfflineQueue * Gateway) : OfflineQueue * Gateway * nat * list Attempt :=
  match calls with
  | [] => (fst s, snd s, removed, [])
  | c :: rest =>
      let r := flush (fc_force c) (fc_env c) (fc_replies c) s in
      let q' := fst (fst r) in
      let removed' := removed + (length (queue (fst s)) - length (queue q')) in
      let r' := flush_all rest removed' (q', snd (fst r)) in
      (fst (fst (fst r')), snd (fst (fst r')), snd (fst r'),
       (List.map (shift removed) (snd r) ++ snd r')%list)
  end.

(** Whether a remote call for the item at position [p] has succeeded. *)
Definition succeeded (log : list Attempt) (p : nat) : bool :=
  existsb (fun a => Nat.eqb (at_pos a) p && resolved a) log.

(** The items, from position [p] on, that have not yet succeeded. *)
Fixpoint pending_from (log : list Attempt) (p : nat) (items : list Item)
    : list Item :=
  match items with
  | [] => []
  | item :: rest =>
      if succeeded log p then pending_from log (S p) rest
      else item :: pending_from log (S p) rest
  end.

(** The insertion order restricted to the items that have not yet
    succeeded. *)
Definition pending (log : list Attempt) (items : list Item) : list Item :=
  pending_from log 0 items.

Section VaultVocabulary.

Context {P : Platform}.

(** One call of [rememberSession]. *)
Record RememberCall : Type := mkRemember {
  rc_session : option Session;
  rc_token : string;
  rc_identifier : string;
  rc_env : Env
}.

Definition remember (vault : Vault) (c : RememberCall) : Vault :=
  rememberSession (rc_session c) (rc_token c) (rc_identifier c) (rc_env c) vault.

(** What happens to the vault over a session of the page. *)
Inductive VaultOp : Type :=
  | Remember (c : RememberCall)
  | Clear.

Definition vault_step (vault : Vault) (op : VaultOp) : Vault :=
  match op with
  | Remember c => remember vault c
  | Clear => clearOfflineSession vault
  end.

Definition vault_run (ops : list VaultOp) : Vault :=
  fold_left vault_step ops empty_vault.

(** The key a call files its account under, when it gets as far as the list. *)
Definition call_key (c : RememberCall) : option string :=
  match rc_session c with
  | None => None
  | Some session =>
      if String.eqb (rc_token c) "" then None
      else
        let role := toLowerCase (session_role session) in
        let loginId :=
          toLowerCase (trim (str_or (rc_identifier c) (str_or (adminEmail session)
            (str_or (vendorId session) (userId session))))) in
        if String.eqb role "" || String.eqb loginId "" then None
        else Some (accountKey role loginId)
  end.

(** The keys used since the vault was last emptied, oldest first. *)
Fixpoint keys_used (ops : list VaultOp) (acc : list string) : list string :=
  match ops with
  | [] => acc
  | Remember c :: rest =>
      keys_used rest (match call_key c with Some k => (acc ++ [k])%list | None => acc end)
  | Clear :: rest => keys_used rest []
  end.

Definition account_keys (vault : Vault) : list string :=
  List.map acc_key (offlineAccounts vault).

(** The list of keys after one more use of [k]. *)
Definition touch (k : string) (keys : list string) : list string :=
  take 5 (k :: List.filter (fun x => negb (String.eqb x k)) keys).


End VaultVocabulary.

(** The items kept by a run of the loop, and whether it failed on the
    network. *)
Definition kept (r : LoopResult) (items : list Item) : list Item * bool :=
  match loop_exit r with
  | Completed => ([], false)
  | Failed i item err => on_failure i item err (loop_env r) items
  end.

(** At most one activation of [flush] is suspended, and [_flushing] tells
    whether one is. *)
Definition exclusive (m : Machine) : Prop :=
  length (m_suspended m) = if _flushing (m_queue m) then 1%nat else 0%nat.

(** ** Concrete surroundings for the examples *)

(** A platform small enough to compute with: it decodes one segment. *)
Definition toy_atob (s : string) : option string :=
  if String.eqb s "cGF5bG9hZA==" then Some "payload" else None.

Definition toy_parse (exp : jsval) (s : string) : option jsval :=
  if String.eqb s "payload" then Some (VObj [("exp", exp); ("role", VStr "user")])
  else None.

Definition toy_number (s : string) : option Z := None.

Definition env_at (online : bool) (t : Z) : Env :=
  {| onLine := online; now_ms := t; now_iso := pretty t; random := 0; uid := "u" |}.

Definition user_session (uid : string) : Session :=
  {| session_role := "user"; adminEmail := ""; vendorId := ""; userId := uid;
     session_name := "" |}.

(** An online login of the user [email]. *)
Definition login (email : string) (t : Z) : VaultOp :=
  Remember {| rc_session := Some (user_session "7"); rc_token := "h.cGF5bG9hZA.s";
              rc_identifier := email; rc_env := env_at true t |}.

(** Six people log in on one device. *)
Definition six_logins : list VaultOp :=
  [login "a@x.org" 1; login "b@x.org" 2; login "c@x.org" 3; login "d@x.org" 4;
   login "e@x.org" 5; login "f@x.org" 6].

(** The second of them logs in again, spelling the address differently. *)
Definition login_again : RememberCall :=
  {| rc_session := Some (user_session "7"); rc_token := "h.cGF5bG9hZA.s";
     rc_identifier := " B@X.org "; rc_env := env_at true 7 |}.

Definition login_seventh : RememberCall :=
  {| rc_session := Some (user_session "7"); rc_token := "h.cGF5bG9hZA.s";
     rc_identifier := "g@x.org"; rc_env := env_at true 7 |}.

Definition empty_queue : OfflineQueue :=
  {| queue := []; stored := []; _flushing := false; _retryCount := 0;
     _nextRetryAt := None; _timer := None; _lastOfflineNotice := 0; toasts := [] |}.

Definition empty_gateway : Gateway :=
  {| cache := ∅; lastSyncAt := None; lastFromCache := false; JWT := "" |}.

(** An action of a kind that [flush] does not dispatch. *)
Definition unknown_input : QueueInput :=
  {| in_id := "q1"; in_type := "report.delete"; in_payload := VObj [];
     in_createdAt := "" |}.

Definition report_input (id : string) : QueueInput :=
  {| in_id := id; in_type := "report.create";
     in_payload := VObj [("title", VStr "Overflowing bin")]; in_createdAt := "" |}.

(** The server accepts every call; the device stays on line. *)
Definition accept_all (t : Z) (i : nat) : fetch_result * Env :=
  (FetchResponse true 200 (VObj []), env_at true t).

Definition flush_online : FlushCall :=
  {| fc_force := false; fc_env := env_at true 2000; fc_replies := accept_all 2500 |}.

(** Two reports and an action of unknown kind between them, queued off line. *)
Definition three_inputs : list (Env * QueueInput) :=
  [(env_at false 1000, report_input "r1");
   (env_at false 1100, unknown_input);
   (env_at false 1200, report_input "r2")].

Definition three_queued : OfflineQueue := enqueue_all three_inputs empty_queue.

(** The server refuses the call at index [i] with [data]; it accepts the
    others. *)
Definition refuse_at (i : nat) (data : jsval) (t : Z) (j : nat)
    : fetch_result * Env :=
  if Nat.eqb j i then (FetchResponse false 400 data, env_at true t)
  else accept_all t j.

(** The call at index [i] does not get through, the device staying on line
    or not; the others are accepted. *)
Definition drop_at (i : nat) (online : bool) (t : Z) (j : nat)
    : fetch_result * Env :=
  if Nat.eqb j i
  then (FetchRejected {| err_name := "TypeError"; err_message := "Failed to fetch" |},
        env_at online t)
  else accept_all t j.

(** A report found in the store when the page loads. *)
Definition persisted_report : Item :=
  {| item_id := "r0"; item_type := "report.create";
     item_payload := VObj [("title", VStr "Overflowing bin")];
     item_createdAt := "900"; item_error := None; item_failedAt := None |}.

(** The server refuses a call as a duplicate. *)
Definition refused : fetch_result * Env :=
  (FetchResponse false 409 (VObj [("error", VStr "Duplicate report")]),
   env_at true 1500).

(** A draw of [Math.random()] equal to one half. *)
Definition env_half (t : Z) : Env :=
  {| onLine := true; now_ms := t; now_iso := pretty t; random := 2 ^ 52;
     uid := "u" |}.

(** A first flush loses the network on the second report; a later one gets
    through. *)
Definition two_flushes : list FlushCall :=
  [{| fc_force := false; fc_env := env_at true 2000;
      fc_replies := drop_at 2 false 2500 |};
   {| fc_force := false; fc_env := env_at true 9000;
      fc_replies := accept_all 9500 |}].

(** The page boots with one report in the store; three times in a row the
    call does not get through, the retry timer firing in between. *)
Definition three_network_failures : list Event :=
  [CallFlush false (env_at true 1000); Settles 0 (drop_at 0 true 1500 0);
   TimerFires (env_at true 6000); Settles 0 (drop_at 0 true 6500 0);
   TimerFires (env_at true 12000); Settles 0 (drop_at 0 true 12500 0)].

(** ** More of the retry queue *)

(** [retryInMs()]. *)
Definition retryInMs (env : Env) (q : OfflineQueue) : Z :=
  match _nextRetryAt q with
  | None => 0
  | Some t => if (t =? 0)%Z then 0 else Z.max 0 (t - now_ms env)
  end.

(** [pendingReports()]. *)
Definition pendingReports (q : OfflineQueue) : list Item :=
  List.filter (fun i => String.eqb (item_type i) "report.create") (queue q).

(** The row that stands for a queued report in the user's table. *)
Record ReportStub : Type := mkStub {
  stub_id : string;
  stub_title : jsval;
  stub_desc : jsval;
  stub_lat : jsval;
  stub_lng : jsval;
  stub_address : jsval;
  stub_photoBase64 : jsval;
  stub_wasteType : jsval;
  stub_wasteConfidence : jsval;
  stub_status : string;
  stub_autoAssigned : bool;
  stub_autoAssignNote : string;
  stub_createdAt : string;
  stub_updatedAt : string;
  stub_offline : bool
}.

(** [x !== s] for a string [s]. *)
Definition differs_from (x : jsval) (s : string) : bool :=
  match x with
  | VStr y => negb (String.eqb y s)
  | _ => true
  end.

(** [toReportStub(item)]. *)
Definition toReportStub (env : Env) (item : Item) : ReportStub :=
  let p := js_or (item_payload item) (VObj []) in
  let localId := str_or (item_id item) ("local_" ++ uid env) in
  {| stub_id := localId;
     stub_title := js_or (prop "title" p) (VStr "Untitled report");
     stub_desc := js_or (prop "desc" p) (VStr "");
     stub_lat := prop "lat" p;
     stub_lng := prop "lng" p;
     stub_address := js_or (prop "address" p) (VStr "");
     stub_photoBase64 := js_or (prop "photoBase64" p) VNull;
     stub_wasteType :=
       if truthy (prop "wasteTypeOverride" p) &&
          differs_from (prop "wasteTypeOverride" p) "auto"
       then prop "wasteTypeOverride" p else VNull;
     stub_wasteConfidence := VNull;
     stub_status := "QUEUED";
     stub_autoAssigned := false;
     stub_autoAssignNote := "Queued offline. Will sync when online.";
     stub_createdAt := item_createdAt item;
     stub_updatedAt := item_createdAt item;
     stub_offline := true |}.

(** [enqueueReport(payload)]. *)
Definition enqueueReport (env : Env) (payload : jsval) (q : OfflineQueue)
    : OfflineQueue * ReportStub :=
  let r := enqueue env {| in_id := ""; in_type := "report.create";
                          in_payload := payload; in_createdAt := "" |} q in
  (fst r, toReportStub env (snd r)).

Section AuditTrail.

Context {P : Platform}.

(** The test by which [UI.loadReportEvents] puts off the audit trail of a
    report that has not been synchronised, on the id and the status it reads
    from the report: no remote call is made for such a report. *)
Definition audit_trail_deferred (reportId status : string) : bool :=
  String.eqb reportId "" || String.prefix "q_" reportId ||
  String.prefix "local_" reportId || String.eqb (toLowerCase status) "queued".

End AuditTrail.

(** A sequence of [notifyOffline] calls: the clock readings at which a notice
    was shown, and the state they leave. *)
Fixpoint notify_all (calls : list (string * Env)) (q : OfflineQueue)
    : list Z * OfflineQueue :=
  match calls with
  | [] => ([], q)
  | (message, env) :: rest =>
      let q' := notifyOffline message env q in
      let r := notify_all rest q' in
      if Nat.eqb (length (toasts q')) (length (toasts q)) then r
      else (now_ms env :: fst r, snd r)
  end.

(** The entries that the [enqueue] calls of a run create, in order. *)
Fixpoint enqueued (evs : list Event) : list Item :=
  match evs with
  | [] => []
  | CallEnqueue env item :: rest => new_entry env item :: enqueued rest
  | _ :: rest => enqueued rest
  end.

(** ** The page: session, gateway, vault and queue together *)

Record Page : Type := mkPage {
  session_data : option Session;
  page_gateway : Gateway;
  page_vault : Vault;
  page_queue : OfflineQueue
}.

(** A notice shown by [toast]. *)
Definition notice (s : string) (page : Page) : Page :=
  {| session_data := session_data page; page_gateway := page_gateway page;
     page_vault := page_vault page; page_queue := toast s (page_queue page) |}.

(** [setJWT(token)]; the empty token is [null]. *)
Definition setJWT (token : string) (g : Gateway) : Gateway :=
  {| cache := cache g; lastSyncAt := lastSyncAt g;
     lastFromCache := lastFromCache g; JWT := token |}.

(** [Session.clear()], which is also [Auth.logout()]: the session and the
    token go, the vault stays. The [UI.route()] it ends with finds no session
    and shows the sign-in screen. *)
Definition Session_clear (page : Page) : Page :=
  {| session_data := None; page_gateway := setJWT "" (page_gateway page);
     page_vault := page_vault page; page_queue := page_queue page |}.

(** [UI.clearOfflineSession()] on the page. *)
Definition forget_accounts (page : Page) : Page :=
  notice "Saved offline session cleared"
    {| session_data := session_data page; page_gateway := page_gateway page;
       page_vault := clearOfflineSession (page_vault page);
       page_queue := page_queue page |}.

Section OfflineSession.

Context {P : Platform}.
Variable atob : string -> option string.
Variable JSON_parse : string -> option jsval.
Variable StringToNumber : string -> option Z.

(** [getOfflineCandidate(key)]; a key left out is empty. *)
Definition getOfflineCandidate (key : string) (env : Env) (vault : Vault)
    : offline_result :=
  let list := offlineAccounts vault in
  let item :=
    if String.eqb key "" then None
    else List.find (fun a => String.eqb (acc_key a) key) list in
  let item :=
    match item with
    | Some a => Some a
    | None =>
        match lastSession vault with
        | Some lastSession =>
            if negb (String.eqb (lastJwt vault) "") then
              let role := toLowerCase (session_role lastSession) in
              let loginId :=
                toLowerCase (trim (str_or (lastLoginId vault)
                  (str_or (adminEmail lastSession)
                    (str_or (vendorId lastSession) (userId lastSession))))) in
              if negb (String.eqb role "") && negb (String.eqb loginId "")
              then Some {| acc_key := accountKey role loginId; acc_role := role;
                           acc_loginId := loginId;
                           acc_name := session_name lastSession;
                           acc_session := lastSession;
                           acc_token := lastJwt vault;
                           acc_lastLoginAt :=
                             str_or (lastLoginAt vault) (now_iso env) |}
              else None
            else None
        | None => None
        end
    end in
  match item with
  | None => NotOk "none"
  | Some a =>
      if isJwtExpired atob JSON_parse StringToNumber (acc_token a) None env
      then NotOk "expired"
      else
        let p := decodeJwtPayload atob JSON_parse (acc_token a) in
        if truthy (prop "role" p) &&
           negb (String.eqb (session_role (acc_session a)) "")
        then
          let tokenRole := toLowerCase (ToString (prop "role" p)) in
          let sessionRole := toLowerCase (session_role (acc_session a)) in
          if negb (String.eqb tokenRole sessionRole) then NotOk "mismatch"
          else Ok a
        else Ok a
  end.

(** The guard that opens [UI.route()]: a session whose token is missing or
    expired is ended. What follows it (the choice of the screen, the refresh
    of its tables) belongs to the presentation layer. *)
Definition route_guard (env : Env) (page : Page) : Page :=
  match session_data page with
  | Some _ =>
      if String.eqb (JWT (page_gateway page)) "" ||
         isJwtExpired atob JSON_parse StringToNumber (JWT (page_gateway page))
           None env
      then notice "Session expired. Please login online." (Session_clear page)
      else page
  | None => page
  end.

(** [Session.save()]: the session is stored, then routed. *)
Definition Session_save (env : Env) (page : Page) : Page := route_guard env page.

(** The branch that [Auth.userLogin], [Auth.vendorLogin] and
    [Auth.adminLogin] take off line, each with its role and its prompt;
    [input] is the text of the login field. The handler runs without a
    pause, and [env] is the platform for the whole of it. *)
Definition offline_login (role prompt input : string) (env : Env) (page : Page)
    : Page :=
  let id := trim input in
  if String.eqb id "" then notice prompt page
  else
    match findOfflineAccount atob JSON_parse StringToNumber role id env
            (page_vault page) with
    | NotOk _ => notice "Offline login not available for this account." page
    | Ok item =>
        let page :=
          {| session_data := Some (acc_session item);
             page_gateway := setJWT (acc_token item) (page_gateway page);
             page_vault := page_vault page; page_queue := page_queue page |} in
        notice "Offline login successful" (Session_save env page)
    end.


Definition vendorLogin_offline : string -> Env -> Page -> Page :=
  offline_login "vendor" "Enter your vendor ID".

Definition adminLogin_offline : string -> Env -> Page -> Page :=
  offline_login "admin" "Enter your admin email".

End OfflineSession.

(** ** Reports: what the forms do with the queue and the gateway *)

(** A row of the user's table: a queued report, or one the server sent. *)
Inductive Row : Type :=
  | QueuedRow (stub : ReportStub)
  | ServerRow (report : jsval).

Definition with_page_queue (q : OfflineQueue) (page : Page) : Page :=
  {| session_data := session_data page; page_gateway := page_gateway page;
     page_vault := page_vault page; page_queue := q |}.

Definition with_page_gateway (g : Gateway) (page : Page) : Page :=
  {| session_data := session_data page; page_gateway := g;
     page_vault := page_vault page; page_queue := page_queue page |}.

(** How a form ends: its input is turned down, the action is queued, or the
    call is made and ends as [out] (an error goes to [oops], which shows
    it). *)
Inductive form_outcome : Type :=
  | TurnedDown
  | Queued (item : Item)
  | Sent (request : Request) (out : api_outcome).

(** What [assign], [adminUpdateStatus] and [vendorComplete] do once their
    input is read: off line the action is queued, on line it is called. *)
Definition queue_or_call (type path : string) (payload : jsval)
    (queuedToast doneToast : string) (env : Env) (reply : fetch_result * Env)
    (page : Page) : Page * form_outcome :=
  if negb (onLine env) then
    let r := enqueueAction env type payload (page_queue page) in
    (with_page_queue (toast queuedToast (fst r)) page, Queued (snd r))
  else
    let res := api path "POST" payload no_options env reply (page_gateway page) in
    let request := api_request path "POST" payload env (page_gateway page) in
    match snd res with
    | Resolved _ =>
        (notice doneToast (with_page_gateway (fst res) page), Sent request (snd res))
    | Thrown _ => (with_page_gateway (fst res) page, Sent request (snd res))
    end.

Section ActionForms.

Context {P : Platform}.

(** [Reports.assign()], on the texts of its two fields. *)
Definition Reports_assign (reportIdField vendorField : string) (env : Env)
    (reply : fetch_result * Env) (page : Page) : Page * form_outcome :=
  let id := trim reportIdField in
  let vendorId := vendorField in
  if String.eqb id "" || String.eqb vendorId "" then
    (notice "Enter Report ID and select a vendor" page, TurnedDown)
  else
    queue_or_call "admin.assign" "/reports/assign"
      (VObj [("reportId", VStr id); ("vendorId", VStr vendorId)])
      "Offline. Assignment queued." "Assigned" env reply page.

(** [Reports.adminUpdateStatus()]. *)
Definition Reports_adminUpdateStatus (reportIdField statusField : string)
    (env : Env) (reply : fetch_result * Env) (page : Page)
    : Page * form_outcome :=
  let id := trim reportIdField in
  let st := statusField in
  if String.eqb id "" || String.eqb st "" then
    (notice "Enter Report ID and select a status" page, TurnedDown)
  else
    queue_or_call "admin.status" "/reports/status"
      (VObj [("reportId", VStr id); ("status", VStr st)])
      "Offline. Status update queued." "Status updated" env reply page.

(** [Reports.vendorComplete()]; [proof] is the attached photo once
    compressed, [None] when no file is attached. *)
Definition Reports_vendorComplete (reportIdField : string) (proof : option string)
    (env : Env) (reply : fetch_result * Env) (page : Page)
    : Page * form_outcome :=
  match session_data page with
  | Some s =>
      if String.eqb (session_role s) "vendor" then
        let id := trim reportIdField in
        match proof with
        | Some proofBase64 =>
            if String.eqb id "" then
              (notice "Enter Report ID & attach proof" page, TurnedDown)
            else
              queue_or_call "vendor.complete" "/reports/vendor/complete"
                (VObj [("reportId", VStr id); ("proofBase64", VStr proofBase64)])
                "Offline. Completion queued." "Completed" env reply page
        | None => (notice "Enter Report ID & attach proof" page, TurnedDown)
        end
      else (page, TurnedDown)
  | None => (page, TurnedDown)
  end.

End ActionForms.

(** How [Reports.submit()] ends once the report is read from the form. *)
Inductive submit_outcome : Type :=
  | Submitted (created : jsval)
  | QueuedAs (stub : ReportStub)
  | Surfaced (err : js_error).

(** [Reports.submit()] from the payload on: off line the report is queued; on
    line it is posted, and queued if the call fails on the network. [rows]
    is [_userRows]. *)
Definition Reports_submit (payload : list (string * jsval)) (env : Env)
    (reply : fetch_result * Env) (page : Page) (rows : list Row)
    : Page * list Row * submit_outcome :=
  if negb (onLine env) then
    let r := enqueueReport env (VObj payload) (page_queue page) in
    (with_page_queue
       (toast "Offline. Report saved and will sync automatically." (fst r)) page,
     QueuedRow (snd r) :: rows, QueuedAs (snd r))
  else
    let res := api "/reports" "POST" (VObj payload) no_options env reply
                   (page_gateway page) in
    let page := with_page_gateway (fst res) page in
    match snd res with
    | Resolved created => (notice "Report submitted" page, rows, Submitted created)
    | Thrown e =>
        if isNetworkError (snd reply) e then
          let r := enqueueReport (snd reply) (VObj payload) (page_queue page) in
          (with_page_queue
             (toast "Network issue. Report queued for sync." (fst r)) page,
           QueuedRow (snd r) :: rows, QueuedAs (snd r))
        else (page, rows, Surfaced e)
    end.

(** [...x] in an array literal, for [x = reports || []]: the elements of an
    array, the characters of a string, and a [TypeError] for anything else
    that is truthy. *)
Definition spread (x : jsval) : option (list jsval) :=
  match x with
  | VArr xs => Some xs
  | VStr s => Some (List.map (fun c => VStr (String c EmptyString))
                             (list_ascii_of_string s))
  | _ => None
  end.

Definition reports_me : Options :=
  {| cacheKey := "reports.me"; cacheMaxAgeMs := 5 * 60 * 1000 |}.

(** [Reports.refreshUserTable()]: the rows it leaves in [_userRows], and the
    error it hands to [oops] if any. [reply] carries the platform as it is
    when [await api(...)] settles, also when the cache answered. *)
Definition Reports_refreshUserTable (env : Env) (reply : fetch_result * Env)
    (page : Page) (rows : list Row) : Page * list Row * option js_error :=
  match session_data page with
  | Some s =>
      if String.eqb (session_role s) "user" then
        let res := api "/reports/me" "GET" VNull reports_me env reply
                       (page_gateway page) in
        let env' := snd reply in
        let page := with_page_gateway (fst res) page in
        let queued :=
          List.map (fun i => QueuedRow (toReportStub env' i))
                   (pendingReports (page_queue page)) in
        let failed (page : Page) (e : js_error) :=
          if isNetworkError env' e then
            (with_page_queue
               (notifyOffline "Offline. No cached reports yet." env'
                  (page_queue page)) page,
             queued, None)
          else (page, rows, Some e) in
        match snd res with
        | Resolved reports =>
            let page :=
              if lastFromCache (fst res)
              then with_page_queue
                     (notifyOffline "Offline. Showing last saved reports." env'
                        (page_queue page)) page
              else page in
            match spread (js_or reports (VArr [])) with
            | Some rs => (page, (queued ++ List.map ServerRow rs)%list, None)
            | None =>
                failed page {| err_name := "TypeError";
                               err_message := "reports is not iterable" |}
            end
        | Thrown e => failed page e
        end
      else (page, rows, None)
  | None => (page, rows, None)
  end.

(** ** Vocabulary of the further properties *)

(** Every character of [s] passes the test [P]. *)
Fixpoint all_chars (P : ascii -> bool) (s : string) : bool :=
  match s with
  | EmptyString => true
  | String c r => P c && all_chars P r
  end.

(** A decimal digit or the minus sign: the characters of a printed integer. *)
Definition is_numeral (c : ascii) : bool :=
  let n := nat_of_ascii c in ((48 <=? n)%nat && (n <=? 57)%nat) || (n =? 45)%nat.

(** The three ways a call of [api] ends, with what each leaves in the
    store: an answer from the cache, an exception, or the body of an answer
    of success. *)
Inductive api_case (method : string) (opts : Options) (reply : fetch_result * Env)
    (g : Gateway) : Gateway * api_outcome -> Prop :=
  | FromCache rec :
      method = "GET" -> cacheKey opts <> "" ->
      cache g !! cacheKey opts = Some rec -> nullish (rec_v rec) = false ->
      api_case method opts reply g
        (set_lastFromCache true (set_lastFromCache false g), Resolved (rec_v rec))
  | Throws err :
      (forall status data, fst reply <> FetchResponse true status data) ->
      api_case method opts reply g (set_lastFromCache false g, Thrown err)
  | Accepted status data :
      fst reply = FetchResponse true status data ->
      api_case method opts reply g
        (let g0 := set_lastFromCache false g in
         let g1 := if onLine (snd reply)
                   then setLastSync (now_iso (snd reply)) g0 else g0 in
         let g2 := if cacheable method opts
                   then set_cache (Cache_set (cacheKey opts) data
                                     (now_ms (snd reply)) (cache g1)) g1
                   else g1 in
         (set_lastFromCache false g2, Resolved data)).

(** ** Further scenarios *)

(** A token whose payload the toy platform decodes. *)
Definition toy_token : string := "h.cGF5bG9hZA.s".

(** A page with nobody signed in and nothing stored. *)
Definition blank_page : Page :=
  {| session_data := None; page_gateway := empty_gateway;
     page_vault := empty_vault; page_queue := empty_queue |}.

(** The page after the user [email] has signed in on line at [t], on the toy
    platform. *)
Definition signed_in (email : string) (t : Z) : Page :=
  {| session_data := Some (user_session "7");
     page_gateway := setJWT toy_token empty_gateway;
     page_vault :=
       rememberSession (P := toy_platform) (Some (user_session "7")) toy_token
         email (env_at true t) empty_vault;
     page_queue := empty_queue |}.

(** What the event loop keeps true of the queue, [history] being every item
    the queue was loaded with or given since, in order: the store holds the
    list as it is; the list is a tail of the history, annotations apart; and
    the item of a call in flight is still in the list, at the index the
    activation holds. *)
Definition consistent (history : list Item) (m : Machine) : Prop :=
  stored (m_queue m) = queue (m_queue m)
  /\ (exists k, (k <= length history)%nat
                /\ List.map core (queue (m_queue m)) = drop k (List.map core history))
  /\ (forall fr, In fr (m_suspended m) ->
        queue (m_queue m) !! fr_index fr = Some (fr_item fr)).

(** Clock readings that are at least 15 seconds apart, the first one from
    [last]. *)
Fixpoint spaced (last : Z) (ts : list Z) : Prop :=
  match ts with
  | [] => True
  | t :: rest => (15000 <= t - last)%Z /\ spaced t rest
  end.

Section ActionFormShape.

Context {P : Platform}.

(** The three forms that queue an action off line and call it on line, each
    on what its fields hold. *)
Inductive action_form
    : (Env -> fetch_result * Env -> Page -> Page * form_outcome) -> Prop :=
  | AssignForm reportIdField vendorField :
      action_form (Reports_assign reportIdField vendorField)
  | StatusForm reportIdField statusField :
      action_form (Reports_adminUpdateStatus reportIdField statusField)
  | CompleteForm reportIdField proof :
      action_form (Reports_vendorComplete reportIdField proof).

End ActionFormShape.

(** A character of the ASCII range. *)
Definition is_ascii (c : ascii) : bool := (nat_of_ascii c <? 128)%nat.

(** * Properties *)

Local Open Scope list_scope.

(** ** Cache *)

Lemma set_lastFromCache_twice b b' g :
  set_lastFromCache b (set_lastFromCache b' g) = set_lastFromCache b g.
Proof. reflexivity. Qed.

Lemma Cache_get_absent key maxAge now (store : gmap string CacheRec) :
  store !! key = None -> Cache_get key maxAge now store = VNull.
Proof. intros H. unfold Cache_get. now rewrite H. Qed.

Lemma Cache_get_expired key maxAge now (store : gmap string CacheRec) rec :
  store !! key = Some rec -> rec_t rec <> 0%Z ->
  (now - rec_t rec > default default_max_age maxAge)%Z ->
  Cache_get key maxAge now store = VNull.
Proof.
  intros H Ht Hage. unfold Cache_get. rewrite H.
  destruct (Z.eqb_spec (rec_t rec) 0) as [E|_]; [contradiction|].
  destruct (Z.gtb_spec (now - rec_t rec) (default default_max_age maxAge));
    [reflexivity | lia].
Qed.

Lemma Cache_get_fresh key maxAge now (store : gmap string CacheRec) rec :
  store !! key = Some rec ->
  (now - rec_t rec <= default default_max_age maxAge)%Z ->
  Cache_get key maxAge now store = rec_v rec.
Proof.
  intros H Hage. unfold Cache_get. rewrite H.
  destruct (Z.gtb_spec (now - rec_t rec) (default default_max_age maxAge));
    [lia | now rewrite andb_false_r].
Qed.

Lemma Cache_get_unstamped key maxAge now (store : gmap string CacheRec) rec :
  store !! key = Some rec -> rec_t rec = 0%Z ->
  Cache_get key maxAge now store = rec_v rec.
Proof. intros H Ht. unfold Cache_get. rewrite H, Ht. reflexivity. Qed.

(** C7, as stated, fails: a record whose timestamp is zero is older than
    [maxAge] and is returned all the same. *)
Lemma Cache_get_ignores_age_of_unstamped_record :
  let store := Cache_set "vendors" (VStr "rows") 0 ∅ in
  exists rec,
    store !! "vendors" = Some rec /\
    (700000 - rec_t rec > 600000)%Z /\
    Cache_get "vendors" (Some 600000%Z) 700000 store <> VNull.
Proof.
  exists {| rec_t := 0; rec_v := VStr "rows" |}.
  split; [reflexivity|]. split; [reflexivity|]. discriminate.
Qed.

(** C7, amended: [Cache.get(key, maxAge)] is absent when no record exists for
    [key], or when the record carries a non-zero timestamp and
    [now - timestamp > maxAge]; otherwise it is the stored value, so at age
    exactly [maxAge] the value is still returned, and a record whose timestamp
    is zero (or missing) is returned whatever its age. [maxAge] defaults to ten
    minutes. [Cache.set(key, value)] always overwrites the record of [key],
    stamping the current time, and touches no other key. *)
Theorem Cache_contract key (maxAge : option Z) (now : Z)
    (store : gmap string CacheRec) :
  let M := default 600000%Z maxAge in
  (store !! key = None -> Cache_get key maxAge now store = VNull)
  /\ (forall rec, store !! key = Some rec -> rec_t rec <> 0%Z ->
        (now - rec_t rec > M)%Z -> Cache_get key maxAge now store = VNull)
  /\ (forall rec, store !! key = Some rec -> (now - rec_t rec <= M)%Z ->
        Cache_get key maxAge now store = rec_v rec)
  /\ (forall rec, store !! key = Some rec -> rec_t rec = 0%Z ->
        Cache_get key maxAge now store = rec_v rec)
  /\ Cache_get key None now store = Cache_get key (Some 600000%Z) now store
  /\ (forall val t,
        Cache_set key val t store !! key = Some {| rec_t := t; rec_v := val |})
  /\ (forall val t key', key' <> key ->
        Cache_set key val t store !! key' = store !! key')
  /\ (forall val t, t <> 0%Z ->
        Cache_get key maxAge now (Cache_set key val t store) =
        if (now - t >? M)%Z then VNull else val).
Proof.
  cbn zeta. repeat split.
  - apply Cache_get_absent.
  - intros rec H Ht Hage. now apply (Cache_get_expired _ _ _ _ rec).
  - intros rec H Hage. now apply Cache_get_fresh.
  - intros rec H Ht. now apply Cache_get_unstamped.
  - intros val t. unfold Cache_set. apply lookup_insert_eq.
  - intros val t key' Hne. unfold Cache_set. now apply lookup_insert_ne.
  - intros val t Ht. unfold Cache_get, Cache_set. rewrite lookup_insert_eq. cbn.
    destruct (Z.eqb_spec t 0); [contradiction | reflexivity].
Qed.

Lemma Cache_contract_witness :
  let store := Cache_set "vendors" (VStr "rows") 1000 ∅ in
  Cache_get "reports.me" (Some 5000%Z) 9000 store = VNull
  /\ Cache_get "vendors" (Some 5000%Z) 6001 store = VNull
  /\ Cache_get "vendors" (Some 5000%Z) 6000 store = VStr "rows"
  /\ Cache_get "vendors" (Some 5000%Z) 5999 store = VStr "rows"
  /\ Cache_get "vendors" None 9000
       (Cache_set "vendors" (VStr "rows") 0 ∅) = VStr "rows"
  /\ Cache_set "vendors" VNull 2000 store !! "reports.me" = store !! "reports.me"
  /\ Cache_get "vendors" None 700000 (Cache_set "vendors" (VNum 7) 1 store) = VNull.
Proof.
  cbn zeta.
  pose proof (Cache_contract "reports.me" (Some 5000%Z) 9000
                (Cache_set "vendors" (VStr "rows") 1000 ∅)) as (A & _).
  pose proof (Cache_contract "vendors" (Some 5000%Z) 6001
                (Cache_set "vendors" (VStr "rows") 1000 ∅)) as (_ & B & _).
  pose proof (Cache_contract "vendors" (Some 5000%Z) 6000
                (Cache_set "vendors" (VStr "rows") 1000 ∅)) as (_ & _ & C & _).
  pose proof (Cache_contract "vendors" (Some 5000%Z) 5999
                (Cache_set "vendors" (VStr "rows") 1000 ∅)) as (_ & _ & C' & _).
  pose proof (Cache_contract "vendors" None 9000
                (Cache_set "vendors" (VStr "rows") 0 ∅)) as (_ & _ & _ & D & _).
  pose proof (Cache_contract "vendors" None 700000
                (Cache_set "vendors" (VStr "rows") 1000 ∅))
    as (_ & _ & _ & _ & _ & _ & E & F).
  split; [apply A; reflexivity|].
  split; [apply (B (mkRec 1000 (VStr "rows"))); [reflexivity|discriminate|reflexivity]|].
  split; [apply (C (mkRec 1000 (VStr "rows"))); [reflexivity|discriminate]|].
  split; [apply (C' (mkRec 1000 (VStr "rows"))); [reflexivity|discriminate]|].
  split; [apply (D (mkRec 0 (VStr "rows"))); reflexivity|].
  split; [apply E; discriminate|].
  rewrite F; [reflexivity | discriminate].
Defined.

(** ** Network gateway *)

Lemma cacheable_GET opts :
  cacheKey opts <> "" -> cacheable "GET" opts = true.
Proof.
  intros H. unfold cacheable. cbn.
  destruct (String.eqb_spec (cacheKey opts) ""); [contradiction | reflexivity].
Qed.

Lemma cacheable_POST : cacheable "POST" no_options = false.
Proof. reflexivity. Qed.

(** A [POST] without cache key: the outcome is the one of [fetch]. *)
Lemma api_POST_rejected path body env err env' g :
  api path "POST" body no_options env (FetchRejected err, env') g =
  (set_lastFromCache false g, Thrown err).
Proof. reflexivity. Qed.

Lemma api_POST_refused path body env status data env' g :
  exists msg,
    api path "POST" body no_options env (FetchResponse false status data, env') g =
    (set_lastFromCache false g, Thrown (Error msg)).
Proof. eexists. reflexivity. Qed.

Lemma api_POST_accepted path body env status data env' g :
  snd (api path "POST" body no_options env (FetchResponse true status data, env') g)
  = Resolved data.
Proof. unfold api. cbn. destruct (onLine env'); reflexivity. Qed.

(** The outcome of a [POST] without cache key depends on the reply alone. *)
Lemma api_POST_outcome path path' body body' env env0 reply g g' :
  snd (api path "POST" body no_options env reply g) =
  snd (api path' "POST" body' no_options env0 reply g').
Proof.
  destruct reply as [[err | ok status data] env']; [reflexivity|].
  destruct ok; [|reflexivity].
  now rewrite !api_POST_accepted.
Qed.

(** A refusal of the server can carry an empty message: [String([])] is
    empty. *)
Lemma api_error_message_can_be_empty path body env env' g :
  snd (api path "POST" body no_options env
         (FetchResponse false 400 (VObj [("error", VArr [])]), env') g)
  = Thrown {| err_name := "Error"; err_message := "" |}.
Proof. reflexivity. Qed.

(** The surroundings of the counterexample to C3: the device is off line, and
    the list of vendors was cached a little more than ten minutes ago. *)
Lemma api_offline_drops_stale_record :
  let env := {| onLine := false; now_ms := 601001; now_iso := "T"; random := 0;
                uid := "u" |} in
  let g := {| cache := Cache_set "vendors" (VStr "rows") 1000 ∅;
              lastSyncAt := None; lastFromCache := false; JWT := "" |} in
  let err := {| err_name := "TypeError"; err_message := "Failed to fetch" |} in
  let opts := {| cacheKey := "vendors"; cacheMaxAgeMs := 0 |} in
  cache g !! cacheKey opts = Some {| rec_t := 1000; rec_v := VStr "rows" |}
  /\ onLine env = false
  /\ snd (api "/vendors" "GET" VNull opts env (FetchRejected err, env) g)
     = Thrown err.
Proof. cbn zeta. split; [reflexivity|]. split; reflexivity. Qed.

(** C3, amended: off line, [api(path, GET, _, {cacheKey})] answers from the
    cache only while the record is no older than [cacheMaxAgeMs] (ten minutes
    when the option is unset), or has no timestamp. The same bound applies to
    the fallback after a transport failure: a record that is too old counts
    as absent there too, and the error is propagated. *)
Theorem api_cached_read_keeps_ttl path body opts env reply g rec :
  cacheKey opts <> "" ->
  cache g !! cacheKey opts = Some rec ->
  nullish (rec_v rec) = false ->
  let M := if (cacheMaxAgeMs opts =? 0)%Z then 600000%Z else cacheMaxAgeMs opts in
  let stale (e : Env) := rec_t rec <> 0%Z /\ (now_ms e - rec_t rec > M)%Z in
  let fresh (e : Env) := rec_t rec = 0%Z \/ (now_ms e - rec_t rec <= M)%Z in
  (onLine env = false -> fresh env ->
     api path "GET" body opts env reply g =
     (set_lastFromCache true g, Resolved (rec_v rec)))
  /\ (forall err env', reply = (FetchRejected err, env') ->
        onLine env = true \/ stale env ->
        isNetworkError env' err = true ->
        (fresh env' ->
           api path "GET" body opts env reply g =
           (set_lastFromCache true g, Resolved (rec_v rec)))
        /\ (stale env' ->
              api path "GET" body opts env reply g =
              (set_lastFromCache false g, Thrown err))).
Proof.
  intros Hkey Hrec Hv M stale fresh.
  assert (HM : effective_max_age opts = M) by reflexivity.
  assert (Hget_fresh : forall e, fresh e ->
            Cache_get (cacheKey opts) (Some M) (now_ms e) (cache g) = rec_v rec).
  { intros e [Ht | Hage].
    - now apply Cache_get_unstamped.
    - now apply Cache_get_fresh. }
  assert (Hget_stale : forall e, stale e ->
            Cache_get (cacheKey opts) (Some M) (now_ms e) (cache g) = VNull).
  { intros e [Ht Hage]. now apply (Cache_get_expired _ _ _ _ rec). }
  pose proof (cacheable_GET _ Hkey) as Hc.
  split.
  - intros Hoff Hfresh. unfold api. rewrite HM, Hc, Hoff. cbn.
    rewrite (Hget_fresh _ Hfresh), Hv. reflexivity.
  - intros err env' -> Hpre Hnet.
    assert (Hshort :
      (if true && negb (onLine env)
       then Cache_get (cacheKey opts) (Some M) (now_ms env)
              (cache (set_lastFromCache false g))
       else VNull) = VNull).
    { destruct Hpre as [Hon | Hst].
      - rewrite Hon. reflexivity.
      - destruct (negb (onLine env)); [|reflexivity].
        now apply Hget_stale. }
    split.
    + intros Hfresh. unfold api. rewrite HM, Hc, Hshort.
      cbn [fst snd nullish negb]. rewrite Hnet. cbn.
      rewrite (Hget_fresh _ Hfresh), Hv. reflexivity.
    + intros Hst. unfold api. rewrite HM, Hc, Hshort.
      cbn [fst snd nullish negb]. rewrite Hnet. cbn.
      rewrite (Hget_stale _ Hst). reflexivity.
Qed.

Lemma api_cached_read_keeps_ttl_witness :
  let g := {| cache := Cache_set "vendors" (VStr "rows") 1000 ∅;
              lastSyncAt := None; lastFromCache := false; JWT := "" |} in
  let opts := {| cacheKey := "vendors"; cacheMaxAgeMs := 0 |} in
  let off t := {| onLine := false; now_ms := t; now_iso := "T"; random := 0;
                  uid := "u" |} in
  let err := {| err_name := "TypeError"; err_message := "Failed to fetch" |} in
  api "/vendors" "GET" VNull opts (off 601000%Z) (FetchRejected err, off 601000%Z) g
    = (set_lastFromCache true g, Resolved (VStr "rows"))
  /\ api "/vendors" "GET" VNull opts (off 601001%Z) (FetchRejected err, off 601002%Z) g
    = (set_lastFromCache false g, Thrown err).
Proof.
  cbn zeta. split.
  - refine (proj1 (api_cached_read_keeps_ttl "/vendors" VNull
      {| cacheKey := "vendors"; cacheMaxAgeMs := 0 |} _ _ _
      {| rec_t := 1000; rec_v := VStr "rows" |} _ _ _) _ _);
      [discriminate | reflexivity | reflexivity | reflexivity | right; cbn; lia].
  - refine (proj2 (proj2 (api_cached_read_keeps_ttl "/vendors" VNull
      {| cacheKey := "vendors"; cacheMaxAgeMs := 0 |} _ _ _
      {| rec_t := 1000; rec_v := VStr "rows" |} _ _ _) _ _ eq_refl _ _) _);
      [discriminate | reflexivity | reflexivity
      | right; split; [discriminate | cbn; lia]
      | reflexivity
      | split; [discriminate | cbn; lia]].
Defined.

(** ** Token expiry *)

Section TokenFacts.

Variable atob : string -> option string.
Variable JSON_parse : string -> option jsval.
Variable StringToNumber : string -> option Z.

Local Abbreviation decode := (decodeJwtPayload atob JSON_parse).
Local Abbreviation expired := (isJwtExpired atob JSON_parse StringToNumber).

Lemma decode_too_short token :
  (length (split "." token) < 2)%nat -> decode token = VNull.
Proof.
  unfold decodeJwtPayload. destruct (split "." token) as [|h [|seg tl]]; cbn.
  - reflexivity.
  - reflexivity.
  - lia.
Qed.

Lemma expired_of_falsy_payload token skew env :
  truthy (decode token) = false -> expired token skew env = true.
Proof. intros H. unfold isJwtExpired. now rewrite H. Qed.

Lemma expired_of_falsy_exp token skew env :
  truthy (prop "exp" (decode token)) = false -> expired token skew env = true.
Proof. intros H. unfold isJwtExpired. rewrite H. now rewrite orb_true_r. Qed.

Lemma prop_of_number_is_object k x e : prop k x = VNum e -> truthy x = true.
Proof. destruct x; cbn; try discriminate. reflexivity. Qed.

Lemma expired_numeric token skew env e :
  prop "exp" (decode token) = VNum e -> e <> 0%Z ->
  expired token skew env = (e - default 60 skew <=? now_ms env / 1000)%Z.
Proof.
  intros H He. unfold isJwtExpired.
  rewrite (prop_of_number_is_object _ _ _ H), H. cbn.
  destruct (Z.eqb_spec e 0); [contradiction | reflexivity].
Qed.

(** C5: a token that cannot be decoded (fewer than two segments, a middle
    segment that [atob] or [JSON.parse] rejects) or whose payload has no
    [exp] is reported expired; a token whose payload carries the number
    [exp] is reported expired exactly when [exp - skew <= now] in epoch
    seconds, with [skew = 60] unless given; so [exp = now - 1] is expired
    and [exp = now + skew + 1] is valid. The clock is not before the epoch
    and the skew is not negative. *)
Theorem isJwtExpired_spec token (skew : Z) env :
  (0 <= now_ms env)%Z -> (0 <= skew)%Z ->
  let nowSec := (now_ms env / 1000)%Z in
  let p := decode token in
  ((length (split "." token) < 2)%nat -> expired token (Some skew) env = true)
  /\ (forall h seg tl, split "." token = h :: seg :: tl ->
        (atob (padded seg) = None -> expired token (Some skew) env = true)
        /\ (forall json, atob (padded seg) = Some json ->
              (JSON_parse json = None -> expired token (Some skew) env = true)
              /\ (forall v, JSON_parse json = Some v -> p = v)))
  /\ (prop "exp" p = VUndefined -> expired token (Some skew) env = true)
  /\ (truthy (prop "exp" p) = false -> expired token (Some skew) env = true)
  /\ (forall e, prop "exp" p = VNum e ->
        (expired token (Some skew) env = true <-> (e - skew <= nowSec)%Z))
  /\ expired token None env = expired token (Some 60%Z) env
  /\ (prop "exp" p = VNum (nowSec - 1) -> expired token (Some skew) env = true)
  /\ (prop "exp" p = VNum (nowSec + skew + 1) ->
        expired token (Some skew) env = false).
Proof.
  intros Hnow Hskew nowSec p.
  assert (Hsec : (0 <= nowSec)%Z) by (apply Z.div_pos; lia).
  assert (Hnum : forall e, prop "exp" p = VNum e ->
            expired token (Some skew) env = (e - skew <=? nowSec)%Z).
  { intros e He. destruct (Z.eq_dec e 0%Z) as [->|Hne].
    - rewrite expired_of_falsy_exp by (fold p; now rewrite He).
      symmetry. apply Z.leb_le. lia.
    - now rewrite (expired_numeric _ _ _ e He Hne). }
  split.
  { intros Hlen. apply expired_of_falsy_payload.
    now rewrite decode_too_short. }
  split.
  { intros h seg tl Hs. split.
    - intros Ha. apply expired_of_falsy_payload.
      unfold decodeJwtPayload. now rewrite Hs, Ha.
    - intros json Ha. split.
      + intros Hj. apply expired_of_falsy_payload.
        unfold decodeJwtPayload. now rewrite Hs, Ha, Hj.
      + intros v Hj. unfold p, decodeJwtPayload. now rewrite Hs, Ha, Hj. }
  split.
  { intros Hu. apply expired_of_falsy_exp. fold p. now rewrite Hu. }
  split.
  { intros Hf. now apply expired_of_falsy_exp. }
  split.
  { intros e He. rewrite (Hnum e He). apply Z.leb_le. }
  split; [reflexivity|].
  split.
  { intros He. rewrite (Hnum _ He). apply Z.leb_le. lia. }
  { intros He. rewrite (Hnum _ He). apply Z.leb_gt. lia. }
Qed.

End TokenFacts.

Lemma isJwtExpired_spec_witness :
  let env := {| onLine := false; now_ms := 5000123; now_iso := "T"; random := 0;
                uid := "u" |} in
  isJwtExpired toy_atob (toy_parse (VNum 4999)) toy_number "h.cGF5bG9hZA.s"
    (Some 60%Z) env = true
  /\ isJwtExpired toy_atob (toy_parse (VNum 5061)) toy_number "h.cGF5bG9hZA.s"
       (Some 60%Z) env = false
  /\ isJwtExpired toy_atob (toy_parse (VNum 5060)) toy_number "h.cGF5bG9hZA.s"
       (Some 60%Z) env = true
  /\ isJwtExpired toy_atob (toy_parse (VNum 5060)) toy_number "h.!!!!.s"
       (Some 60%Z) env = true
  /\ isJwtExpired toy_atob (toy_parse VUndefined) toy_number "h.cGF5bG9hZA.s"
       (Some 60%Z) env = true
  /\ isJwtExpired toy_atob (toy_parse (VNum 9999)) toy_number "nodots"
       (Some 60%Z) env = true.
Proof.
  cbn zeta.
  set (env := {| onLine := false; now_ms := 5000123; now_iso := "T"; random := 0;
                 uid := "u" |}).
  assert (Hnow : (0 <= now_ms env)%Z) by (cbn; lia).
  assert (Hskew : (0 <= 60)%Z) by lia.
  split.
  { apply (isJwtExpired_spec toy_atob (toy_parse (VNum 4999)) toy_number
             "h.cGF5bG9hZA.s" 60 env Hnow Hskew). reflexivity. }
  split.
  { apply (isJwtExpired_spec toy_atob (toy_parse (VNum 5061)) toy_number
             "h.cGF5bG9hZA.s" 60 env Hnow Hskew). reflexivity. }
  split.
  { apply (proj1 (proj2 (proj2 (proj2 (proj2
           (isJwtExpired_spec toy_atob (toy_parse (VNum 5060)) toy_number
              "h.cGF5bG9hZA.s" 60 env Hnow Hskew)))))
           5060%Z eq_refl).
    apply Z.leb_le. reflexivity. }
  split.
  { apply (proj1 (proj2 (isJwtExpired_spec toy_atob (toy_parse (VNum 5060))
             toy_number "h.!!!!.s" 60 env Hnow Hskew)) "h" "!!!!" ["s"] eq_refl).
    reflexivity. }
  split.
  { apply (proj1 (proj2 (proj2 (isJwtExpired_spec toy_atob (toy_parse VUndefined)
             toy_number "h.cGF5bG9hZA.s" 60 env Hnow Hskew)))).
    reflexivity. }
  { apply (proj1 (isJwtExpired_spec toy_atob (toy_parse (VNum 9999)) toy_number
             "nodots" 60 env Hnow Hskew)).
    cbn. lia. }
Defined.
(** ** The toy platform: its case folding and its trimming *)







Lemma fold_case_nonempty s : fold_case s = "" -> s = "".
Proof. destruct s; [reflexivity | discriminate]. Qed.





(** ** Remembered accounts *)

Section AccountFacts.

Context {P : Platform}.

(** [String.prototype.toLowerCase] is idempotent. *)
Hypothesis toLowerCase_idem : forall s, toLowerCase (toLowerCase s) = toLowerCase s.


Lemma filter_keys k (l : list Account) :
  List.map acc_key (List.filter (fun a => negb (String.eqb (acc_key a) k)) l) =
  List.filter (fun x => negb (String.eqb x k)) (List.map acc_key l).
Proof.
  induction l as [|a l IH]; cbn; [reflexivity|].
  destruct (negb (acc_key a =? k)%string); cbn; now rewrite IH.
Qed.

Lemma remember_without_key v c :
  call_key c = None -> offlineAccounts (remember v c) = offlineAccounts v.
Proof.
  unfold call_key, remember, rememberSession.
  destruct (rc_session c) as [s|]; [|reflexivity].
  destruct (String.eqb (rc_token c) ""); [reflexivity|].
  match goal with |- context [if ?b then None else _] => destruct b end;
    [reflexivity | discriminate].
Qed.

Lemma remember_with_key v c k :
  call_key c = Some k ->
  exists a,
    acc_key a = k /\ acc_key a = accountKey (acc_role a) (acc_loginId a) /\
    offlineAccounts (remember v c) =
    take 5 (a :: List.filter (fun b => negb (String.eqb (acc_key b) k))
                             (offlineAccounts v)).
Proof.
  unfold call_key, remember, rememberSession.
  destruct (rc_session c) as [s|]; [|discriminate].
  destruct (String.eqb (rc_token c) ""); [discriminate|].
  match goal with |- context [if ?b then None else _] => destruct b end;
    [discriminate|].
  intros [= <-]. eexists. split; [|split]; [| |reflexivity]; reflexivity.
Qed.


Lemma account_keys_remember v c k :
  call_key c = Some k ->
  account_keys (remember v c) = touch k (account_keys v).
Proof.
  intros H. destruct (remember_with_key v c k H) as (a & Ha & _ & E).
  unfold account_keys, touch. rewrite E.
  rewrite <- firstn_map. cbn [List.map]. now rewrite filter_keys, Ha.
Qed.

Lemma filter_absent k (l : list string) :
  ~ In k l -> List.filter (fun x => negb (String.eqb x k)) l = l.
Proof.
  induction l as [|x l IH]; cbn; [reflexivity|]. intros Hn.
  destruct (String.eqb_spec x k) as [->|Hne]; cbn.
  - exfalso. apply Hn. now left.
  - rewrite IH; [reflexivity|]. intros Hin. apply Hn. now right.
Qed.

Lemma In_take {A} (x : A) n (l : list A) : In x (take n l) -> In x l.
Proof.
  intros H. rewrite <- (take_drop n l). apply in_or_app. now left.
Qed.

Lemma take_filter_take k n (l : list string) :
  NoDup l ->
  take n (List.filter (fun x => negb (String.eqb x k)) (take (S n) l)) =
  take n (List.filter (fun x => negb (String.eqb x k)) l).
Proof.
  intros Hnd. revert n. induction Hnd as [|x l Hx Hnd IH]; intros n.
  - reflexivity.
  - destruct n as [|n]; [reflexivity|].
    change (take (S (S n)) (x :: l)) with (x :: take (S n) l).
    cbn [List.filter].
    destruct (String.eqb_spec x k) as [->|Hne]; cbn [negb].
    + assert (Hk : ~ In k l) by (now rewrite <- list_elem_of_In).
      rewrite (filter_absent k l Hk).
      rewrite filter_absent.
      * now rewrite take_take, Nat.min_id.
      * intros Hin. apply Hk. eapply In_take. exact Hin.
    + cbn [take]. now rewrite IH.
Qed.

Lemma remove_dups_snoc (acc : list string) k :
  remove_dups (acc ++ [k]) =
  List.filter (fun x => negb (String.eqb x k)) (remove_dups acc) ++ [k].
Proof.
  induction acc as [|x acc IH]; [reflexivity|].
  cbn [app remove_dups]. rewrite IH.
  destruct (decide_rel elem_of x (acc ++ [k])) as [Hin|Hout];
    destruct (decide_rel elem_of x acc) as [Hin'|Hout']; cbn [List.filter].
  - reflexivity.
  - assert (x = k) as ->.
    { apply elem_of_app in Hin as [Hin|Hin]; [contradiction|].
      now apply list_elem_of_singleton in Hin. }
    now rewrite String.eqb_refl.
  - exfalso. apply Hout. apply elem_of_app. now left.
  - destruct (String.eqb_spec x k) as [->|Hne]; cbn [negb].
    + exfalso. apply Hout. apply elem_of_app. right. now apply list_elem_of_singleton.
    + reflexivity.
Qed.

Lemma NoDup_rev_remove_dups (acc : list string) : NoDup (rev (remove_dups acc)).
Proof. rewrite <- Permutation_rev. apply NoDup_remove_dups. Qed.

Lemma touch_take k (l : list string) :
  NoDup l ->
  touch k (take 5 l) =
  take 5 (k :: List.filter (fun x => negb (String.eqb x k)) l).
Proof.
  intros Hnd. unfold touch.
  change (take 5 (k :: ?m)) with (k :: take 4 m).
  now rewrite (take_filter_take k 4 l Hnd).
Qed.

Lemma touch_mru k (acc : list string) :
  touch k (take 5 (rev (remove_dups acc))) =
  take 5 (rev (remove_dups (acc ++ [k]))).
Proof.
  rewrite touch_take by apply NoDup_rev_remove_dups.
  now rewrite remove_dups_snoc, rev_app_distr, filter_rev.
Qed.

(** The keys on file are the keys used, each at its last use, latest first,
    cut to five. *)
Lemma account_keys_run_from ops v acc :
  account_keys v = take 5 (rev (remove_dups acc)) ->
  account_keys (fold_left vault_step ops v) =
  take 5 (rev (remove_dups (keys_used ops acc))).
Proof.
  revert v acc. induction ops as [|op ops IH]; intros v acc Hv; [exact Hv|].
  cbn [fold_left keys_used]. destruct op as [c|]; cbn [vault_step].
  - apply IH. destruct (call_key c) as [k|] eqn:Hk.
    + now rewrite (account_keys_remember v c k Hk), Hv, touch_mru.
    + unfold account_keys. now rewrite (remember_without_key v c Hk).
  - apply IH. reflexivity.
Qed.

Lemma account_keys_run ops :
  account_keys (vault_run ops) = take 5 (rev (remove_dups (keys_used ops []))).
Proof. now apply account_keys_run_from. Qed.

Lemma account_keys_NoDup ops : NoDup (account_keys (vault_run ops)).
Proof.
  rewrite account_keys_run.
  eapply sublist_NoDup; [|apply sublist_take].
  apply NoDup_rev_remove_dups.
Qed.

Lemma accounts_keyed_run_from ops v :
  Forall (fun a => acc_key a = accountKey (acc_role a) (acc_loginId a))
         (offlineAccounts v) ->
  Forall (fun a => acc_key a = accountKey (acc_role a) (acc_loginId a))
         (offlineAccounts (fold_left vault_step ops v)).
Proof.
  revert v. induction ops as [|op ops IH]; intros v Hv; [exact Hv|].
  cbn [fold_left]. apply IH. destruct op as [c|]; cbn [vault_step].
  - destruct (call_key c) as [k|] eqn:Hk.
    + destruct (remember_with_key v c k Hk) as (a & _ & Ha & ->).
      apply Forall_take. constructor; [exact Ha|].
      apply Forall_forall. intros b Hb.
      apply list_elem_of_In, filter_In in Hb as [Hb _].
      rewrite Forall_forall in Hv. apply Hv. now apply list_elem_of_In.
    + now rewrite (remember_without_key v c Hk).
  - constructor.
Qed.

Lemma accounts_keyed_run ops :
  Forall (fun a => acc_key a = accountKey (acc_role a) (acc_loginId a))
         (offlineAccounts (vault_run ops)).
Proof. apply accounts_keyed_run_from. constructor. Qed.



Lemma filter_present_length k (l : list string) :
  NoDup l -> In k l ->
  S (length (List.filter (fun x => negb (String.eqb x k)) l)) = length l.
Proof.
  intros Hnd. induction Hnd as [|x l Hx Hnd IH]; intros Hin; [destruct Hin|].
  cbn [List.filter]. destruct (String.eqb_spec x k) as [->|Hne]; cbn [negb length].
  - rewrite filter_absent; [reflexivity|]. now rewrite <- list_elem_of_In.
  - destruct Hin as [->|Hin]; [contradiction|]. now rewrite IH.
Qed.

(** No two entries of the list share their role and their login id. *)
Lemma accounts_distinct ops i j a b :
  offlineAccounts (vault_run ops) !! i = Some a ->
  offlineAccounts (vault_run ops) !! j = Some b ->
  acc_role a = acc_role b -> acc_loginId a = acc_loginId b -> i = j.
Proof.
  intros Ha Hb Hr Hl.
  pose proof (accounts_keyed_run ops) as Hok. rewrite Forall_forall in Hok.
  assert (Hka : acc_key a = accountKey (acc_role a) (acc_loginId a))
    by (apply (Hok a); eapply list_elem_of_lookup_2; exact Ha).
  assert (Hkb : acc_key b = accountKey (acc_role b) (acc_loginId b))
    by (apply (Hok b); eapply list_elem_of_lookup_2; exact Hb).
  apply (NoDup_lookup (account_keys (vault_run ops)) i j (acc_key a)
           (account_keys_NoDup ops)).
  - unfold account_keys.
    change (List.map acc_key ?l) with (acc_key <$> l).
    now rewrite list_lookup_fmap, Ha.
  - unfold account_keys.
    change (List.map acc_key ?l) with (acc_key <$> l).
    rewrite list_lookup_fmap, Hb. cbn. now rewrite Hka, Hkb, Hr, Hl.
Qed.

(** C6: over any history of logins (and clearings of the saved sessions), the
    list of offline accounts has at most 5 entries and at most one entry per
    key, hence per (role, loginId); its keys are the keys used, each at its
    last use, most recent first ([remove_dups] keeps the last occurrence), cut
    to five. One more [rememberSession] that reaches the list puts its
    account at the front: for a key already on file the list does not grow
    and the other entries keep their order; for a new key on a full list the
    last entry, the least recently used one, is dropped. *)
Theorem account_list_invariant ops c :
  let v := vault_run ops in
  let keys := account_keys v in
  (length (offlineAccounts v) <= 5)%nat
  /\ NoDup keys
  /\ (forall i j a b,
        offlineAccounts v !! i = Some a -> offlineAccounts v !! j = Some b ->
        acc_role a = acc_role b -> acc_loginId a = acc_loginId b -> i = j)
  /\ keys = take 5 (rev (remove_dups (keys_used ops [])))
  /\ (forall k, call_key c = Some k ->
        let v' := remember v c in
        (exists a rest, offlineAccounts v' = a :: rest /\ acc_key a = k)
        /\ (length (offlineAccounts v') <= 5)%nat
        /\ (In k keys ->
              account_keys v' =
                k :: List.filter (fun x => negb (String.eqb x k)) keys
              /\ length (offlineAccounts v') = length (offlineAccounts v))
        /\ (~ In k keys -> length keys = 5%nat ->
              account_keys v' = k :: take 4 keys)
        /\ (~ In k keys -> (length keys < 5)%nat ->
              account_keys v' = k :: keys)).
Proof.
  intros v keys.
  assert (Hnd : NoDup keys) by apply account_keys_NoDup.
  assert (Hlen : length (offlineAccounts v) = length keys).
  { unfold keys, account_keys. now rewrite length_map. }
  assert (Hkeys : keys = take 5 (rev (remove_dups (keys_used ops []))))
    by apply account_keys_run.
  assert (Hle : (length keys <= 5)%nat).
  { rewrite Hkeys, length_take. lia. }
  split; [lia|]. split; [exact Hnd|]. split.
  { apply accounts_distinct. }
  split; [exact Hkeys|].
  intros k Hk v'.
  assert (Hk' : account_keys v' = touch k keys) by now apply account_keys_remember.
  assert (Hlen' : length (offlineAccounts v') = length (touch k keys)).
  { rewrite <- Hk'. unfold account_keys. now rewrite length_map. }
  split.
  { destruct (remember_with_key v c k Hk) as (a & Ha & _ & E).
    exists a. eexists. split; [|exact Ha]. fold v' in E. rewrite E. reflexivity. }
  split.
  { rewrite Hlen'. unfold touch. rewrite length_take. lia. }
  split.
  { intros Hin. pose proof (filter_present_length k keys Hnd Hin) as Hf.
    assert (Ht : touch k keys =
                 k :: List.filter (fun x => negb (String.eqb x k)) keys).
    { unfold touch. apply take_ge. cbn [length]. lia. }
    split; [now rewrite Hk'|]. rewrite Hlen', Ht. cbn [length]. lia. }
  split.
  { intros Hout _. rewrite Hk'. unfold touch. now rewrite (filter_absent k keys Hout). }
  { intros Hout Hlt. rewrite Hk'. unfold touch.
    rewrite (filter_absent k keys Hout). apply take_ge. cbn [length]. lia. }
Qed.

End AccountFacts.

Section AccountExamples.

#[local] Existing Instance toy_platform.

Lemma account_list_invariant_witness :
  account_keys (vault_run six_logins) =
    ["user:f@x.org"; "user:e@x.org"; "user:d@x.org"; "user:c@x.org"; "user:b@x.org"]
  /\ account_keys (remember (vault_run six_logins) login_again) =
    ["user:b@x.org"; "user:f@x.org"; "user:e@x.org"; "user:d@x.org"; "user:c@x.org"]
  /\ account_keys (remember (vault_run six_logins) login_seventh) =
    ["user:g@x.org"; "user:f@x.org"; "user:e@x.org"; "user:d@x.org"; "user:c@x.org"].
Proof.
  split; [|split].
  - destruct (account_list_invariant six_logins login_again) as (_ & _ & _ & H & _).
    rewrite H. reflexivity.
  - destruct (account_list_invariant six_logins login_again) as (_ & _ & _ & _ & H).
    destruct (H "user:b@x.org" eq_refl) as (_ & _ & H3 & _).
    destruct H3 as [H3 _]; [vm_compute; tauto|].
    rewrite H3. reflexivity.
  - destruct (account_list_invariant six_logins login_seventh) as (_ & _ & _ & _ & H).
    destruct (H "user:g@x.org" eq_refl) as (_ & _ & _ & H4 & _).
    rewrite H4; [reflexivity | vm_compute; intuition discriminate | reflexivity].
Defined.

End AccountExamples.

(** ** Identity of an offline account *)

Section IdentityFacts.

Context {P : Platform}.
Variable atob : string -> option string.
Variable JSON_parse : string -> option jsval.
Variable StringToNumber : string -> option Z.

(** Two facts about the platform's strings: lower-casing twice is
    lower-casing once, and it makes no difference whether the white space
    around a string is stripped before or after lower-casing it (white space
    has no case, and no letter folds to white space). *)
Hypothesis toLowerCase_idem :
  forall s, toLowerCase (toLowerCase s) = toLowerCase s.
Hypothesis trim_toLowerCase :
  forall s, trim (toLowerCase s) = toLowerCase (trim s).

Local Abbreviation find := (findOfflineAccount atob JSON_parse StringToNumber).




End IdentityFacts.

Section IdentityExamples.

#[local] Existing Instance toy_platform.


(** The login of the witness does find its account. *)
Example findOfflineAccount_finds_case_variant :
  exists item,
    findOfflineAccount toy_atob (toy_parse (VNum 9000)) toy_number
      "USER" " B@x.ORG" (env_at false 5000123) (vault_run six_logins) = Ok item
    /\ acc_key item = "user:b@x.org".
Proof. eexists. split; reflexivity. Qed.

End IdentityExamples.

(** ** Retry queue: the loop of a flush *)

Lemma endpoint_known item :
  endpoint item <> None <->
  item_type item = "report.create" \/ item_type item = "vendor.complete" \/
  item_type item = "admin.assign" \/ item_type item = "admin.status".
Proof.
  unfold endpoint.
  destruct (String.eqb_spec (item_type item) "report.create") as [->|H1];
    [split; [now left | discriminate]|].
  destruct (String.eqb_spec (item_type item) "vendor.complete") as [->|H2];
    [split; [now right; left | discriminate]|].
  destruct (String.eqb_spec (item_type item) "admin.assign") as [->|H3];
    [split; [now right; right; left | discriminate]|].
  destruct (String.eqb_spec (item_type item) "admin.status") as [->|H4];
    [split; [now right; right; right | discriminate]|].
  split; [congruence | intuition congruence].
Qed.

(** What a run of the loop over [items], entered at index [i], leaves
    behind. Every call is for an item that has an endpoint; the calls before
    the one that throws all resolved, and every item with an endpoint before
    it was called. *)
Lemma flush_loop_inv items i env replies g :
  let r := flush_loop items i env replies g in
  (forall a, In a (loop_log r) ->
     (i <= at_pos a)%nat /\
     exists item path,
       items !! (at_pos a - i)%nat = Some item /\ endpoint item = Some path /\
       req_body (at_request a) = item_payload item /\
       req_method (at_request a) = "POST")
  /\ match loop_exit r with
     | Completed =>
         (forall a, In a (loop_log r) -> resolved a = true)
         /\ (forall p item, items !! p = Some item -> endpoint item <> None ->
               exists a, In a (loop_log r) /\ at_pos a = (i + p)%nat /\
                         resolved a = true)
     | Failed j item err =>
         (i <= j)%nat
         /\ items !! (j - i)%nat = Some item
         /\ endpoint item <> None
         /\ loop_env r = snd (replies j)
         /\ (exists a, last (loop_log r) = Some a /\ at_pos a = j /\
                       at_outcome a = Thrown err)
         /\ (forall a, In a (loop_log r) ->
               (at_pos a <= j)%nat /\
               (at_pos a < j -> resolved a = true)%nat /\
               (at_pos a = j -> at_outcome a = Thrown err))
         /\ (forall p item', items !! p = Some item' -> (i + p < j)%nat ->
               endpoint item' <> None ->
               exists a, In a (loop_log r) /\ at_pos a = (i + p)%nat /\
                         resolved a = true)
     end.
Proof.
  revert i env g. induction items as [|item rest IH]; intros i env g.
  - cbn. split; [intros a []|]. split; [intros a []|]. intros p it H. discriminate.
  - cbn [flush_loop]. destruct (endpoint item) as [path|] eqn:Hep.
    + set (res := api path "POST" (item_payload item) no_options env (replies i) g).
      set (a0 := {| at_pos := i;
                    at_request := api_request path "POST" (item_payload item) env g;
                    at_outcome := snd res |}).
      destruct (snd res) as [d|err] eqn:Hres.
      * specialize (IH (S i) (snd (replies i)) (fst res)).
        cbn zeta in IH. destruct IH as [IHlog IHexit].
        set (r := flush_loop rest (S i) (snd (replies i)) replies (fst res)) in *.
        cbn [log_attempt loop_log loop_exit loop_env].
        assert (Ha0 : resolved a0 = true) by reflexivity.
        split.
        { intros a [<-|Hin].
          - cbn. split; [lia|]. exists item, path. rewrite Nat.sub_diag.
            repeat split; [exact Hep].
          - destruct (IHlog a Hin) as (Hle & it & pa & Hit & Hpa & Hb & Hm).
            split; [lia|]. exists it, pa.
            replace (at_pos a - i)%nat with (S (at_pos a - S i)) by lia.
            repeat split; assumption. }
        destruct (loop_exit r) as [|j it err].
        { destruct IHexit as [Hall Hcov]. split.
          - intros a [<-|Hin]; [exact Ha0 | now apply Hall].
          - intros [|p] it Hit Hne.
            + exists a0. split; [now left|]. split; [cbn; lia | exact Ha0].
            + destruct (Hcov p it Hit Hne) as (a & Hin & Hp & Hr).
              exists a. split; [now right|]. split; [lia | exact Hr]. }
        { destruct IHexit as (Hle & Hit & Hne & Henv & (al & Hlast & Hal) & Hall & Hcov).
          split; [lia|]. split.
          { replace (j - i)%nat with (S (j - S i)) by lia. exact Hit. }
          split; [exact Hne|]. split; [exact Henv|]. split.
          { exists al. split; [|exact Hal].
            destruct (loop_log r) as [|b l]; [discriminate|]. exact Hlast. }
          split.
          - intros a [<-|Hin].
            + cbn [at_pos a0]. split; [lia|]. split; [intros _; exact Ha0 | lia].
            + now apply Hall.
          - intros [|p] it' Hit' Hlt Hne'.
            + exists a0. split; [now left|]. split; [cbn; lia | exact Ha0].
            + destruct (Hcov p it' Hit') as (a & Hin & Hp & Hr); [lia | exact Hne'|].
              exists a. split; [now right|]. split; [lia | exact Hr]. }
      * cbn [loop_log loop_exit loop_env]. split.
        { intros a [<-|[]]. cbn. split; [lia|]. exists item, path.
          rewrite Nat.sub_diag. repeat split; [exact Hep]. }
        split; [lia|]. split; [now rewrite Nat.sub_diag|].
        split; [congruence|]. split; [reflexivity|]. split.
        { exists a0. repeat split. }
        split.
        { intros a [<-|[]]. cbn [at_pos a0]. split; [lia|].
          split; [lia | intros _; reflexivity]. }
        { intros p it' _ Hlt. lia. }
    + specialize (IH (S i) env g). cbn zeta in IH. destruct IH as [IHlog IHexit].
      set (r := flush_loop rest (S i) env replies g) in *.
      split.
      { intros a Hin. destruct (IHlog a Hin) as (Hle & it & pa & Hit & Hpa & Hb & Hm).
        split; [lia|]. exists it, pa.
        replace (at_pos a - i)%nat with (S (at_pos a - S i)) by lia.
        repeat split; assumption. }
      destruct (loop_exit r) as [|j it err].
      { destruct IHexit as [Hall Hcov]. split; [exact Hall|].
        intros [|p] it Hit Hne.
        - cbn in Hit. injection Hit as <-. congruence.
        - destruct (Hcov p it Hit Hne) as (a & Hin & Hp & Hr).
          exists a. split; [exact Hin|]. split; [lia | exact Hr]. }
      { destruct IHexit as (Hle & Hit & Hne & Henv & Hlast & Hall & Hcov).
        split; [lia|]. split.
        { replace (j - i)%nat with (S (j - S i)) by lia. exact Hit. }
        split; [exact Hne|]. split; [exact Henv|]. split; [exact Hlast|].
        split; [exact Hall|].
        intros [|p] it' Hit' Hlt Hne'.
        - cbn in Hit'. injection Hit' as <-. congruence.
        - destruct (Hcov p it' Hit') as (a & Hin & Hp & Hr); [lia | exact Hne'|].
          exists a. split; [exact Hin|]. split; [lia | exact Hr]. }
Qed.

(** ** Retry queue: scheduling *)

Lemma jitter_range env :
  (0 <= random env < 2 ^ 53)%Z -> (0 <= jitter env < 400)%Z.
Proof.
  intros [Hlo Hhi]. unfold jitter. split.
  - apply Z.div_pos; lia.
  - apply Z.div_lt_upper_bound; lia.
Qed.

Lemma scheduleFlush_fields env q :
  queue (scheduleFlush env q) = queue q
  /\ stored (scheduleFlush env q) = stored q
  /\ _flushing (scheduleFlush env q) = _flushing q
  /\ _retryCount (scheduleFlush env q) = _retryCount q
  /\ toasts (scheduleFlush env q) = toasts q.
Proof.
  unfold scheduleFlush.
  destruct (_timer q); destruct (queue q) eqn:Hq; cbn; rewrite ?Hq; repeat split.
Qed.

Lemma scheduleFlush_idle env q :
  _timer q <> None \/ queue q = [] -> scheduleFlush env q = q.
Proof.
  unfold scheduleFlush. intros [H|H].
  - destruct (_timer q); [reflexivity | contradiction].
  - rewrite H. destruct (_timer q); reflexivity.
Qed.

Lemma scheduleFlush_arms env q :
  _timer q = None -> queue q <> [] ->
  _timer (scheduleFlush env q) = Some (backoff (_retryCount q) + jitter env)%Z
  /\ _nextRetryAt (scheduleFlush env q) =
     Some (now_ms env + (backoff (_retryCount q) + jitter env))%Z.
Proof.
  unfold scheduleFlush. intros -> Hq.
  destruct (queue q); [contradiction | split; reflexivity].
Qed.

Lemma notifyOffline_fields msg env q :
  queue (notifyOffline msg env q) = queue q
  /\ stored (notifyOffline msg env q) = stored q
  /\ _flushing (notifyOffline msg env q) = _flushing q
  /\ _retryCount (notifyOffline msg env q) = _retryCount q
  /\ _timer (notifyOffline msg env q) = _timer q.
Proof.
  unfold notifyOffline. destruct (now_ms env - _lastOfflineNotice q <? 15000)%Z;
    repeat split.
Qed.

(** ** Retry queue: the parts of a flush *)

Lemma flush_enter_inl force env q q1 :
  flush_enter force env q = inl q1 ->
  queue q1 = queue q /\ stored q1 = stored q /\ _flushing q1 = _flushing q
  /\ (_flushing q = true -> q1 = q)
  /\ (_flushing q = false ->
        _retryCount q1 = if force then 0%nat else _retryCount q).
Proof.
  unfold flush_enter. destruct (_flushing q) eqn:Hfl.
  - intros [= <-]. repeat split; intros; congruence.
  - destruct (onLine env); cbn [negb].
    + destruct force; cbn; destruct (queue q) eqn:Hq; try discriminate;
        intros [= <-]; cbn; repeat split; intros; congruence.
    + intros [= <-].
      destruct force.
      * destruct (scheduleFlush_fields env
          (notifyOffline "Offline. Sync will retry automatically." env
             (clearSchedule (set_retryCount 0 q)))) as (A & B & C & D & _).
        destruct (notifyOffline_fields "Offline. Sync will retry automatically." env
             (clearSchedule (set_retryCount 0 q))) as (A' & B' & C' & D' & _).
        rewrite A, B, C, D, A', B', C', D'. cbn.
        repeat split; intros; congruence.
      * destruct (scheduleFlush_fields env q) as (A & B & C & D & _).
        rewrite A, B, C, D. repeat split; intros; congruence.
Qed.

Lemma flush_enter_inr force env q q1 :
  flush_enter force env q = inr q1 ->
  _flushing q = false /\ onLine env = true /\ queue q <> []
  /\ q1 = set_flushing true (if force then clearSchedule (set_retryCount 0 q) else q).
Proof.
  unfold flush_enter. destruct (_flushing q); [discriminate|].
  destruct (onLine env); cbn [negb]; [|discriminate].
  destruct force.
  - cbn. destruct (queue q) eqn:Hq; [discriminate|]. intros [= <-].
    repeat split. discriminate.
  - destruct (queue q) eqn:Hq; [discriminate|]. intros [= <-].
    repeat split. discriminate.
Qed.

Lemma flush_enter_enters force env q :
  _flushing q = false -> onLine env = true -> queue q <> [] ->
  flush_enter force env q =
  inr (set_flushing true (if force then clearSchedule (set_retryCount 0 q) else q)).
Proof.
  intros Hfl Hon Hq. unfold flush_enter. rewrite Hfl, Hon. cbn [negb].
  destruct force; cbn; destruct (queue q); congruence.
Qed.

Lemma flush_unfold force env replies q g :
  flush force env replies (q, g) =
  match flush_enter force env q with
  | inl q1 => (q1, g, [])
  | inr q1 =>
      let r := flush_loop (queue q1) 0 env replies g in
      (finish (fst (kept r (queue q1))) (snd (kept r (queue q1))) (loop_env r) q1,
       loop_gateway r, loop_log r)
  end.
Proof.
  unfold flush, kept. cbn [fst snd]. destruct (flush_enter force env q); [reflexivity|].
  cbn zeta. destruct (loop_exit _); [reflexivity|]. now destruct (on_failure _ _ _ _ _).
Qed.

Lemma finish_fields remaining failedNet env q :
  queue (finish remaining failedNet env q) = remaining
  /\ stored (finish remaining failedNet env q) = remaining
  /\ _flushing (finish remaining failedNet env q) = false
  /\ _retryCount (finish remaining failedNet env q) =
     match remaining with
     | [] => 0%nat
     | _ :: _ =>
         if onLine env && failedNet then Nat.min (_retryCount q + 1) 6
         else _retryCount q
     end.
Proof.
  unfold finish. cbn. destruct remaining as [|x rest].
  - repeat split.
  - destruct (onLine env && failedNet); [|repeat split].
    match goal with |- context [scheduleFlush env ?q'] =>
      destruct (scheduleFlush_fields env q') as (A & B & C & D & _) end.
    rewrite A, B, C, D. repeat split.
Qed.

Lemma on_failure_kept i item err env (items : list Item) :
  items !! i = Some item ->
  fst (on_failure i item err env items) =
    (if isNetworkError env err then item else annotate item err env)
    :: drop (S i) items
  /\ snd (on_failure i item err env items) = isNetworkError env err.
Proof.
  intros Hi. unfold on_failure. cbn [fst snd]. split; [|reflexivity].
  rewrite (drop_S items item i Hi).
  destruct (isNetworkError env err); reflexivity.
Qed.

Lemma core_annotate item err env : core (annotate item err env) = core item.
Proof. reflexivity. Qed.

Lemma endpoint_core item item' : core item = core item' -> endpoint item = endpoint item'.
Proof. unfold core, endpoint. intros [= _ -> _ _]. reflexivity. Qed.

Lemma lookup_lt_length {A} (l : list A) i x : l !! i = Some x -> (i < length l)%nat.
Proof. intros H. apply lookup_lt_is_Some. eauto. Qed.

(** One flush, seen from outside: [k] items leave the head of the queue, the
    rest stays in order; every item that left and has an endpoint was called
    with success; no call that succeeded is for an item that stays. *)
Lemma flush_takes_prefix force env replies q g :
  let r := flush force env replies (q, g) in
  let q' := fst (fst r) in
  let log := snd r in
  let k := (length (queue q) - length (queue q'))%nat in
  List.map core (queue q') = drop k (List.map core (queue q))
  /\ (k <= length (queue q))%nat
  /\ (forall p item, queue q !! p = Some item -> (p < k)%nat ->
        endpoint item <> None ->
        exists a, In a log /\ at_pos a = p /\ resolved a = true)
  /\ (forall a, In a log ->
        exists item, queue q !! at_pos a = Some item /\ endpoint item <> None)
  /\ (forall a, In a log -> resolved a = true -> (at_pos a < k)%nat)
  /\ (forall a, In a log -> (at_pos a <= k)%nat).
Proof.
  cbn zeta. rewrite flush_unfold.
  destruct (flush_enter force env q) as [q1|q1] eqn:Hent.
  - destruct (flush_enter_inl _ _ _ _ Hent) as (Hq & _).
    cbn [fst snd]. rewrite Hq, Nat.sub_diag. cbn [drop].
    repeat split; try lia; intros; try lia; contradiction.
  - destruct (flush_enter_inr _ _ _ _ Hent) as (_ & _ & _ & ->).
    assert (Hq : queue (set_flushing true
                   (if force then clearSchedule (set_retryCount 0 q) else q)) = queue q)
      by (destruct force; reflexivity).
    cbn zeta. cbn [fst snd]. rewrite Hq.
    set (r := flush_loop (queue q) 0 env replies g).
    destruct (finish_fields (fst (kept r (queue q))) (snd (kept r (queue q)))
                (loop_env r)
                (set_flushing true
                   (if force then clearSchedule (set_retryCount 0 q) else q)))
      as (Hfq & _).
    rewrite Hfq.
    pose proof (flush_loop_inv (queue q) 0 env replies g) as Hinv.
    cbn zeta in Hinv. fold r in Hinv. destruct Hinv as [Hlog Hexit].
    assert (Hin_range : forall a, In a (loop_log r) ->
              exists item, queue q !! at_pos a = Some item /\ endpoint item <> None).
    { intros a Ha. destruct (Hlog a Ha) as (_ & it & pa & Hit & Hpa & _).
      rewrite Nat.sub_0_r in Hit. exists it. split; [exact Hit | congruence]. }
    unfold kept. destruct (loop_exit r) as [|j item err].
    + destruct Hexit as [Hall Hcov]. cbn [fst length]. rewrite Nat.sub_0_r.
      split; [rewrite drop_ge by (rewrite length_map; lia); reflexivity|].
      split; [lia|]. split.
      { intros p it Hit _ Hne. destruct (Hcov p it Hit Hne) as (a & Ha & Hp & Hr).
        exists a. repeat split; assumption. }
      split; [exact Hin_range|]. split.
      { intros a Ha _. destruct (Hin_range a Ha) as (it & Hit & _).
        now apply lookup_lt_length in Hit. }
      { intros a Ha. destruct (Hin_range a Ha) as (it & Hit & _).
        apply lookup_lt_length in Hit. lia. }
    + destruct Hexit as (_ & Hit & Hne & Henv & _ & Hall & Hcov).
      rewrite Nat.sub_0_r in Hit.
      destruct (on_failure_kept j item err (loop_env r) (queue q) Hit) as [Hk _].
      rewrite Hk. pose proof (lookup_lt_length _ _ _ Hit) as Hlt.
      assert (Hlen : (length (queue q) -
                length ((if isNetworkError (loop_env r) err then item
                         else annotate item err (loop_env r)) :: drop (S j) (queue q))
                = j)%nat).
      { cbn [length]. rewrite length_drop. lia. }
      rewrite Hlen. split.
      { rewrite skipn_map, (drop_S (queue q) item j Hit). cbn [List.map].
        now destruct (isNetworkError (loop_env r) err). }
      split; [lia|]. split.
      { intros p it Hp Hpj Hne'. destruct (Hcov p it Hp) as (a & Ha & Hpa & Hr);
          [lia | exact Hne' |]. exists a. repeat split; assumption. }
      split; [exact Hin_range|]. split.
      { intros a Ha Hr. destruct (Hall a Ha) as (Hle & _ & Heq).
        destruct (Nat.eq_dec (at_pos a) j) as [E|E]; [|lia].
        specialize (Heq E). unfold resolved in Hr. rewrite Heq in Hr. discriminate. }
      { intros a Ha. now destruct (Hall a Ha). }
Qed.

(** ** Retry queue: a history of enqueues and flushes *)

Lemma enqueue_appends env item q :
  queue (fst (enqueue env item q)) = queue q ++ [new_entry env item]
  /\ stored (fst (enqueue env item q)) = queue q ++ [new_entry env item]
  /\ _retryCount (fst (enqueue env item q)) = _retryCount q
  /\ _flushing (fst (enqueue env item q)) = _flushing q
  /\ snd (enqueue env item q) = new_entry env item.
Proof.
  unfold enqueue. cbn [fst snd]. destruct (onLine env).
  - match goal with |- context [scheduleFlush env ?q'] =>
      destruct (scheduleFlush_fields env q') as (A & B & C & D & _) end.
    rewrite A, B, C, D. repeat split.
  - repeat split.
Qed.

Lemma enqueue_all_appends inputs q :
  queue (enqueue_all inputs q) =
  queue q ++ List.map (fun c => new_entry (fst c) (snd c)) inputs.
Proof.
  revert q. induction inputs as [|c inputs IH]; intros q.
  - cbn. now rewrite app_nil_r.
  - change (enqueue_all (c :: inputs) q)
      with (enqueue_all inputs (fst (enqueue (fst c) (snd c) q))).
    rewrite IH. destruct (enqueue_appends (fst c) (snd c) q) as (E & _).
    rewrite E. cbn [List.map]. now rewrite <- app_assoc.
Qed.

Lemma resolved_shift n a : resolved (shift n a) = resolved a.
Proof. reflexivity. Qed.

Lemma lookup_behind (Q L : list Item) removed i :
  List.map core Q = drop removed (List.map core L) ->
  (forall item, L !! (removed + i)%nat = Some item ->
     exists item', Q !! i = Some item' /\ core item' = core item)
  /\ (forall item', Q !! i = Some item' ->
        exists item, L !! (removed + i)%nat = Some item /\ core item = core item').
Proof.
  intros H.
  assert (E : (core <$> Q) !! i = (core <$> L) !! (removed + i)%nat).
  { change (core <$> Q) with (List.map core Q). rewrite H. apply lookup_drop. }
  rewrite !list_lookup_fmap in E. split.
  - intros item Hi. rewrite Hi in E.
    destruct (Q !! i) as [item'|]; [|discriminate].
    change (Some (core item') = Some (core item)) in E.
    exists item'. split; [reflexivity|]. congruence.
  - intros item' Hi. rewrite Hi in E.
    destruct (L !! (removed + i)%nat) as [item|]; [|discriminate].
    change (Some (core item') = Some (core item)) in E.
    exists item. split; [reflexivity|]. congruence.
Qed.

Lemma flush_all_inv calls removed q g (L : list Item) :
  List.map core (queue q) = drop removed (List.map core L) ->
  (removed <= length L)%nat ->
  let r := flush_all calls removed (q, g) in
  let q2 := fst (fst (fst r)) in
  let k := snd (fst r) in
  let log := snd r in
  List.map core (queue q2) = drop k (List.map core L)
  /\ (removed <= k <= length L)%nat
  /\ (forall p item, L !! p = Some item -> (removed <= p < k)%nat ->
        endpoint item <> None ->
        exists a, In a log /\ at_pos a = p /\ resolved a = true)
  /\ (forall a, In a log ->
        exists item, L !! at_pos a = Some item /\ endpoint item <> None)
  /\ (forall a, In a log -> resolved a = true -> (removed <= at_pos a < k)%nat).
Proof.
  revert removed q g. induction calls as [|c calls IH]; intros removed q g Hq Hrem.
  - cbn. repeat split; try lia; try assumption; intros; try lia; contradiction.
  - cbn [flush_all]. cbn zeta. cbn [fst snd].
    pose proof (flush_takes_prefix (fc_force c) (fc_env c) (fc_replies c) q g) as H1.
    cbn zeta in H1.
    set (r1 := flush (fc_force c) (fc_env c) (fc_replies c) (q, g)) in *.
    set (k1 := (length (queue q) - length (queue (fst (fst r1))))%nat) in *.
    destruct H1 as (Hcore1 & Hk1 & Hcov1 & Hat1 & Hres1 & _).
    assert (Hlenq : length (queue q) = (length L - removed)%nat).
    { rewrite <- (length_map core (queue q)), Hq, length_drop, length_map.
      reflexivity. }
    assert (Hq' : List.map core (queue (fst (fst r1))) =
                  drop (removed + k1) (List.map core L)).
    { rewrite Hcore1, Hq. apply drop_drop. }
    specialize (IH (removed + k1)%nat (fst (fst r1)) (snd (fst r1)) Hq').
    cbn zeta in IH. destruct IH as (Hcore & Hk & Hcov & Hat & Hres); [lia|].
    split; [exact Hcore|]. split; [lia|]. split.
    { intros p item Hp Hrange Hne.
      destruct (Nat.lt_ge_cases p (removed + k1)) as [Hlt|Hge].
      - destruct (proj1 (lookup_behind (queue q) L removed (p - removed) Hq) item)
          as (item' & Hi' & Hc).
        { replace (removed + (p - removed))%nat with p by lia. exact Hp. }
        destruct (Hcov1 (p - removed)%nat item' Hi') as (a & Ha & Hpa & Hr);
          [lia | now rewrite (endpoint_core _ _ Hc) |].
        exists (shift removed a). split.
        + apply in_or_app. left. now apply in_map.
        + split; [cbn; lia | exact Hr].
      - destruct (Hcov p item Hp) as (a & Ha & Hpa & Hr); [lia | exact Hne |].
        exists a. split; [apply in_or_app; now right | now split]. }
    split.
    { intros a Ha. apply in_app_or in Ha as [Ha|Ha]; [|now apply Hat].
      apply in_map_iff in Ha as (a1 & <- & Ha1).
      destruct (Hat1 a1 Ha1) as (item' & Hi' & Hne).
      destruct (proj2 (lookup_behind (queue q) L removed (at_pos a1) Hq) item' Hi')
        as (item & Hi & Hc).
      exists item. split; [exact Hi|]. now rewrite (endpoint_core _ _ Hc). }
    { intros a Ha Hr. apply in_app_or in Ha as [Ha|Ha].
      - apply in_map_iff in Ha as (a1 & <- & Ha1).
        rewrite resolved_shift in Hr. specialize (Hres1 a1 Ha1 Hr). cbn. lia.
      - specialize (Hres a Ha Hr). lia. }
Qed.

Lemma pending_from_drop log k items :
  forall p0,
    (forall p, (p0 <= p < k)%nat -> (p < p0 + length items)%nat ->
               succeeded log p = true) ->
    (forall p, (k <= p)%nat -> succeeded log p = false) ->
    pending_from log p0 items = drop (k - p0) items.
Proof.
  induction items as [|item rest IH]; intros p0 Hlo Hhi; [now rewrite drop_nil|].
  cbn [pending_from]. destruct (Nat.lt_ge_cases p0 k) as [Hlt|Hge].
  - rewrite Hlo by (cbn [length]; lia).
    replace (k - p0)%nat with (S (k - S p0)) by lia. cbn [drop].
    apply IH; [|exact Hhi]. intros p Hp Hlen. apply Hlo; cbn [length]; lia.
  - rewrite (Hhi p0 Hge). replace (k - p0)%nat with 0%nat by lia. cbn [drop].
    f_equal. rewrite (IH (S p0)); [|intros; lia | exact Hhi].
    replace (k - S p0)%nat with 0%nat by lia. reflexivity.
Qed.

Lemma succeeded_true log p :
  succeeded log p = true <->
  exists a, In a log /\ at_pos a = p /\ resolved a = true.
Proof.
  unfold succeeded. rewrite existsb_exists. split.
  - intros (a & Ha & Hb). apply andb_true_iff in Hb as [Hp Hr].
    apply Nat.eqb_eq in Hp. now exists a.
  - intros (a & Ha & Hp & Hr). exists a. split; [exact Ha|].
    apply andb_true_iff. split; [now apply Nat.eqb_eq | exact Hr].
Qed.

(** The history of the counterexample to C1: an action of a kind the flush
    does not know is queued, then flushed on line. *)
Lemma unknown_kind_leaves_without_call :
  let q1 := enqueue_all [(env_at true 1000, unknown_input)] empty_queue in
  let r := flush_all [flush_online] 0 (q1, empty_gateway) in
  queue q1 <> [] /\ queue (fst (fst (fst r))) = [] /\ snd (fst r) = 1%nat
  /\ snd r = [].
Proof. cbn zeta. repeat split. discriminate. Qed.

(** C1, as stated, fails: after this history the queue is not the insertion
    order restricted to the items that have not yet succeeded. The item at
    position 0 has left the queue, and no remote call of it has succeeded;
    none was made. *)
Lemma fifo_removal_without_success :
  let q1 := enqueue_all [(env_at true 1000, unknown_input)] empty_queue in
  let r := flush_all [flush_online] 0 (q1, empty_gateway) in
  let q2 := fst (fst (fst r)) in
  let k := snd (fst r) in
  List.map core (queue q2) <> List.map core (pending (snd r) (queue q1))
  /\ exists p item,
       queue q1 !! p = Some item /\ (p < k)%nat /\
       ~ exists a, In a (snd r) /\ at_pos a = p /\ resolved a = true.
Proof.
  cbn zeta. split; [discriminate|].
  exists 0%nat. eexists. split; [reflexivity|]. split; [cbn; lia|].
  intros (a & Ha & _). exact Ha.
Qed.

(** C1, amended: for every sequence of [enqueue] calls followed by any number
    of flushes with arbitrary outcomes of the remote calls, the queue is the
    list of the items in insertion order without a prefix: [enqueue] appends
    at the tail, a flush removes from the head only. Every item removed that
    has one of the four known kinds was removed after its remote call
    succeeded, and no item whose call succeeded stays; an item of another
    kind has no remote call at all (it leaves as soon as a flush reaches
    it). So, when every queued item has a known kind, the queue is the
    insertion order restricted to the items that have not yet succeeded. An
    item that stays may carry the [error] and [failedAt] of a failed attempt;
    items are compared by id, type, payload and creation time. *)
Theorem fifo_under_partial_failure q0 g0 inputs calls :
  let q1 := enqueue_all inputs q0 in
  let r := flush_all calls 0 (q1, g0) in
  let q2 := fst (fst (fst r)) in
  let k := snd (fst r) in
  let log := snd r in
  queue q1 = queue q0 ++ List.map (fun c => new_entry (fst c) (snd c)) inputs
  /\ List.map core (queue q2) = drop k (List.map core (queue q1))
  /\ (k <= length (queue q1))%nat
  /\ (forall p item, queue q1 !! p = Some item -> (p < k)%nat ->
        endpoint item <> None ->
        exists a, In a log /\ at_pos a = p /\ resolved a = true)
  /\ (forall p item, queue q1 !! p = Some item -> endpoint item = None ->
        forall a, In a log -> at_pos a <> p)
  /\ (forall a, In a log -> resolved a = true -> (at_pos a < k)%nat)
  /\ (Forall (fun item => endpoint item <> None) (queue q1) ->
        List.map core (queue q2) = List.map core (pending log (queue q1))).
Proof.
  cbn zeta. split; [apply enqueue_all_appends|].
  pose proof (flush_all_inv calls 0 (enqueue_all inputs q0) g0
                (queue (enqueue_all inputs q0)) eq_refl (Nat.le_0_l _)) as H.
  cbn zeta in H. destruct H as (Hcore & Hk & Hcov & Hat & Hres).
  split; [exact Hcore|]. split; [lia|]. split.
  { intros p item Hp Hlt Hne. apply (Hcov p item Hp); [lia | exact Hne]. }
  split.
  { intros p item Hp Hnone a Ha Heq. destruct (Hat a Ha) as (item' & Hi' & Hne).
    rewrite Heq, Hp in Hi'. injection Hi' as <-. contradiction. }
  split.
  { intros a Ha Hr. now apply Hres. }
  intros Hknown. rewrite Hcore, skipn_map. f_equal. unfold pending.
  rewrite (pending_from_drop _ (snd (fst (flush_all calls 0
             (enqueue_all inputs q0, g0))))); [now rewrite Nat.sub_0_r | |].
  - intros p Hp Hlen. apply succeeded_true.
    destruct (lookup_lt_is_Some_2 (queue (enqueue_all inputs q0)) p) as [item Hi];
      [lia|].
    apply (Hcov p item Hi); [lia|].
    rewrite Forall_forall in Hknown. apply Hknown.
    eapply list_elem_of_lookup_2. exact Hi.
  - intros p Hp. destruct (succeeded _ p) eqn:E; [|reflexivity].
    apply succeeded_true in E as (a & Ha & Hpa & Hr).
    specialize (Hres a Ha Hr). lia.
Qed.

Lemma fifo_under_partial_failure_witness :
  let r1 := flush_all (take 1 two_flushes) 0 (three_queued, empty_gateway) in
  let r2 := flush_all two_flushes 0 (three_queued, empty_gateway) in
  List.map item_id (queue three_queued) = ["r1"; "q1"; "r2"]
  /\ List.map core (queue (fst (fst (fst r1)))) =
     drop 2 (List.map core (queue three_queued))
  /\ List.map core (queue (fst (fst (fst r2)))) =
     drop 3 (List.map core (queue three_queued))
  /\ (exists a, In a (snd r2) /\ at_pos a = 2%nat /\ resolved a = true)
  /\ (forall a, In a (snd r2) -> at_pos a <> 1%nat).
Proof.
  cbn zeta.
  destruct (fifo_under_partial_failure empty_queue empty_gateway three_inputs
              (take 1 two_flushes)) as (E1 & C1 & _).
  destruct (fifo_under_partial_failure empty_queue empty_gateway three_inputs
              two_flushes) as (_ & C2 & _ & Hcov & Hnone & _ & _).
  split; [unfold three_queued; rewrite E1; reflexivity|].
  split; [exact C1|]. split; [exact C2|]. split.
  - apply (Hcov 2%nat (new_entry (env_at false 1200) (report_input "r2")));
      [reflexivity | cbn; lia | discriminate].
  - apply (Hnone 1%nat (new_entry (env_at false 1100) unknown_input));
      reflexivity.
Defined.

(** ** Retry queue: a flush that fails *)

Lemma flush_log_thrown force env replies q g a err :
  In a (snd (flush force env replies (q, g))) ->
  at_outcome a = Thrown err ->
  exists q1 item,
    flush_enter force env q = inr q1 /\ queue q1 = queue q /\
    loop_exit (flush_loop (queue q) 0 env replies g) = Failed (at_pos a) item err /\
    queue q !! at_pos a = Some item /\ endpoint item <> None /\
    loop_env (flush_loop (queue q) 0 env replies g) = snd (replies (at_pos a)).
Proof.
  rewrite flush_unfold.
  destruct (flush_enter force env q) as [q1|q1] eqn:Hent; [intros []|].
  destruct (flush_enter_inr _ _ _ _ Hent) as (_ & _ & _ & E).
  assert (Hq : queue q1 = queue q) by (rewrite E; destruct force; reflexivity).
  cbn zeta. cbn [snd]. rewrite Hq. intros Ha Hthrown.
  pose proof (flush_loop_inv (queue q) 0 env replies g) as [_ Hexit].
  cbn zeta in Hexit.
  destruct (loop_exit (flush_loop (queue q) 0 env replies g)) as [|j item e'].
  - destruct Hexit as [Hall _]. specialize (Hall a Ha).
    unfold resolved in Hall. rewrite Hthrown in Hall. discriminate.
  - destruct Hexit as (_ & Hit & Hne & Henv & _ & Hall & _).
    destruct (Hall a Ha) as (Hle & Hlt & Heq).
    assert (Hj : at_pos a = j).
    { destruct (Nat.eq_dec (at_pos a) j) as [E'|E']; [exact E'|].
      assert (Hr : resolved a = true) by (apply Hlt; lia).
      unfold resolved in Hr. rewrite Hthrown in Hr. discriminate. }
    specialize (Heq Hj). rewrite Hthrown in Heq. injection Heq as ->.
    rewrite Nat.sub_0_r in Hit. subst j.
    exists q1, item. repeat split; assumption.
Qed.

(** C2, as stated, fails: the server refuses the first report with the body
    [{"error": []}], whose message is empty; the failure is not a network
    one, and the item at the head is annotated with ["Failed"], not with the
    message of the failure. *)
Lemma flush_annotation_is_not_always_the_message :
  let r := flush false (env_at true 2000) (refuse_at 0 (VObj [("error", VArr [])]) 2500)
             (three_queued, empty_gateway) in
  exists a err head rest,
    In a (snd r) /\ at_outcome a = Thrown err /\
    isNetworkError (snd (refuse_at 0 (VObj [("error", VArr [])]) 2500 (at_pos a))) err
      = false /\
    queue (fst (fst r)) = head :: rest /\
    item_error head <> Some (err_message err).
Proof.
  cbn zeta. do 4 eexists. split; [left; reflexivity|].
  split; [reflexivity|]. split; [reflexivity|]. split; [reflexivity|].
  discriminate.
Qed.

(** C2, amended: when a flush fails on the item at position [i] (its remote
    call throws), processing stops: that call is the last one of the flush,
    so no item after position [i] is dispatched. The new queue, which is also
    the persisted one, is the former items from position [i] on, in order. If
    the failure is a network error the item at its head is left as it was;
    otherwise it is that item with [error] set to the message of the failure,
    or to ["Failed"] when the failure carries no message, and [failedAt] set
    to the current time. *)
Theorem flush_failure_postcondition force env replies q g a err :
  let r := flush force env replies (q, g) in
  let q' := fst (fst r) in
  let log := snd r in
  let i := at_pos a in
  let env' := snd (replies i) in
  In a log -> at_outcome a = Thrown err ->
  exists item,
    queue q !! i = Some item
    /\ (exists b, last log = Some b /\ at_pos b = i /\ at_outcome b = Thrown err)
    /\ (forall b, In b log -> (at_pos b <= i)%nat)
    /\ stored q' = queue q'
    /\ _flushing q' = false
    /\ (isNetworkError env' err = true -> queue q' = item :: drop (S i) (queue q))
    /\ (isNetworkError env' err = false ->
          queue q' =
          {| item_id := item_id item; item_type := item_type item;
             item_payload := item_payload item;
             item_createdAt := item_createdAt item;
             item_error := Some (if String.eqb (err_message err) "" then "Failed"
                                 else err_message err);
             item_failedAt := Some (now_iso env') |}
          :: drop (S i) (queue q)).
Proof.
  cbn zeta. intros Ha Hthrown.
  destruct (flush_log_thrown _ _ _ _ _ _ _ Ha Hthrown)
    as (q1 & item & Hent & Hq & Hexit & Hit & _ & Henv).
  pose proof (flush_loop_inv (queue q) 0 env replies g) as [_ Hinv].
  cbn zeta in Hinv. rewrite Hexit in Hinv.
  destruct Hinv as (_ & _ & _ & _ & Hlast & Hall & _).
  rewrite flush_unfold, Hent in *. cbn zeta in *. cbn [fst snd] in *.
  rewrite Hq in *.
  set (r := flush_loop (queue q) 0 env replies g) in *.
  destruct (finish_fields (fst (kept r (queue q))) (snd (kept r (queue q)))
              (loop_env r) q1) as (Hfq & Hfs & Hff & _).
  rewrite Hfq, Hfs, Hff. unfold kept. rewrite Hexit, Henv.
  destruct (on_failure_kept (at_pos a) item err (snd (replies (at_pos a)))
              (queue q) Hit) as [Hk _].
  rewrite Hk. exists item. split; [exact Hit|]. split; [exact Hlast|].
  split; [intros b Hb; now destruct (Hall b Hb)|].
  split; [reflexivity|]. split; [reflexivity|]. split.
  - intros ->. reflexivity.
  - intros ->. reflexivity.
Qed.

Lemma flush_failure_postcondition_witness :
  let logical := flush false (env_at true 2000)
                   (refuse_at 2 (VObj [("error", VStr "Duplicate report")]) 2500)
                   (three_queued, empty_gateway) in
  let network := flush false (env_at true 2000) (drop_at 2 false 2500)
                   (three_queued, empty_gateway) in
  List.map item_error (queue (fst (fst logical))) = [Some "Duplicate report"]
  /\ List.map item_id (queue (fst (fst logical))) = ["r2"]
  /\ List.map item_error (queue (fst (fst network))) = [None]
  /\ List.map at_pos (snd network) = [0%nat; 2%nat].
Proof.
  cbn zeta.
  destruct (flush_failure_postcondition false (env_at true 2000)
              (refuse_at 2 (VObj [("error", VStr "Duplicate report")]) 2500)
              three_queued empty_gateway
              {| at_pos := 2;
                 at_request := api_request "/reports" "POST"
                   (VObj [("title", VStr "Overflowing bin")]) (env_at true 2500)
                   (setLastSync "2500" (set_lastFromCache false empty_gateway));
                 at_outcome := Thrown (Error (VStr "Duplicate report")) |}
              (Error (VStr "Duplicate report")))
    as (item & Hit & _ & _ & _ & _ & _ & Hlogical);
    [right; left; reflexivity | reflexivity |].
  destruct (flush_failure_postcondition false (env_at true 2000)
              (drop_at 2 false 2500) three_queued empty_gateway
              {| at_pos := 2;
                 at_request := api_request "/reports" "POST"
                   (VObj [("title", VStr "Overflowing bin")]) (env_at true 2500)
                   (setLastSync "2500" (set_lastFromCache false empty_gateway));
                 at_outcome := Thrown {| err_name := "TypeError";
                                         err_message := "Failed to fetch" |} |}
              {| err_name := "TypeError"; err_message := "Failed to fetch" |})
    as (item' & Hit' & _ & _ & _ & _ & Hnetwork & _);
    [right; left; reflexivity | reflexivity |].
  rewrite (Hlogical eq_refl), (Hnetwork eq_refl).
  injection Hit as <-. injection Hit' as <-.
  repeat split.
Defined.

(** ** Retry queue: items of an unknown kind *)

Lemma flush_entered (force : bool) env replies q g :
  _flushing q = false -> onLine env = true -> queue q <> [] ->
  let r := flush_loop (queue q) 0 env replies g in
  let q1 := set_flushing true
              (if force then clearSchedule (set_retryCount 0 q) else q) in
  flush force env replies (q, g) =
  (finish (fst (kept r (queue q))) (snd (kept r (queue q))) (loop_env r) q1,
   loop_gateway r, loop_log r).
Proof.
  intros Hfl Hon Hq. cbn zeta.
  rewrite flush_unfold, (flush_enter_enters force env q Hfl Hon Hq). cbn zeta.
  assert (E : queue (set_flushing true
                (if force then clearSchedule (set_retryCount 0 q) else q)) = queue q)
    by (destruct force; reflexivity).
  now rewrite E.
Qed.

(** C10: during a flush, a queue item whose type is none of [report.create],
    [vendor.complete], [admin.assign] and [admin.status] has no endpoint: the
    flush issues no remote call for it: its loop passes over the item
    without awaiting anything and goes on with the next one, as it does after
    a call that succeeded. Once the flush reaches it, that is unless a call
    for an earlier item fails, it is removed from the queue with the items
    whose calls succeeded; it stays only behind an earlier item that
    failed. *)
Theorem unknown_kind_items_vanish force env replies q g p u :
  _flushing q = false -> onLine env = true ->
  queue q !! p = Some u ->
  item_type u <> "report.create" -> item_type u <> "vendor.complete" ->
  item_type u <> "admin.assign" -> item_type u <> "admin.status" ->
  let r := flush force env replies (q, g) in
  let q' := fst (fst r) in
  let log := snd r in
  endpoint u = None
  /\ (forall rest i env0 g0,
        flush_loop (u :: rest) i env0 replies g0 =
        flush_loop rest (S i) env0 replies g0)
  /\ (forall a, In a log -> at_pos a <> p)
  /\ ((forall a, In a log -> (at_pos a < p)%nat -> resolved a = true) ->
        exists k, (p < k)%nat /\
                  List.map core (queue q') = drop k (List.map core (queue q)))
  /\ (forall a err, In a log -> at_outcome a = Thrown err -> (at_pos a < p)%nat ->
        queue q' !! (p - at_pos a)%nat = Some u).
Proof.
  intros Hfl Hon Hp H1 H2 H3 H4. cbn zeta.
  assert (Hu : endpoint u = None).
  { destruct (endpoint u) eqn:E; [|reflexivity].
    assert (Hne : endpoint u <> None) by congruence.
    apply endpoint_known in Hne. intuition congruence. }
  assert (Hq : queue q <> []) by (intros E; rewrite E in Hp; discriminate).
  pose proof (flush_takes_prefix force env replies q g) as Hpre. cbn zeta in Hpre.
  destruct Hpre as (Hcore & _ & _ & Hat & _).
  split; [exact Hu|]. split.
  { intros rest i env0 g0. cbn [flush_loop]. now rewrite Hu. }
  split.
  { intros a Ha Heq. destruct (Hat a Ha) as (item & Hi & Hne).
    rewrite Heq, Hp in Hi. injection Hi as <-. contradiction. }
  split.
  - intros Hbefore. eexists. split; [|exact Hcore].
    rewrite (flush_entered force env replies q g Hfl Hon Hq) in *.
    cbn [fst snd] in *.
    set (r := flush_loop (queue q) 0 env replies g) in *.
    match goal with |- context [finish ?a ?b ?c ?d] =>
      destruct (finish_fields a b c d) as (Hfq & _) end.
    rewrite Hfq.
    pose proof (flush_loop_inv (queue q) 0 env replies g) as [_ Hinv].
    cbn zeta in Hinv. fold r in Hinv. unfold kept.
    pose proof (lookup_lt_length _ _ _ Hp) as Hlt.
    destruct (loop_exit r) as [|j item err].
    + cbn [fst length]. lia.
    + destruct Hinv as (_ & Hit & Hne & _ & (al & Hlast & Hpos & Hout) & _).
      rewrite Nat.sub_0_r in Hit.
      destruct (on_failure_kept j item err (loop_env r) (queue q) Hit) as [Hk _].
      rewrite Hk. cbn [length]. rewrite length_drop.
      pose proof (lookup_lt_length _ _ _ Hit) as Hj.
      assert (Hal : In al (loop_log r)).
      { apply list_elem_of_In. apply last_Some_elem_of. exact Hlast. }
      destruct (Nat.lt_trichotomy j p) as [Hjp|[Hjp|Hjp]]; [| |lia].
      * assert (Hr : resolved al = true) by (apply Hbefore; [exact Hal | lia]).
        unfold resolved in Hr. rewrite Hout in Hr. discriminate.
      * assert (item = u) by congruence. subst item. contradiction.
  - intros a err Ha Hthrown Hlt.
    destruct (flush_log_thrown _ _ _ _ _ _ _ Ha Hthrown)
      as (q1 & item & Hent & _ & Hexit & Hit & _ & _).
    rewrite (flush_entered force env replies q g Hfl Hon Hq). cbn [fst snd].
    match goal with |- context [finish ?a ?b ?c ?d] =>
      destruct (finish_fields a b c d) as (Hfq & _) end.
    rewrite Hfq. unfold kept. rewrite Hexit.
    match goal with |- context [on_failure _ _ _ ?e _] =>
      destruct (on_failure_kept (at_pos a) item err e (queue q) Hit) as [Hk _] end.
    rewrite Hk.
    replace (p - at_pos a)%nat with (S (p - S (at_pos a))) by lia.
    rewrite lookup_cons, lookup_drop.
    replace (S (at_pos a) + (p - S (at_pos a)))%nat with p by lia. exact Hp.
Qed.

Lemma unknown_kind_items_vanish_witness :
  let r := flush false (env_at true 2000) (accept_all 2500)
             (three_queued, empty_gateway) in
  List.map at_pos (snd r) = [0%nat; 2%nat]
  /\ (forall a, In a (snd r) -> at_pos a <> 1%nat)
  /\ exists k, (1 < k)%nat /\
       List.map core (queue (fst (fst r))) = drop k (List.map core (queue three_queued)).
Proof.
  cbn zeta.
  destruct (unknown_kind_items_vanish false (env_at true 2000) (accept_all 2500)
              three_queued empty_gateway 1
              {| item_id := "q1"; item_type := "report.delete";
                 item_payload := VObj []; item_createdAt := "1100";
                 item_error := None; item_failedAt := None |})
    as (_ & _ & Hno & Hgone & _);
    try reflexivity; try discriminate.
  split; [reflexivity|]. split; [exact Hno|].
  apply Hgone. intros a [<-|[<-|[]]] _; reflexivity.
Defined.

(** ** The event loop: mutual exclusion of flushes *)

Lemma finish_timer remaining failedNet env q :
  remaining <> [] ->
  if onLine env && failedNet
  then _timer (finish remaining failedNet env q) <> None
  else _timer (finish remaining failedNet env q) = _timer q.
Proof.
  intros Hne. unfold finish. cbn. destruct remaining as [|x rest]; [contradiction|].
  destruct (onLine env && failedNet); [|reflexivity].
  unfold scheduleFlush. cbn. destruct (_timer q) eqn:Ht; cbn; rewrite ?Ht; discriminate.
Qed.

Lemma next_await_index items i env g fr :
  next_await items i env g = Some fr ->
  (i <= fr_index fr)%nat /\ items !! (fr_index fr - i)%nat = Some (fr_item fr)
  /\ endpoint (fr_item fr) = Some (fr_path fr) /\ fr_env fr = env.
Proof.
  revert i. induction items as [|item rest IH]; intros i; cbn; [discriminate|].
  destruct (endpoint item) as [path|] eqn:Hep.
  - intros [= <-]. cbn. rewrite Nat.sub_diag. repeat split; [lia | exact Hep].
  - intros H. destruct (IH (S i) H) as (Hle & Hit & Hpath & Henv).
    split; [lia|]. replace (fr_index fr - i)%nat with (S (fr_index fr - S i)) by lia.
    repeat split; assumption.
Qed.

Lemma run_loop_exclusive i env m :
  m_suspended m = [] -> _flushing (m_queue m) = true ->
  exclusive (run_loop i env m)
  /\ (_retryCount (m_queue m) <= 6 -> _retryCount (m_queue (run_loop i env m)) <= 6)%nat.
Proof.
  intros Hs Hf. unfold run_loop, exclusive.
  destruct (next_await _ _ _ _) as [fr|].
  - cbn. rewrite Hs, Hf. split; [reflexivity | tauto].
  - cbn [with_queue m_suspended m_queue].
    destruct (finish_fields [] false env (m_queue m)) as (_ & _ & -> & ->).
    rewrite Hs. split; [reflexivity | lia].
Qed.

Lemma finish_retryCount_le remaining failedNet env q :
  (_retryCount q <= 6 -> _retryCount (finish remaining failedNet env q) <= 6)%nat.
Proof.
  destruct (finish_fields remaining failedNet env q) as (_ & _ & _ & ->).
  destruct remaining; [lia|]. destruct (onLine env && failedNet); lia.
Qed.

Lemma flush_enter_retryCount_le force env q :
  (_retryCount q <= 6)%nat ->
  match flush_enter force env q with
  | inl q1 | inr q1 => (_retryCount q1 <= 6)%nat
  end.
Proof.
  intros Hle. destruct (flush_enter force env q) as [q1|q1] eqn:Hent.
  - destruct (flush_enter_inl _ _ _ _ Hent) as (_ & _ & _ & Hsame & Hrc).
    destruct (_flushing q); [now rewrite Hsame|].
    rewrite Hrc by reflexivity. destruct force; lia.
  - destruct (flush_enter_inr _ _ _ _ Hent) as (_ & _ & _ & ->).
    destruct force; cbn; lia.
Qed.

Lemma call_flush_exclusive force env m :
  exclusive m ->
  exclusive (call_flush force env m)
  /\ (_retryCount (m_queue m) <= 6 ->
      _retryCount (m_queue (call_flush force env m)) <= 6)%nat.
Proof.
  intros Hex. unfold call_flush.
  pose proof (flush_enter_retryCount_le force env (m_queue m)) as Hrc.
  destruct (flush_enter force env (m_queue m)) as [q1|q1] eqn:Hent.
  - destruct (flush_enter_inl _ _ _ _ Hent) as (_ & _ & Hfl & _).
    split; [|exact Hrc]. unfold exclusive in *. cbn. now rewrite Hfl.
  - destruct (flush_enter_inr _ _ _ _ Hent) as (Hfl & _ & _ & E).
    unfold exclusive in Hex. rewrite Hfl in Hex.
    destruct (run_loop_exclusive 0 env (with_queue q1 m)) as [H1 H2].
    + cbn. now apply length_zero_iff_nil.
    + cbn. rewrite E. reflexivity.
    + split; [exact H1|]. intros Hle. apply H2. cbn. now apply Hrc.
Qed.

Lemma step_exclusive m ev :
  exclusive m ->
  exclusive (step m ev)
  /\ (_retryCount (m_queue m) <= 6 -> _retryCount (m_queue (step m ev)) <= 6)%nat.
Proof.
  intros Hex. destruct ev as [force env | k reply | env item | env]; cbn [step].
  - now apply call_flush_exclusive.
  - destruct (m_suspended m !! k) as [fr|] eqn:Hk; [|split; [exact Hex | tauto]].
    assert (Hfl : _flushing (m_queue m) = true).
    { unfold exclusive in Hex. destruct (_flushing (m_queue m)); [reflexivity|].
      apply length_zero_iff_nil in Hex. rewrite Hex in Hk. discriminate. }
    assert (Hdel : delete k (m_suspended m) = []).
    { unfold exclusive in Hex. rewrite Hfl in Hex.
      destruct (m_suspended m) as [|x [|y l]]; try discriminate.
      destruct k; [reflexivity | discriminate]. }
    rewrite Hdel. unfold settle. cbn zeta. cbn [m_queue m_gateway m_suspended m_log].
    destruct (snd (api _ _ _ _ _ _ _)) as [d|err].
    + match goal with |- exclusive (run_loop ?i ?e ?m1) /\ _ =>
        destruct (run_loop_exclusive i e m1 eq_refl Hfl) as [A B] end.
      split; [exact A | exact B].
    + cbn [with_queue]. unfold exclusive. cbn [m_suspended m_queue].
      match goal with |- context [finish ?a ?b ?c ?d] =>
        destruct (finish_fields a b c d) as (_ & _ & Hff & _);
        pose proof (finish_retryCount_le a b c d) as Hrc end.
      cbn [with_queue m_suspended m_queue]. rewrite Hff.
      split; [reflexivity | exact Hrc].
  - destruct (enqueue_appends env item (m_queue m)) as (_ & _ & Hrc & Hfl & _).
    unfold exclusive in *. cbn [with_queue m_suspended m_queue].
    rewrite Hfl, Hrc. split; [exact Hex | tauto].
  - destruct (_timer (m_queue m)); [|split; [exact Hex | tauto]].
    destruct (call_flush_exclusive false env
                (with_queue (set_timer None (m_queue m)) m) Hex) as [A B].
    split; [exact A | exact B].
Qed.

Lemma run_exclusive m evs :
  exclusive m -> (_retryCount (m_queue m) <= 6)%nat ->
  exclusive (run m evs) /\ (_retryCount (m_queue (run m evs)) <= 6)%nat.
Proof.
  revert m. induction evs as [|ev evs IH]; intros m Hex Hrc; [now split|].
  cbn [run fold_left]. destruct (step_exclusive m ev Hex) as [H1 H2].
  apply IH; [exact H1 | now apply H2].
Qed.

Lemma with_queue_same m : with_queue (m_queue m) m = m.
Proof. now destruct m. Qed.

Lemma call_flush_dropped force env m :
  _flushing (m_queue m) = true -> call_flush force env m = m.
Proof.
  intros Hfl. unfold call_flush, flush_enter. rewrite Hfl. apply with_queue_same.
Qed.

(** C8, as stated, fails in its last part: a flush is in progress, a forced
    request arrives and is dropped, then the flush in progress ends on a
    refusal of the server. An item remains and no timer is armed: nothing
    re-triggers a flush. *)
Lemma ended_flush_schedules_nothing :
  let m1 := run (boot [persisted_report] empty_gateway)
              [CallFlush false (env_at true 1000)] in
  let m2 := step m1 (CallFlush true (env_at true 1100)) in
  let m3 := step m2 (Settles 0 refused) in
  _flushing (m_queue m1) = true /\ m2 = m1
  /\ m_suspended m3 = [] /\ _flushing (m_queue m3) = false
  /\ queue (m_queue m3) <> [] /\ _timer (m_queue m3) = None.
Proof. cbn zeta. repeat split. discriminate. Qed.

(** C8, amended: at most one flush is ever active: over any run of the page
    at most one activation of [flush] is suspended, and [_flushing] is set
    exactly then. A call of [flush], forced or not, made while the guard is
    set returns at once and changes nothing: not the queue, nor the retry
    counter, nor the armed timer. When the flush in progress ends with items
    remaining, its last call has thrown; it arms the retry timer itself
    (unless one is armed already) only if that failure was a network error
    and the device is on line, and otherwise leaves the timer as it was. *)
Theorem flush_mutual_exclusion :
  (forall persisted g evs,
      let m := run (boot persisted g) evs in
      (length (m_suspended m) <= 1)%nat
      /\ (_flushing (m_queue m) = true <-> length (m_suspended m) = 1%nat))
  /\ (forall m force env,
        _flushing (m_queue m) = true -> step m (CallFlush force env) = m)
  /\ (forall force env replies q g,
        _flushing q = true -> flush force env replies (q, g) = (q, g, []))
  /\ (forall m fr reply,
        m_suspended m = [fr] ->
        let m' := step m (Settles 0 reply) in
        m_suspended m' = [] -> queue (m_queue m') <> [] ->
        exists err,
          snd (api (fr_path fr) "POST" (item_payload (fr_item fr)) no_options
                 (fr_env fr) reply (m_gateway m)) = Thrown err
          /\ if onLine (snd reply) && isNetworkError (snd reply) err
             then _timer (m_queue m') <> None
             else _timer (m_queue m') = _timer (m_queue m)).
Proof.
  split.
  { intros persisted g evs. cbn zeta.
    destruct (run_exclusive (boot persisted g) evs) as [Hex _];
      [reflexivity | cbn; lia |].
    unfold exclusive in Hex. rewrite Hex.
    destruct (_flushing (m_queue (run (boot persisted g) evs))).
    - split; [lia | tauto].
    - split; [lia|]. split; [discriminate | lia]. }
  split.
  { intros m force env Hfl. now apply call_flush_dropped. }
  split.
  { intros force env replies q g Hfl. unfold flush, flush_enter. cbn [fst snd].
    now rewrite Hfl. }
  intros m fr reply Hs. cbn zeta. cbn [step]. rewrite Hs.
  cbn [lookup list_lookup delete list_delete]. unfold settle. cbn zeta.
  cbn [m_queue m_gateway m_suspended m_log].
  destruct (snd (api _ _ _ _ _ _ _)) as [d|err].
  - unfold run_loop. cbn [m_queue m_gateway m_suspended m_log].
    destruct (next_await _ _ _ _) as [fr'|].
    + cbn. discriminate.
    + cbn [with_queue m_queue m_suspended]. intros _ Hq.
      destruct (finish_fields [] false (snd reply) (m_queue m)) as (E & _).
      rewrite E in Hq. contradiction.
  - cbn [with_queue m_queue m_suspended]. intros _ Hq.
    exists err. split; [reflexivity|].
    match goal with |- context [finish ?a ?b ?c ?d] =>
      destruct (finish_fields a b c d) as (E & _);
      pose proof (finish_timer a b c d) as Ht end.
    rewrite E in Hq. specialize (Ht Hq).
    unfold on_failure in Ht at 2. cbn [snd] in Ht. exact Ht.
Qed.

Lemma flush_mutual_exclusion_witness :
  let m1 := run (boot [persisted_report] empty_gateway)
              [CallFlush false (env_at true 1000)] in
  let m3 := step m1 (Settles 0 (drop_at 0 true 1500 0)) in
  step m1 (CallFlush true (env_at true 1100)) = m1
  /\ (exists ms, _timer (m_queue m3) = Some ms)
  /\ queue (m_queue m3) = [persisted_report].
Proof.
  cbn zeta.
  destruct flush_mutual_exclusion as (_ & Hdrop & _ & Hend).
  split; [apply Hdrop; reflexivity|]. split; [|reflexivity].
  destruct (Hend (run (boot [persisted_report] empty_gateway)
                    [CallFlush false (env_at true 1000)])
                 {| fr_index := 0; fr_item := persisted_report; fr_path := "/reports";
                    fr_env := env_at true 1000;
                    fr_request := api_request "/reports" "POST"
                      (item_payload persisted_report) (env_at true 1000)
                      empty_gateway |}
                 (drop_at 0 true 1500 0) eq_refl eq_refl)
    as (err & Hout & Htimer); [discriminate|].
  injection Hout as <-. eexists. reflexivity.
Defined.

(** ** Retry backoff *)

Lemma flush_retryCount force env replies q g :
  let r := flush force env replies (q, g) in
  let q' := fst (fst r) in
  let base := if force && negb (_flushing q) then 0%nat else _retryCount q in
  (_retryCount q' = base \/ _retryCount q' = 0%nat
   \/ _retryCount q' = Nat.min (base + 1) 6)
  /\ (_retryCount q' <> base -> _retryCount q' <> 0%nat ->
        _retryCount q' = Nat.min (base + 1) 6
        /\ exists a err,
             last (snd r) = Some a /\ at_outcome a = Thrown err
             /\ isNetworkError (snd (replies (at_pos a))) err = true
             /\ onLine (snd (replies (at_pos a))) = true).
Proof.
  cbn zeta. rewrite flush_unfold.
  destruct (flush_enter force env q) as [q1|q1] eqn:Hent.
  - destruct (flush_enter_inl _ _ _ _ Hent) as (_ & _ & _ & Hsame & Hrc).
    cbn [fst snd]. destruct (_flushing q) eqn:Hfl.
    + rewrite Hsame by reflexivity. rewrite andb_false_r. split; [now left | congruence].
    + rewrite Hrc by reflexivity. rewrite andb_true_r.
      destruct force; split; (now left) || congruence.
  - destruct (flush_enter_inr _ _ _ _ Hent) as (Hfl & _ & _ & E).
    rewrite Hfl, andb_true_r. cbn zeta. cbn [fst snd].
    assert (Hq : queue q1 = queue q) by (rewrite E; destruct force; reflexivity).
    assert (Hb : _retryCount q1 = if force then 0%nat else _retryCount q)
      by (rewrite E; destruct force; reflexivity).
    rewrite Hq. set (r := flush_loop (queue q) 0 env replies g).
    destruct (finish_fields (fst (kept r (queue q))) (snd (kept r (queue q)))
                (loop_env r) q1) as (_ & _ & _ & Hrc).
    rewrite Hrc, Hb. clear Hrc.
    pose proof (flush_loop_inv (queue q) 0 env replies g) as [_ Hinv].
    cbn zeta in Hinv. fold r in Hinv. unfold kept.
    destruct (loop_exit r) as [|j item err].
    + cbn [fst snd]. split; [right; now left | congruence].
    + destruct Hinv as (_ & Hit & _ & Henv & (al & Hlast & Hpos & Hout) & _).
      rewrite Nat.sub_0_r in Hit.
      destruct (on_failure_kept j item err (loop_env r) (queue q) Hit) as [Hk Hn].
      rewrite Hk, Hn.
      destruct (onLine (loop_env r)) eqn:Hon;
        destruct (isNetworkError (loop_env r) err) eqn:Hnet; cbn [andb].
      * split; [right; now right|]. intros _ _. split; [reflexivity|].
        exists al, err. rewrite Hpos, <- Henv. repeat split; assumption.
      * split; [now left | congruence].
      * split; [now left | congruence].
      * split; [now left | congruence].
Qed.

(** C4: when [scheduleFlush] arms its timer with the retry counter at [n],
    the delay is [min(60000, 2000 * 2^n)] plus a jitter in [[0, 400)]: the
    exponential term is clamped before the jitter is added. [Math.random()]
    is a fraction [r / 2^53] in [[0, 1)]. The retry counter grows only at the
    end of a flush whose last call failed with a network error, the device
    being on line, and then by one and no further than 6; no other operation
    raises it, and it never exceeds 6 over a run of the page. *)
Theorem retry_backoff :
  (forall env q,
      (0 <= random env < 2 ^ 53)%Z -> _timer q = None -> queue q <> [] ->
      exists ms,
        _timer (scheduleFlush env q) = Some ms
        /\ _nextRetryAt (scheduleFlush env q) = Some (now_ms env + ms)%Z
        /\ _retryCount (scheduleFlush env q) = _retryCount q
        /\ (Z.min 60000 (2000 * 2 ^ Z.of_nat (_retryCount q)) <= ms
            < Z.min 60000 (2000 * 2 ^ Z.of_nat (_retryCount q)) + 400)%Z)
  /\ (forall force env replies q g,
        let r := flush force env replies (q, g) in
        let q' := fst (fst r) in
        let base := if force && negb (_flushing q) then 0%nat else _retryCount q in
        ((_retryCount q < _retryCount q')%nat ->
           _retryCount q' = Nat.min (base + 1) 6
           /\ exists a err,
                last (snd r) = Some a /\ at_outcome a = Thrown err
                /\ isNetworkError (snd (replies (at_pos a))) err = true)
        /\ (_retryCount q' <= Nat.max (_retryCount q) 6)%nat
        /\ (_retryCount q' <= _retryCount q + 1)%nat)
  /\ (forall env item q, _retryCount (fst (enqueue env item q)) = _retryCount q)
  /\ (forall persisted g evs,
        (_retryCount (m_queue (run (boot persisted g) evs)) <= 6)%nat).
Proof.
  split.
  { intros env q Hr Ht Hq.
    destruct (scheduleFlush_arms env q Ht Hq) as [E1 E2].
    destruct (scheduleFlush_fields env q) as (_ & _ & _ & E3 & _).
    pose proof (jitter_range env Hr) as Hj.
    exists (backoff (_retryCount q) + jitter env)%Z.
    split; [exact E1|]. split; [exact E2|]. split; [exact E3|].
    unfold backoff. lia. }
  split.
  { intros force env replies q g. cbn zeta.
    pose proof (flush_retryCount force env replies q g) as [Hcases Hinc].
    cbn zeta in Hcases, Hinc.
    set (q' := fst (fst (flush force env replies (q, g)))) in *.
    set (base := if force && negb (_flushing q) then 0%nat else _retryCount q) in *.
    assert (Hbase : (base <= _retryCount q)%nat).
    { unfold base. destruct (force && negb (_flushing q)); lia. }
    split.
    - intros Hlt. destruct Hinc as (E & a & err & Hl & Ho & Hn & _); [lia | lia |].
      split; [exact E|]. exists a, err. repeat split; assumption.
    - split; lia. }
  split.
  { intros env item q. now destruct (enqueue_appends env item q) as (_ & _ & E & _). }
  { intros persisted g evs.
    destruct (run_exclusive (boot persisted g) evs) as [_ H];
      [reflexivity | cbn; lia | exact H]. }
Qed.

Lemma retry_backoff_witness :
  let q := {| queue := [persisted_report]; stored := [persisted_report];
              _flushing := false; _retryCount := 3; _nextRetryAt := None;
              _timer := None; _lastOfflineNotice := 0; toasts := [] |} in
  let r := flush false (env_at true 1000) (drop_at 0 true 1500)
             (set_retryCount 2 q, empty_gateway) in
  _timer (scheduleFlush (env_half 5000) q) = Some 16200%Z
  /\ _nextRetryAt (scheduleFlush (env_half 5000) q) = Some 21200%Z
  /\ _retryCount (fst (fst r)) = 3%nat.
Proof.
  cbn zeta.
  destruct retry_backoff as (Harm & Hflush & _).
  destruct (Harm (env_half 5000)
              {| queue := [persisted_report]; stored := [persisted_report];
                 _flushing := false; _retryCount := 3; _nextRetryAt := None;
                 _timer := None; _lastOfflineNotice := 0; toasts := [] |})
    as (ms & Ht & Hn & _ & Hlo & Hhi);
    [split; [discriminate | reflexivity] | reflexivity | discriminate |].
  split; [reflexivity|]. split; [reflexivity|].
  destruct (Hflush false (env_at true 1000) (drop_at 0 true 1500)
              (set_retryCount 2
                 {| queue := [persisted_report]; stored := [persisted_report];
                    _flushing := false; _retryCount := 3; _nextRetryAt := None;
                    _timer := None; _lastOfflineNotice := 0; toasts := [] |})
              empty_gateway) as (Hinc & _).
  destruct Hinc as [E _]; [cbn; lia | exact E].
Defined.

(** ** The event loop runs a flush as [flush] does *)

Lemma settle_all_idle fuel replies m :
  m_suspended m = [] -> settle_all fuel replies m = m.
Proof. intros H. destruct fuel; cbn; [reflexivity|]. now rewrite H. Qed.

Lemma kept_log_attempt a r items : kept (log_attempt a r) items = kept r items.
Proof. reflexivity. Qed.

Lemma run_loop_agrees replies items :
  forall i env g log0 q fuel,
    drop i (queue q) = items -> (length items <= fuel)%nat ->
    let r := flush_loop items i env replies g in
    settle_all fuel replies
      (run_loop i env
         {| m_queue := q; m_gateway := g; m_suspended := []; m_log := log0 |})
    = {| m_queue := finish (fst (kept r (queue q))) (snd (kept r (queue q)))
                      (loop_env r) q;
         m_gateway := loop_gateway r; m_suspended := [];
         m_log := log0 ++ loop_log r |}.
Proof.
  induction items as [|item rest IH]; intros i env g log0 q fuel Hdrop Hfuel.
  - cbn zeta. unfold run_loop. cbn [m_queue m_gateway]. rewrite Hdrop.
    cbn [next_await flush_loop]. rewrite settle_all_idle by reflexivity.
    unfold kept. cbn. now rewrite app_nil_r.
  - assert (Hrest : drop (S i) (queue q) = rest).
    { rewrite <- (Nat.add_1_r i), <- drop_drop, Hdrop. reflexivity. }
    cbn zeta. cbn [flush_loop].
    destruct (endpoint item) as [path|] eqn:Hep.
    + destruct fuel as [|fuel]; [cbn in Hfuel; lia|].
      unfold run_loop at 1. cbn [m_queue m_gateway m_suspended m_log].
      rewrite Hdrop. cbn [next_await]. rewrite Hep.
      cbn [settle_all m_suspended app fr_index step lookup list_lookup
           delete list_delete m_queue m_gateway m_log].
      unfold settle. cbn zeta.
      cbn [fr_path fr_item fr_env fr_index fr_request m_queue m_gateway
           m_suspended m_log].
      set (res := api path "POST" (item_payload item) no_options env (replies i) g).
      destruct (snd res) as [d|err] eqn:Hres.
      * specialize (IH (S i) (snd (replies i)) (fst res)
                       (log0 ++ [{| at_pos := i;
                                    at_request := api_request path "POST"
                                                    (item_payload item) env g;
                                    at_outcome := Resolved d |}])
                       q fuel Hrest).
        cbn zeta in IH. rewrite IH by (cbn in Hfuel; lia).
        rewrite kept_log_attempt. cbn [log_attempt loop_env loop_gateway loop_log].
        now rewrite <- app_assoc.
      * rewrite settle_all_idle by reflexivity.
        unfold kept. cbn [loop_exit loop_env loop_gateway loop_log with_queue
                          m_queue m_gateway m_suspended m_log].
        now destruct (on_failure i item err (snd (replies i)) (queue q)).
    + assert (Hskip : run_loop i env
                 {| m_queue := q; m_gateway := g; m_suspended := []; m_log := log0 |}
               = run_loop (S i) env
                 {| m_queue := q; m_gateway := g; m_suspended := []; m_log := log0 |}).
      { unfold run_loop. cbn [m_queue m_gateway]. rewrite Hdrop, Hrest.
        cbn [next_await]. now rewrite Hep. }
      rewrite Hskip. apply (IH (S i) env g log0 q fuel Hrest).
      cbn in Hfuel. lia.
Qed.

(** X27: a flush run by the event loop with nothing scheduled in between
    (the call, then each awaited reply in turn) ends in the state, and with
    the calls, of [flush]. *)
Lemma machine_runs_flush force env replies q g log0 :
  let m := {| m_queue := q; m_gateway := g; m_suspended := []; m_log := log0 |} in
  let r := flush force env replies (q, g) in
  settle_all (length (queue q)) replies (step m (CallFlush force env))
  = {| m_queue := fst (fst r); m_gateway := snd (fst r); m_suspended := [];
       m_log := log0 ++ snd r |}.
Proof.
  cbn zeta. cbn [step]. unfold call_flush. cbn [m_queue]. rewrite flush_unfold.
  destruct (flush_enter force env q) as [q1|q1] eqn:Hent.
  - rewrite settle_all_idle by reflexivity. cbn. now rewrite app_nil_r.
  - destruct (flush_enter_inr _ _ _ _ Hent) as (_ & _ & _ & E).
    assert (Hq : queue q1 = queue q) by (rewrite E; destruct force; reflexivity).
    cbn zeta. cbn [fst snd with_queue m_gateway m_suspended m_log].
    rewrite <- Hq.
    apply (run_loop_agrees replies (queue q1) 0 env g log0 q1 (length (queue q1)));
      [reflexivity | lia].
Qed.

(** ** The end-to-end scenarios of the specification *)

(** A: a report is queued off line; back on line the flush succeeds, the
    queue is empty and the time of the last synchronisation is updated. *)
Example scenario_offline_then_synced :
  let q := fst (enqueue (env_at false 1000) (report_input "r1") empty_queue) in
  let r := flush false (env_at true 2000) (accept_all 2500) (q, empty_gateway) in
  _timer q = None /\ queue q <> []
  /\ queue (fst (fst r)) = [] /\ stored (fst (fst r)) = []
  /\ lastSyncAt (snd (fst r)) = Some "2500"
  /\ toasts (fst (fst r)) = ["Offline changes synced"].
Proof. cbn zeta. repeat split. discriminate. Qed.

(** B: two items are queued and the first one is refused; both stay, the
    first one annotated, and the second one was never attempted. *)
Example scenario_logical_failure_blocks :
  let q := enqueue_all [(env_at false 1000, report_input "r1");
                        (env_at false 1100, report_input "r2")] empty_queue in
  let r := flush false (env_at true 2000)
             (refuse_at 0 (VObj [("error", VStr "Duplicate report")]) 2500)
             (q, empty_gateway) in
  List.map item_id (queue (fst (fst r))) = ["r1"; "r2"]
  /\ List.map item_error (queue (fst (fst r))) = [Some "Duplicate report"; None]
  /\ List.map at_pos (snd r) = [0%nat]
  /\ _timer (fst (fst r)) = None.
Proof. cbn zeta. repeat split. Qed.

(** C: three network failures in a row bring the retry counter to 3, and the
    delay armed after the third lies in [[16000, 16400)]. *)
Example scenario_three_network_failures :
  let m := run (boot [persisted_report] empty_gateway) three_network_failures in
  _retryCount (m_queue m) = 3%nat
  /\ _timer (m_queue m) = Some 16000%Z
  /\ queue (m_queue m) = [persisted_report].
Proof. cbn zeta. repeat split. Qed.

(** D: a token that expires in ten seconds is reported expired under the
    skew of 60 seconds, and the offline login that relies on it is
    rejected. *)
Example scenario_token_within_skew :
  let env := env_at false 5000123 in
  isJwtExpired toy_atob (toy_parse (VNum 5010)) toy_number "h.cGF5bG9hZA.s" None env
    = true
  /\ findOfflineAccount (P := toy_platform) toy_atob (toy_parse (VNum 5010))
       toy_number "user" "b@x.org" env (vault_run (P := toy_platform) six_logins)
     = NotOk "expired".
Proof. cbn zeta. split; reflexivity. Qed.

(** * Further properties *)

(** ** Network gateway: what a call does to the store *)

Lemma cached_value method opts (c : bool) now g v :
  (if cacheable method opts && c
   then Cache_get (cacheKey opts) (Some (effective_max_age opts)) now (cache g)
   else VNull) = v ->
  nullish v = false ->
  method = "GET" /\ cacheKey opts <> ""
  /\ exists rec, cache g !! cacheKey opts = Some rec
                 /\ nullish (rec_v rec) = false /\ v = rec_v rec.
Proof.
  intros Hv Hnn. destruct (cacheable method opts) eqn:Hc.
  - unfold cacheable in Hc. apply andb_true_iff in Hc as [Hm Hk].
    apply String.eqb_eq in Hm. apply negb_true_iff, String.eqb_neq in Hk.
    split; [exact Hm|]. split; [exact Hk|].
    destruct c; cbn [andb] in Hv; [|subst v; discriminate].
    unfold Cache_get in Hv. destruct (cache g !! cacheKey opts) as [rec|].
    + exists rec. split; [reflexivity|].
      destruct (negb _ && _); subst v; [discriminate | now split].
    + subst v. discriminate.
  - subst v. discriminate.
Qed.

Lemma api_cases path method body opts env reply g :
  api_case method opts reply g (api path method body opts env reply g).
Proof.
  unfold api. cbv zeta.
  set (short := if cacheable method opts && negb (onLine env) then _ else VNull).
  destruct (nullish short) eqn:Hshort; cbn [negb].
  - destruct (fst reply) as [err | ok status data] eqn:Hr.
    + set (late := if cacheable method opts && isNetworkError _ err
                   then _ else VNull).
      destruct (nullish late) eqn:Hlate; cbn [negb].
      * apply Throws. intros ? ?. rewrite Hr. discriminate.
      * destruct (cached_value _ _ _ _ (set_lastFromCache false g) late eq_refl Hlate)
          as (Hm & Hk & rec & A & B & ->).
        now apply FromCache.
    + destruct ok; cbn [negb].
      * apply (Accepted method opts reply g status data Hr).
      * apply Throws. intros ? ?. rewrite Hr. discriminate.
  - destruct (cached_value _ _ _ _ (set_lastFromCache false g) short eq_refl Hshort)
      as (Hm & Hk & rec & A & B & ->).
    now apply FromCache.
Qed.

(** X1: what an online [GET] with a cache key fetched is what an offline
    [GET] under the same key gets back, whatever its path, as long as the
    record is no older than the maximal age. *)
Theorem api_serves_offline_what_it_fetched
    path path' body body' opts env1 reply1 status data env2 reply2 g :
  cacheKey opts <> "" ->
  onLine env1 = true ->
  fst reply1 = FetchResponse true status data ->
  nullish data = false ->
  onLine env2 = false ->
  (now_ms env2 - now_ms (snd reply1) <= effective_max_age opts)%Z ->
  let g1 := fst (api path "GET" body opts env1 reply1 g) in
  snd (api path "GET" body opts env1 reply1 g) = Resolved data
  /\ lastFromCache g1 = false
  /\ api path' "GET" body' opts env2 reply2 g1 =
     (set_lastFromCache true g1, Resolved data).
Proof.
  intros Hkey Hon1 Hr1 Hdata Hoff Hage. cbn zeta.
  pose proof (cacheable_GET _ Hkey) as Hc.
  assert (E1 : api path "GET" body opts env1 reply1 g =
    (set_lastFromCache false
       (set_cache (Cache_set (cacheKey opts) data (now_ms (snd reply1))
                     (cache g))
          (if onLine (snd reply1)
           then setLastSync (now_iso (snd reply1)) (set_lastFromCache false g)
           else set_lastFromCache false g)),
     Resolved data)).
  { unfold api. rewrite Hc, Hon1, Hr1. cbn [andb negb nullish].
    destruct (onLine (snd reply1)); reflexivity. }
  rewrite E1. cbn [fst snd]. split; [reflexivity|]. split; [reflexivity|].
  unfold api. rewrite Hc, Hoff. cbn [andb negb].
  rewrite (Cache_get_fresh _ _ _ _
             {| rec_t := now_ms (snd reply1); rec_v := data |}).
  - cbn [rec_v]. rewrite Hdata. reflexivity.
  - cbn. unfold Cache_set. apply lookup_insert_eq.
  - exact Hage.
Qed.

Lemma api_serves_offline_what_it_fetched_witness :
  let opts := {| cacheKey := "vendors"; cacheMaxAgeMs := 3600000 |} in
  let g1 := fst (api "/vendors" "GET" VNull opts (env_at true 1000)
                   (FetchResponse true 200 (VArr [VStr "v1"]), env_at true 1200)
                   empty_gateway) in
  api "/vendors?x=1" "GET" VNull opts (env_at false 3601200)
      (FetchRejected {| err_name := "TypeError"; err_message := "" |},
       env_at false 3601200) g1
  = (set_lastFromCache true g1, Resolved (VArr [VStr "v1"])).
Proof.
  cbn zeta.
  apply (api_serves_offline_what_it_fetched "/vendors" "/vendors?x=1" VNull VNull
           {| cacheKey := "vendors"; cacheMaxAgeMs := 3600000 |}
           (env_at true 1000)
           (FetchResponse true 200 (VArr [VStr "v1"]), env_at true 1200)
           200 (VArr [VStr "v1"]) (env_at false 3601200)).
  - discriminate.
  - reflexivity.
  - reflexivity.
  - reflexivity.
  - reflexivity.
  - cbn. lia.
Defined.

(** X2: a call changes the cache only when it is a [GET] with a cache key
    that the server answers with success, and then only the record of its
    own key, which becomes the answer stamped with the current time; it
    moves the time of the last synchronisation only on an answer of success
    with the device on line; it never touches the token. *)
Theorem api_store_effects path method body opts env reply g :
  let g' := fst (api path method body opts env reply g) in
  JWT g' = JWT g
  /\ (forall k, k <> cacheKey opts -> cache g' !! k = cache g !! k)
  /\ (cache g' <> cache g ->
        method = "GET" /\ cacheKey opts <> ""
        /\ exists status data,
             fst reply = FetchResponse true status data
             /\ cache g' !! cacheKey opts =
                Some {| rec_t := now_ms (snd reply); rec_v := data |})
  /\ (lastSyncAt g' <> lastSyncAt g ->
        onLine (snd reply) = true
        /\ lastSyncAt g' = Some (now_iso (snd reply))
        /\ exists status data, fst reply = FetchResponse true status data).
Proof.
  cbn zeta.
  destruct (api_cases path method body opts env reply g)
    as [rec Hm Hk Hrec Hv | err Hno | status data Hr].
  - cbn. split; [reflexivity|]. split; [reflexivity|].
    split; intros H; contradiction.
  - cbn. split; [reflexivity|]. split; [reflexivity|].
    split; intros H; contradiction.
  - cbv zeta. cbn [fst].
    destruct (cacheable method opts) eqn:Hc.
    + unfold cacheable in Hc. apply andb_true_iff in Hc as [Hm Hk].
      apply String.eqb_eq in Hm. apply negb_true_iff, String.eqb_neq in Hk.
      assert (Hset : forall g1 : Gateway,
        cache (set_lastFromCache false
                 (set_cache (Cache_set (cacheKey opts) data (now_ms (snd reply))
                               (cache g1)) g1)) !! cacheKey opts =
        Some {| rec_t := now_ms (snd reply); rec_v := data |}).
      { intros g1. cbn. unfold Cache_set. apply lookup_insert_eq. }
      split; [destruct (onLine (snd reply)); reflexivity|].
      split.
      { intros k Hne. destruct (onLine (snd reply)); cbn;
          unfold Cache_set; now apply lookup_insert_ne. }
      split.
      { intros _. split; [exact Hm|]. split; [exact Hk|].
        exists status, data. split; [exact Hr | apply Hset]. }
      destruct (onLine (snd reply)); cbn.
      * intros _. split; [reflexivity|]. split; [reflexivity|]. eauto.
      * intros H. contradiction.
    + split; [destruct (onLine (snd reply)); reflexivity|].
      split; [destruct (onLine (snd reply)); reflexivity|].
      split; [destruct (onLine (snd reply)); cbn; intros H; contradiction|].
      destruct (onLine (snd reply)); cbn.
      * intros _. split; [reflexivity|]. split; [reflexivity|]. eauto.
      * intros H. contradiction.
Qed.

Lemma api_store_effects_witness :
  let g' := fst (api "/reports" "POST" (VObj []) no_options (env_at true 1000)
                   (FetchResponse true 201 (VObj []), env_at true 1200)
                   empty_gateway) in
  lastSyncAt g' = Some "1200" /\ cache g' !! "reports.me" = None.
Proof.
  cbn zeta.
  destruct (api_store_effects "/reports" "POST" (VObj []) no_options
              (env_at true 1000)
              (FetchResponse true 201 (VObj []), env_at true 1200) empty_gateway)
    as (_ & Hother & _ & Hsync).
  split.
  - apply Hsync. discriminate.
  - rewrite Hother; [reflexivity | discriminate].
Defined.

(** X3: [api.lastFromCache] tells the truth. When it is set after a call,
    the call was a [GET] that returned the record cached under its key, and
    it changed neither the cache nor the time of the last synchronisation;
    when it is not set, the call threw or returned the body of an answer of
    success. *)
Theorem lastFromCache_is_sound path method body opts env reply g :
  let res := api path method body opts env reply g in
  (lastFromCache (fst res) = true ->
     method = "GET" /\ cacheKey opts <> ""
     /\ cache (fst res) = cache g /\ lastSyncAt (fst res) = lastSyncAt g
     /\ exists rec,
          cache g !! cacheKey opts = Some rec /\ nullish (rec_v rec) = false
          /\ snd res = Resolved (rec_v rec))
  /\ (lastFromCache (fst res) = false ->
        (exists err, snd res = Thrown err)
        \/ exists status data,
             fst reply = FetchResponse true status data
             /\ snd res = Resolved data).
Proof.
  cbn zeta.
  destruct (api_cases path method body opts env reply g)
    as [rec Hm Hk Hrec Hv | err Hno | status data Hr].
  - cbn. split; [|discriminate]. intros _.
    split; [exact Hm|]. split; [exact Hk|]. split; [reflexivity|].
    split; [reflexivity|]. exists rec. now repeat split.
  - cbn. split; [discriminate|]. intros _. left. eauto.
  - cbv zeta. cbn [fst snd]. split; [discriminate|]. intros _. right. eauto.
Qed.

Lemma lastFromCache_is_sound_witness :
  let opts := {| cacheKey := "vendors"; cacheMaxAgeMs := 0 |} in
  let g := set_cache (Cache_set "vendors" (VArr [VStr "v1"]) 1000 ∅) empty_gateway in
  snd (api "/vendors" "GET" VNull opts (env_at false 2000)
         (FetchRejected {| err_name := "TypeError"; err_message := "" |},
          env_at false 2000) g)
  = Resolved (VArr [VStr "v1"]).
Proof.
  cbn zeta.
  destruct (lastFromCache_is_sound "/vendors" "GET" VNull
              {| cacheKey := "vendors"; cacheMaxAgeMs := 0 |} (env_at false 2000)
              (FetchRejected {| err_name := "TypeError"; err_message := "" |},
               env_at false 2000)
              (set_cache (Cache_set "vendors" (VArr [VStr "v1"]) 1000 ∅)
                 empty_gateway))
    as [Hset _].
  destruct (Hset eq_refl) as (_ & _ & _ & _ & rec & Hrec & _ & Hres).
  rewrite Hres. vm_compute in Hrec. injection Hrec as <-. reflexivity.
Defined.


(** ** Network gateway: refusals without a message *)

Lemma includes_needs_its_first (c : ascii) (p s : string) :
  all_chars (fun d => negb (Ascii.eqb d c)) s = true ->
  includes s (String c p) = false.
Proof.
  induction s as [|d r IH]; intros H; [reflexivity|].
  cbn in H. apply andb_true_iff in H as [Hd Hr].
  cbn [includes String.prefix].
  destruct (ascii_dec c d) as [->|Hne].
  - rewrite Ascii.eqb_refl in Hd. discriminate.
  - now rewrite (IH Hr).
Qed.

Lemma all_chars_app P (s t : string) :
  all_chars P (s ++ t)%string = all_chars P s && all_chars P t.
Proof.
  induction s as [|c r IH]; [reflexivity|].
  change (all_chars P (String c (r ++ t)%string) = all_chars P (String c r) && all_chars P t).
  cbn [all_chars]. now rewrite IH, andb_assoc.
Qed.

Lemma all_chars_weaken (P Q : ascii -> bool) (s : string) :
  (forall c, P c = true -> Q c = true) ->
  all_chars P s = true -> all_chars Q s = true.
Proof.
  intros HPQ. induction s as [|c r IH]; [reflexivity|].
  cbn. intros H. apply andb_true_iff in H as [Hc Hr].
  now rewrite (HPQ _ Hc), (IH Hr).
Qed.

Lemma pretty_N_char_numeral (x : N) : is_numeral (pretty_N_char x) = true.
Proof. unfold pretty_N_char. repeat case_match; reflexivity. Qed.

Lemma pretty_N_go_numeral (x : N) (s : string) :
  all_chars is_numeral s = true -> all_chars is_numeral (pretty_N_go x s) = true.
Proof.
  revert s. induction (N.lt_wf_0 x) as [x _ IH]; intros s Hs.
  destruct (decide (0 < x)%N) as [Hpos|Hz].
  - rewrite pretty_N_go_step by exact Hpos.
    apply IH.
    + apply N.div_lt; lia.
    + cbn. now rewrite pretty_N_char_numeral.
  - assert (x = 0%N) as -> by lia. now rewrite pretty_N_go_0.
Qed.

Lemma pretty_N_numeral (x : N) : all_chars is_numeral (pretty x) = true.
Proof.
  unfold pretty, pretty_N. case_decide.
  - reflexivity.
  - now apply pretty_N_go_numeral.
Qed.

Lemma pretty_Z_numeral (z : Z) : all_chars is_numeral (pretty z) = true.
Proof.
  unfold pretty, pretty_Z. destruct z as [|p|p].
  - reflexivity.
  - apply pretty_N_numeral.
  - rewrite all_chars_app. cbn [all_chars]. apply pretty_N_numeral.
Qed.

Lemma fold_case_app (s t : string) :
  fold_case (s ++ t) = (fold_case s ++ fold_case t)%string.
Proof. induction s as [|c r IH]; [reflexivity|]. simpl. now rewrite IH. Qed.

Lemma fold_case_numeral (s : string) :
  all_chars is_numeral s = true -> fold_case s = s.
Proof.
  induction s as [|c r IH]; [reflexivity|].
  cbn. intros H. apply andb_true_iff in H as [Hc Hr]. rewrite (IH Hr).
  f_equal. unfold lower_ascii, is_upper. unfold is_numeral in Hc.
  destruct (65 <=? nat_of_ascii c)%nat eqn:E1; [|reflexivity].
  destruct (nat_of_ascii c <=? 90)%nat eqn:E2; [|reflexivity].
  apply Nat.leb_le in E1. exfalso.
  apply orb_true_iff in Hc as [Hc|Hc].
  - apply andb_true_iff in Hc as [_ Hc]. apply Nat.leb_le in Hc. lia.
  - apply Nat.eqb_eq in Hc. lia.
Qed.

Lemma numeral_is_no_letter (c d : ascii) :
  (97 <=? nat_of_ascii c)%nat = true ->
  is_numeral d = true -> negb (Ascii.eqb d c) = true.
Proof.
  intros Hc Hd. apply negb_true_iff, Ascii.eqb_neq. intros ->.
  apply Nat.leb_le in Hc. unfold is_numeral in Hd.
  apply orb_true_iff in Hd as [Hd|Hd].
  - apply andb_true_iff in Hd as [_ Hd]. apply Nat.leb_le in Hd. lia.
  - apply Nat.eqb_eq in Hd. lia.
Qed.

Lemma http_status_is_no_network_pattern (status : Z) :
  network_pattern ("HTTP " ++ pretty status)%string = false.
Proof.
  unfold network_pattern.
  rewrite fold_case_app, (fold_case_numeral _ (pretty_Z_numeral status)).
  change (fold_case "HTTP ") with "http ".
  assert (H : forall c p, (97 <=? nat_of_ascii c)%nat = true ->
            all_chars (fun d => negb (Ascii.eqb d c)) "http " = true ->
            includes ("http " ++ pretty status)%string (String c p) = false).
  { intros c p Hc Hh. apply includes_needs_its_first.
    rewrite all_chars_app, Hh. cbn [andb].
    apply (all_chars_weaken is_numeral); [|apply pretty_Z_numeral].
    intros d. now apply numeral_is_no_letter. }
  rewrite !H by reflexivity. reflexivity.
Qed.

(** X4: an answer of refusal whose body carries neither [error] nor
    [message] is thrown as [HTTP <status>], leaves the store as it was, and
    is never taken for a network failure while the device is on line,
    whatever the status. *)
Theorem bare_refusal_is_a_logical_failure
    path method body opts env reply status data g :
  cacheable method opts && negb (onLine env) = false ->
  fst reply = FetchResponse false status data ->
  truthy (js_and data (js_or (prop "error" data) (prop "message" data))) = false ->
  exists err,
    api path method body opts env reply g = (set_lastFromCache false g, Thrown err)
    /\ err_name err = "Error"
    /\ err_message err = ("HTTP " ++ pretty status)%string
    /\ forall env', onLine env' = true -> isNetworkError env' err = false.
Proof.
  intros Hs Hr Hbody.
  exists (Error (VStr ("HTTP " ++ pretty status)%string)).
  split.
  - unfold api. rewrite Hs, Hr. cbn [nullish negb].
    unfold js_or at 1. rewrite Hbody. reflexivity.
  - split; [reflexivity|]. split; [reflexivity|].
    intros env' Hon. unfold isNetworkError. rewrite Hon. cbn [negb].
    cbn [Error err_name err_message ToString].
    apply http_status_is_no_network_pattern.
Qed.

Lemma bare_refusal_is_a_logical_failure_witness :
  exists err,
    api "/reports" "POST" (VObj []) no_options (env_at true 1000)
        (FetchResponse false 503 VNull, env_at true 1200) empty_gateway
    = (set_lastFromCache false empty_gateway, Thrown err)
    /\ err_name err = "Error"
    /\ err_message err = "HTTP 503"
    /\ forall env', onLine env' = true -> isNetworkError env' err = false.
Proof.
  apply (bare_refusal_is_a_logical_failure "/reports" "POST" (VObj []) no_options
           (env_at true 1000) (FetchResponse false 503 VNull, env_at true 1200)
           503 VNull empty_gateway); reflexivity.
Defined.


(** ** Offline accounts: what a login off line can and cannot do *)

Section VaultFacts.

Context {P : Platform}.
Variable atob : string -> option string.
Variable JSON_parse : string -> option jsval.
Variable StringToNumber : string -> option Z.

(** What is used of the platform's strings: the empty string is the only
    one that lower-cases to the empty string; trimming the empty string
    gives the empty string, and trimming twice is trimming once. *)
Hypothesis toLowerCase_nil : toLowerCase "" = "".
Hypothesis toLowerCase_nonempty : forall s, toLowerCase s = "" -> s = "".
Hypothesis trim_nil : trim "" = "".
Hypothesis trim_idem : forall s, trim (trim s) = trim s.

Local Abbreviation expired := (isJwtExpired atob JSON_parse StringToNumber).
Local Abbreviation find := (findOfflineAccount atob JSON_parse StringToNumber).
Local Abbreviation guard := (route_guard atob JSON_parse StringToNumber).
Local Abbreviation offline :=
  (offline_login atob JSON_parse StringToNumber).

Lemma empty_token_is_expired skew env : expired "" skew env = true.
Proof. reflexivity. Qed.

Lemma unexpired_token_is_present token skew env :
  expired token skew env = false -> token <> "".
Proof. intros H ->. rewrite empty_token_is_expired in H. discriminate. Qed.




(** X5: [findOfflineAccount] only ever hands out an account whose token has
    not expired and whose role and login id are the ones asked for, in lower
    case and trimmed; the account is an entry of the remembered list or, when
    no entry matches, the legacy slots of the last session; and the answer
    is [missing] exactly when the role or the trimmed login id is empty. *)
Theorem findOfflineAccount_sound role loginId env v :
  (forall item,
     findOfflineAccount atob JSON_parse StringToNumber role loginId env v = Ok item ->
     expired (acc_token item) None env = false
     /\ acc_token item <> ""
     /\ acc_role item = toLowerCase role
     /\ acc_loginId item = toLowerCase (trim loginId)
     /\ (In item (offlineAccounts v)
         \/ (lastSession v = Some (acc_session item)
             /\ acc_token item = lastJwt v
             /\ forall a, In a (offlineAccounts v) ->
                  acc_role a <> toLowerCase role
                  \/ acc_loginId a <> toLowerCase (trim loginId))))
  /\ (findOfflineAccount atob JSON_parse StringToNumber role loginId env v
        = NotOk "missing" <->
      role = "" \/ trim loginId = "").
Proof.
  unfold findOfflineAccount. cbv zeta.
  destruct (String.eqb_spec (toLowerCase role) "") as [Hr|Hr]; cbn [orb].
  { split; [discriminate|]. split; [|reflexivity].
    intros _. left. now apply toLowerCase_nonempty. }
  destruct (String.eqb_spec (toLowerCase (trim loginId)) "") as [Hl|Hl].
  { split; [discriminate|]. split; [|reflexivity].
    intros _. right. now apply toLowerCase_nonempty. }
  assert (Hnot : ~ (role = "" \/ trim loginId = "")).
  { intros [->| E]; [apply Hr | apply Hl; rewrite E]; apply toLowerCase_nil. }
  set (listed := List.find _ (offlineAccounts v)).
  destruct listed as [a|] eqn:Hfind.
  - apply find_some in Hfind as [Hin Hp].
    apply andb_true_iff in Hp as [Hpr Hpl].
    apply String.eqb_eq in Hpr, Hpl.
    destruct (expired (acc_token a) None env) eqn:He.
    + split; [discriminate|]. split; [discriminate | intros H; contradiction].
    + split; [|split; [discriminate | intros H; contradiction]].
      intros item [= <-]. split; [exact He|].
      split; [exact (unexpired_token_is_present _ _ _ He)|].
      split; [exact Hpr|]. split; [exact Hpl|]. now left.
  - pose proof (find_none _ _ Hfind) as Hnone.
    assert (Hno : forall a, In a (offlineAccounts v) ->
              acc_role a <> toLowerCase role
              \/ acc_loginId a <> toLowerCase (trim loginId)).
    { intros a Ha. specialize (Hnone a Ha). cbv beta in Hnone.
      apply andb_false_iff in Hnone as [H|H]; apply String.eqb_neq in H; tauto. }
    destruct (lastSession v) as [legacy|] eqn:Hlast.
    2:{ split; [discriminate|]. split; [discriminate | intros H; contradiction]. }
    destruct (negb (lastJwt v =? "")%string &&
              (toLowerCase (session_role legacy) =? toLowerCase role)%string &&
              (toLowerCase (trim (lastLoginId v)) =? toLowerCase (trim loginId))%string)
      eqn:Hlegacy.
    2:{ split; [discriminate|]. split; [discriminate | intros H; contradiction]. }
    cbn [acc_token].
    destruct (expired (lastJwt v) None env) eqn:He.
    + split; [discriminate|]. split; [discriminate | intros H; contradiction].
    + split; [|split; [discriminate | intros H; contradiction]].
      intros item [= <-]. cbn [acc_token acc_role acc_loginId acc_session].
      split; [exact He|].
      split; [exact (unexpired_token_is_present _ _ _ He)|].
      split; [reflexivity|]. split; [reflexivity|]. right.
      split; [reflexivity|]. split; [reflexivity | exact Hno].
Qed.






(** X7: the guard of [UI.route] leaves no session without a valid token.
    After it, a session that is still open has a token that is present and
    not expired, and then nothing was changed; a session it ended took the
    token with it and left the remembered accounts alone; running it again
    at the same moment changes nothing. *)
Theorem route_guard_sound env page :
  let page' := route_guard atob JSON_parse StringToNumber env page in
  (forall s, session_data page' = Some s ->
     JWT (page_gateway page') <> ""
     /\ expired (JWT (page_gateway page')) None env = false
     /\ page' = page)
  /\ (session_data page' = None -> session_data page <> None ->
        JWT (page_gateway page') = "")
  /\ page_vault page' = page_vault page
  /\ queue (page_queue page') = queue (page_queue page)
  /\ guard env page' = page'.
Proof.
  cbv zeta. unfold route_guard.
  destruct (session_data page) as [s0|] eqn:Hs.
  2:{ rewrite Hs. split; [discriminate|]. split; [intros _ H; now contradiction H|].
      now repeat split. }
  destruct (String.eqb_spec (JWT (page_gateway page)) "") as [Hj|Hj]; cbn [orb].
  { cbn. split; [discriminate|]. now repeat split. }
  destruct (expired (JWT (page_gateway page)) None env) eqn:He.
  { cbn. split; [discriminate|]. now repeat split. }
  rewrite Hs.
  destruct (String.eqb_spec (JWT (page_gateway page)) "") as [X|_]; [contradiction|].
  rewrite He. cbn [orb].
  split; [intros s _; now repeat split|].
  split; [discriminate|]. now repeat split.
Qed.



End VaultFacts.

Section VaultExamples.

#[local] Existing Instance toy_platform.

Lemma findOfflineAccount_sound_witness :
  exists item,
    findOfflineAccount toy_atob (toy_parse (VNum 9000)) toy_number
      "USER" " B@x.ORG" (env_at false 5000123) (vault_run six_logins) = Ok item
    /\ acc_loginId item = "b@x.org"
    /\ isJwtExpired toy_atob (toy_parse (VNum 9000)) toy_number
         (acc_token item) None (env_at false 5000123) = false.
Proof.
  eexists. split; [reflexivity|].
  destruct (findOfflineAccount_sound (P := toy_platform) toy_atob
              (toy_parse (VNum 9000)) toy_number eq_refl fold_case_nonempty
              "USER" " B@x.ORG" (env_at false 5000123) (vault_run six_logins))
    as [Hok _].
  destruct (Hok _ eq_refl) as (Hexp & _ & _ & Hid & _).
  split; [exact Hid | exact Hexp].
Defined.


Lemma route_guard_sound_witness :
  let page := signed_in "b@x.org" 1000 in
  route_guard toy_atob (toy_parse (VNum 9000)) toy_number (env_at false 5000123) page
    = page
  /\ session_data
       (route_guard toy_atob (toy_parse (VNum 9000)) toy_number
          (env_at false 9000000) page) = None.
Proof.
  cbn zeta. split.
  - destruct (route_guard_sound toy_atob (toy_parse (VNum 9000)) toy_number
                (env_at false 5000123) (signed_in "b@x.org" 1000)) as [Hopen _].
    apply (Hopen (user_session "7")). reflexivity.
  - reflexivity.
Defined.



End VaultExamples.


(** ** The retry queue: flushes that succeed, flushes off line *)







(** ** Notices, timers and the countdown *)

Lemma notifyOffline_cases message env q :
  ((now_ms env - _lastOfflineNotice q < 15000)%Z
   /\ notifyOffline message env q = q)
  \/ ((15000 <= now_ms env - _lastOfflineNotice q)%Z
      /\ toasts (notifyOffline message env q) = toasts q ++ [message]
      /\ _lastOfflineNotice (notifyOffline message env q) = now_ms env).
Proof.
  unfold notifyOffline.
  destruct (Z.ltb_spec (now_ms env - _lastOfflineNotice q) 15000) as [Hlt|Hge].
  - left. now split.
  - right. repeat split. exact Hge.
Qed.

Lemma notify_all_spaced calls q :
  spaced (_lastOfflineNotice q) (fst (notify_all calls q))
  /\ length (toasts (snd (notify_all calls q))) =
     (length (toasts q) + length (fst (notify_all calls q)))%nat
  /\ queue (snd (notify_all calls q)) = queue q
  /\ _timer (snd (notify_all calls q)) = _timer q.
Proof.
  revert q. induction calls as [|[message env] rest IH]; intros q.
  - cbn. repeat split. lia.
  - cbn [notify_all].
    destruct (notifyOffline_fields message env q) as (Nq & _ & _ & _ & Nt).
    destruct (notifyOffline_cases message env q) as [[Hlt E] | (Hge & Ht & Hl)].
    + rewrite E, Nat.eqb_refl. apply IH.
    + destruct (IH (notifyOffline message env q)) as (A & B & C & D).
      rewrite Ht, length_app in *. cbn [length] in *.
      destruct (Nat.eqb_spec (length (toasts q) + 1) (length (toasts q))); [lia|].
      cbn [fst snd spaced length]. rewrite Hl in A.
      split; [split; [lia | exact A]|].
      split; [lia|]. split; congruence.
Qed.

(** X14: the offline notice is shown at most once in 15 seconds. Over any
    sequence of [notifyOffline] calls, whatever the clock does, two notices
    that are shown one after the other are at least 15000 ms apart, as is
    the first one from the last notice before; every call that is not
    shown leaves the page as it was, and none touches the queue or its
    timer. *)
Theorem offline_notice_is_rate_limited calls q :
  let shown := fst (notify_all calls q) in
  let q' := snd (notify_all calls q) in
  spaced (_lastOfflineNotice q) shown
  /\ length (toasts q') = (length (toasts q) + length shown)%nat
  /\ queue q' = queue q /\ _timer q' = _timer q
  /\ (forall message env, (now_ms env - _lastOfflineNotice q < 15000)%Z ->
        notifyOffline message env q = q).
Proof.
  cbv zeta. destruct (notify_all_spaced calls q) as (A & B & C & D).
  repeat match goal with |- _ /\ _ => split end; try assumption.
  intros message env Hlt. unfold notifyOffline.
  destruct (Z.ltb_spec (now_ms env - _lastOfflineNotice q) 15000);
    [reflexivity | lia].
Qed.

Lemma offline_notice_is_rate_limited_witness :
  fst (notify_all [("a", env_at false 20000); ("b", env_at false 30000);
                   ("c", env_at false 35000)] empty_queue) = [20000%Z; 35000%Z]
  /\ notifyOffline "d" (env_at false 14999) empty_queue = empty_queue.
Proof.
  split; [reflexivity|].
  apply (offline_notice_is_rate_limited [] empty_queue). cbn. lia.
Defined.

Lemma enqueue_timer env item q :
  _timer (fst (enqueue env item q)) =
  match _timer q with
  | Some ms => Some ms
  | None => if onLine env then Some (backoff (_retryCount q) + jitter env)%Z
            else None
  end
  /\ (_timer q <> None ->
        _nextRetryAt (fst (enqueue env item q)) = _nextRetryAt q).
Proof.
  unfold enqueue. cbv zeta. cbn [fst].
  set (q1 := save (set_queue _ q)).
  assert (Ht : _timer q1 = _timer q) by reflexivity.
  assert (Hn : _nextRetryAt q1 = _nextRetryAt q) by reflexivity.
  assert (Hr : _retryCount q1 = _retryCount q) by reflexivity.
  assert (Hq : queue q1 <> []).
  { unfold q1. cbn. intros E. apply app_eq_nil in E as [_ E]. discriminate. }
  destruct (_timer q) as [ms|] eqn:Hq0.
  - destruct (onLine env).
    + rewrite scheduleFlush_idle by (left; congruence). split; congruence.
    + split; congruence.
  - destruct (onLine env).
    + destruct (scheduleFlush_arms env q1 Ht Hq) as [A _]. rewrite A, Hr.
      split; [reflexivity | intros H; contradiction].
    + split; [exact Ht | intros H; contradiction].
Qed.

(** X15: enqueueing never stacks timers and never pushes a retry back.
    Over any burst of [enqueue] calls, a retry that was armed stays as it
    was, with its delay and its due time; when none was armed, the first
    call made on line arms one, with the back-off of the current retry
    count, and the later calls leave it alone; calls made off line arm
    nothing. *)
Theorem enqueue_burst_arms_one_timer inputs q :
  _timer (enqueue_all inputs q) =
    match _timer q with
    | Some ms => Some ms
    | None =>
        match List.find (fun c => onLine (fst c)) inputs with
        | Some c => Some (backoff (_retryCount q) + jitter (fst c))%Z
        | None => None
        end
    end
  /\ (_timer q <> None -> _nextRetryAt (enqueue_all inputs q) = _nextRetryAt q)
  /\ _retryCount (enqueue_all inputs q) = _retryCount q.
Proof.
  revert q. induction inputs as [|[env item] rest IH]; intros q.
  - cbn. split; [now destruct (_timer q)|]. split; reflexivity.
  - cbn [enqueue_all fold_left fst snd].
    change (fold_left _ rest ?x) with (enqueue_all rest x).
    destruct (IH (fst (enqueue env item q))) as (A & B & C).
    destruct (enqueue_timer env item q) as [T N].
    destruct (enqueue_appends env item q) as (_ & _ & R & _).
    rewrite A, C, T, R. cbn [List.find fst].
    split; [|split; [|reflexivity]].
    + destruct (_timer q) as [ms|]; [reflexivity|].
      destruct (onLine env); reflexivity.
    + intros Harmed. rewrite B, N; [reflexivity | exact Harmed|].
      rewrite T. destruct (_timer q); [discriminate | contradiction].
Qed.

Lemma enqueue_burst_arms_one_timer_witness :
  _timer (enqueue_all [(env_at false 1000, report_input "r1");
                       (env_at true 1100, report_input "r2");
                       (env_at true 1200, report_input "r3")] empty_queue)
  = Some 2000%Z.
Proof.
  destruct (enqueue_burst_arms_one_timer
              [(env_at false 1000, report_input "r1");
               (env_at true 1100, report_input "r2");
               (env_at true 1200, report_input "r3")] empty_queue) as [H _].
  exact H.
Defined.

(** X16: the countdown [retryInMs]. It is never negative; it is [0] after
    [clearSchedule]; right after [scheduleFlush] has armed a retry it is
    the delay of that retry, between 2 and 60.4 seconds; from then on it is
    what is left of that delay, and [0] once the delay has passed. *)
Theorem retryInMs_counts_down env env' q :
  (0 <= retryInMs env' q)%Z
  /\ retryInMs env' (clearSchedule q) = 0%Z
  /\ (_timer q = None -> queue q <> [] ->
      (0 <= now_ms env)%Z -> (0 <= random env < 2 ^ 53)%Z ->
      let ms := (backoff (_retryCount q) + jitter env)%Z in
      _timer (scheduleFlush env q) = Some ms
      /\ (2000 <= ms < 60400)%Z
      /\ retryInMs env (scheduleFlush env q) = ms
      /\ retryInMs env' (scheduleFlush env q) =
         Z.max 0 (ms - (now_ms env' - now_ms env))).
Proof.
  split; [|split].
  - unfold retryInMs. destruct (_nextRetryAt q) as [t|]; [|lia].
    destruct (t =? 0)%Z; lia.
  - reflexivity.
  - intros Ht Hq Hnow Hrand. cbv zeta.
    destruct (scheduleFlush_arms env q Ht Hq) as [A B].
    pose proof (jitter_range env Hrand) as Hj.
    assert (Hb : (2000 <= backoff (_retryCount q) <= 60000)%Z).
    { unfold backoff.
      assert (1 <= 2 ^ Z.of_nat (_retryCount q))%Z
        by (apply (Z.pow_le_mono_r 2 0); lia).
      lia. }
    split; [exact A|]. split; [lia|].
    unfold retryInMs. rewrite B.
    destruct (Z.eqb_spec (now_ms env + (backoff (_retryCount q) + jitter env)) 0);
      [lia|].
    split; [lia | f_equal; lia].
Qed.

Lemma retryInMs_counts_down_witness :
  retryInMs (env_at true 6500) (scheduleFlush (env_at true 5000) three_queued)
  = 500%Z.
Proof.
  destruct (retryInMs_counts_down (env_at true 5000) (env_at true 6500) three_queued)
    as (_ & _ & H).
  destruct H as (_ & _ & _ & Hleft).
  - reflexivity.
  - discriminate.
  - cbn. lia.
  - cbn. lia.
  - rewrite Hleft. reflexivity.
Defined.


(** ** The queue under interleaving *)

Lemma consistent_same_queue history m m' :
  queue (m_queue m') = queue (m_queue m) ->
  stored (m_queue m') = stored (m_queue m) ->
  m_suspended m' = m_suspended m ->
  consistent history m -> consistent history m'.
Proof.
  intros Hq Hs Hf (H1 & H2 & H3). unfold consistent.
  rewrite Hq, Hs, Hf. now repeat split.
Qed.

Lemma consistent_emptied history m q :
  queue q = [] -> stored q = [] -> m_suspended m = [] ->
  consistent history (with_queue q m).
Proof.
  intros Hq Hs Hf. unfold consistent. cbn [with_queue m_queue m_suspended].
  rewrite Hq, Hs, Hf. split; [reflexivity|]. split.
  - exists (length history). split; [lia|].
    rewrite drop_ge; [reflexivity | rewrite length_map; lia].
  - intros fr [].
Qed.

Lemma run_loop_consistent history i env m :
  m_suspended m = [] -> consistent history m ->
  consistent history (run_loop i env m).
Proof.
  intros Hf Hc. unfold run_loop.
  destruct (next_await _ _ _ _) as [fr|] eqn:Hn.
  - destruct Hc as (H1 & H2 & _). unfold consistent. cbn [m_queue m_suspended].
    split; [exact H1|]. split; [exact H2|].
    intros fr' Hin. rewrite Hf in Hin. cbn in Hin. destruct Hin as [<-|[]].
    destruct (next_await_index _ _ _ _ _ Hn) as (Hle & Hlk & _).
    rewrite lookup_drop in Hlk.
    replace (i + (fr_index fr - i))%nat with (fr_index fr) in Hlk by lia.
    exact Hlk.
  - destruct (finish_fields [] false env (m_queue m)) as (Hq & Hs & _).
    now apply consistent_emptied.
Qed.

Lemma exclusive_idle m :
  exclusive m -> _flushing (m_queue m) = false -> m_suspended m = [].
Proof.
  unfold exclusive. intros H Hfl. rewrite Hfl in H.
  now apply length_zero_iff_nil.
Qed.

Lemma call_flush_consistent history force env m :
  exclusive m -> consistent history m ->
  consistent history (call_flush force env m).
Proof.
  intros Hex Hc. unfold call_flush.
  destruct (flush_enter force env (m_queue m)) as [q1|q1] eqn:Hent.
  - destruct (flush_enter_inl _ _ _ _ Hent) as (Hq & Hs & _).
    now apply (consistent_same_queue history m).
  - destruct (flush_enter_inr _ _ _ _ Hent) as (Hfl & _ & _ & ->).
    apply run_loop_consistent.
    + cbn [with_queue m_suspended]. now apply exclusive_idle.
    + apply (consistent_same_queue history m); [| |reflexivity|exact Hc];
        cbn [with_queue m_queue]; destruct force; reflexivity.
Qed.

Lemma exclusive_single m k fr :
  exclusive m -> m_suspended m !! k = Some fr ->
  m_suspended m = [fr] /\ delete k (m_suspended m) = [].
Proof.
  unfold exclusive. intros Hex Hk.
  destruct (m_suspended m) as [|fr0 [|fr1 rest]].
  - discriminate.
  - destruct k; [|discriminate]. cbn in Hk. injection Hk as ->. now split.
  - cbn in Hex. destruct (_flushing (m_queue m)); discriminate.
Qed.

Lemma settle_consistent history fr reply m :
  m_suspended m = [] ->
  stored (m_queue m) = queue (m_queue m) ->
  (exists k, (k <= length history)%nat
             /\ List.map core (queue (m_queue m)) = drop k (List.map core history)) ->
  queue (m_queue m) !! fr_index fr = Some (fr_item fr) ->
  consistent history (settle fr reply m).
Proof.
  intros Hf Hs (k & Hk & Hsuf) Hitem. unfold settle. cbv zeta.
  destruct (snd (api _ _ _ _ _ _ _)) as [v|err].
  - apply run_loop_consistent; [exact Hf|].
    unfold consistent. cbn [m_queue m_suspended]. rewrite Hf.
    split; [exact Hs|]. split; [eauto|]. intros fr' [].
  - cbn [m_queue].
    destruct (on_failure_kept (fr_index fr) (fr_item fr) err (snd reply)
                (queue (m_queue m)) Hitem) as [Hkept _].
    set (remaining := fst (on_failure _ _ _ _ _)) in *.
    destruct (finish_fields remaining
                (snd (on_failure (fr_index fr) (fr_item fr) err (snd reply)
                        (queue (m_queue m))))
                (snd reply) (m_queue m)) as (Hq & Hst & _).
    unfold consistent. cbn [with_queue m_queue m_suspended].
    rewrite Hq, Hst, Hf. split; [reflexivity|]. split; [|intros fr' []].
    exists (k + fr_index fr)%nat.
    pose proof (lookup_lt_length _ _ _ Hitem) as Hlt.
    assert (Hlen : length (queue (m_queue m)) = (length history - k)%nat).
    { rewrite <- (length_map core), Hsuf, length_drop, length_map. reflexivity. }
    split; [lia|].
    rewrite <- drop_drop, <- Hsuf, skipn_map.
    rewrite Hkept. rewrite (drop_S _ _ _ Hitem). cbn [List.map]. f_equal.
    destruct (isNetworkError (snd reply) err); reflexivity.
Qed.

Lemma step_consistent history m ev :
  exclusive m -> consistent history m ->
  consistent (history ++ enqueued [ev]) (step m ev).
Proof.
  intros Hex Hc.
  destruct ev as [force env | k reply | env item | env]; cbn [step enqueued].
  - rewrite app_nil_r. now apply call_flush_consistent.
  - rewrite app_nil_r. destruct (m_suspended m !! k) as [fr|] eqn:Hk; [|exact Hc].
    destruct (exclusive_single m k fr Hex Hk) as [Hone Hdel].
    destruct Hc as (H1 & H2 & H3).
    apply settle_consistent; cbn [m_queue m_suspended]; try assumption.
    apply H3. rewrite Hone. now left.
  - destruct Hc as (H1 & (k & Hk & Hsuf) & H3).
    destruct (enqueue_appends env item (m_queue m)) as (Hq & Hs & _).
    unfold consistent. cbn [with_queue m_queue m_suspended].
    rewrite Hq, Hs. split; [reflexivity|]. split.
    + exists k. split; [rewrite length_app; lia|].
      rewrite !map_app, Hsuf. cbn [List.map].
      rewrite drop_app_le by (rewrite length_map; lia). reflexivity.
    + intros fr Hin. apply lookup_app_l_Some. now apply H3.
  - rewrite app_nil_r. destruct (_timer (m_queue m)); [|exact Hc].
    apply call_flush_consistent.
    + exact Hex.
    + apply (consistent_same_queue history m); [reflexivity..|exact Hc].
Qed.

Lemma enqueued_cons ev evs : enqueued (ev :: evs) = enqueued [ev] ++ enqueued evs.
Proof. destruct ev; reflexivity. Qed.

Lemma run_consistent history m evs :
  exclusive m -> consistent history m ->
  consistent (history ++ enqueued evs) (run m evs).
Proof.
  revert history m. induction evs as [|ev evs IH]; intros history m Hex Hc.
  - cbn. now rewrite app_nil_r.
  - cbn [run fold_left]. rewrite enqueued_cons, app_assoc.
    apply IH.
    + now apply step_exclusive.
    + now apply step_consistent.
Qed.

Lemma boot_consistent persisted g : consistent persisted (boot persisted g).
Proof.
  unfold consistent, boot. cbn. split; [reflexivity|]. split.
  - exists 0%nat. split; [lia | reflexivity].
  - intros fr [].
Qed.

Lemma boot_exclusive persisted g : exclusive (boot persisted g).
Proof. reflexivity. Qed.

(** X10: the stored copy of the queue never lags behind. Whatever the event
    loop runs, and in whatever order (calls of [flush] and of [enqueue],
    replies settling, the retry timer firing), between two events the store
    holds exactly the list in memory, so a page closed at any such moment
    loses no queued item. (A write to the store is taken to succeed, as
    [save] has it.) *)
Theorem stored_queue_is_current persisted g evs :
  stored (m_queue (run (boot persisted g) evs)) =
  queue (m_queue (run (boot persisted g) evs)).
Proof.
  destruct (run_consistent persisted (boot persisted g) evs
              (boot_exclusive persisted g) (boot_consistent persisted g))
    as (H & _). exact H.
Qed.

(** X11: the queue stays a tail of its history under every interleaving.
    The items in the queue are, annotations apart, the last ones of those it
    was loaded with followed by those [enqueue] was given, in that order:
    none is duplicated, reordered or dropped from the middle, also when
    [enqueue] runs while a flush awaits a reply; and the item of the call in
    flight is still in the queue. *)
Theorem queue_is_a_tail_of_its_history persisted g evs :
  let m := run (boot persisted g) evs in
  let history := persisted ++ enqueued evs in
  (exists k, (k <= length history)%nat
             /\ List.map core (queue (m_queue m)) = drop k (List.map core history))
  /\ (forall fr, In fr (m_suspended m) ->
        queue (m_queue m) !! fr_index fr = Some (fr_item fr)).
Proof.
  cbv zeta.
  destruct (run_consistent persisted (boot persisted g) evs
              (boot_exclusive persisted g) (boot_consistent persisted g))
    as (_ & H2 & H3). split; assumption.
Qed.


(** ** Reports: what the forms queue and what they call *)

Section ReportFacts.

Context {P : Platform}.

(** On a string of ASCII characters [String.prototype.toLowerCase] folds
    [A-Z] to [a-z] and nothing else. *)
Hypothesis toLowerCase_ascii :
  forall s, all_chars is_ascii s = true -> toLowerCase s = fold_case s.


Lemma pendingReports_app q (l : list Item) :
  pendingReports (set_queue (queue q ++ l) q) =
  pendingReports q ++ List.filter (fun i => String.eqb (item_type i) "report.create") l.
Proof. unfold pendingReports. cbn. apply List.filter_app. Qed.

Lemma pendingReports_enqueue env input q :
  pendingReports (fst (enqueue env input q)) =
  pendingReports q ++
  (if String.eqb (in_type input) "report.create" then [new_entry env input] else []).
Proof.
  unfold pendingReports.
  destruct (enqueue_appends env input q) as (-> & _).
  rewrite List.filter_app. reflexivity.
Qed.

(** X17: a report queued by [enqueueReport] is listed by [pendingReports],
    last, and by nothing else that is queued; the row that stands for it
    carries the id of the queue entry, which begins with [q_], and the
    status [QUEUED]; and for the row of any queued item the audit trail is
    put off, without a remote call. *)
Theorem queued_report_is_listed env payload q :
  let r := enqueueReport env payload q in
  let stub := snd r in
  (exists entry,
     queue (fst r) = queue q ++ [entry]
     /\ pendingReports (fst r) = pendingReports q ++ [entry]
     /\ item_type entry = "report.create"
     /\ item_payload entry = js_or payload (VObj [])
     /\ stub_id stub = item_id entry
     /\ String.prefix "q_" (stub_id stub) = true
     /\ stub_status stub = "QUEUED" /\ stub_offline stub = true)
  /\ (forall env' type p,
        type <> "report.create" ->
        pendingReports (fst (enqueueAction env' type p q)) = pendingReports q)
  /\ (forall env' item,
        audit_trail_deferred (stub_id (toReportStub env' item))
          (stub_status (toReportStub env' item)) = true).
Proof.
  cbv zeta. split; [|split].
  - eexists. unfold enqueueReport. cbn [fst snd].
    destruct (enqueue_appends env
                {| in_id := ""; in_type := "report.create"; in_payload := payload;
                   in_createdAt := "" |} q) as (Hq & _ & _ & _ & He).
    rewrite pendingReports_enqueue, Hq, He. cbn [in_type].
    change ("report.create" =? "report.create")%string with true. cbn iota.
    repeat split; try reflexivity.
    unfold toReportStub, new_entry, str_or. simpl.
    now destruct (pretty (now_ms env) ++ "_" ++ uid env)%string.
  - intros env' type p Hne. unfold enqueueAction.
    rewrite pendingReports_enqueue. cbn [in_type].
    destruct (String.eqb_spec type "report.create"); [contradiction|].
    apply app_nil_r.
  - intros env' item. unfold audit_trail_deferred. cbn [toReportStub stub_status].
    rewrite (toLowerCase_ascii "QUEUED" eq_refl).
    change (fold_case "QUEUED" =? "queued")%string with true.
    now rewrite !orb_true_r.
Qed.

Lemma api_POST_cases path body env reply g :
  (exists err,
     api path "POST" body no_options env reply g = (set_lastFromCache false g, Thrown err)
     /\ forall status data, fst reply <> FetchResponse true status data)
  \/ (exists status data,
        fst reply = FetchResponse true status data
        /\ snd (api path "POST" body no_options env reply g) = Resolved data).
Proof.
  destruct (api_cases path "POST" body no_options env reply g)
    as [rec Hm _ _ _ | err Hno | status data Hr].
  - discriminate.
  - left. eauto.
  - right. exists status, data. split; [exact Hr | reflexivity].
Qed.

Lemma enqueueReport_appends env payload q :
  exists entry,
    queue (fst (enqueueReport env payload q)) = queue q ++ [entry]
    /\ stored (fst (enqueueReport env payload q)) = queue q ++ [entry]
    /\ item_type entry = "report.create"
    /\ item_payload entry = js_or payload (VObj [])
    /\ endpoint entry = Some "/reports"
    /\ stub_id (snd (enqueueReport env payload q)) = item_id entry.
Proof.
  unfold enqueueReport. cbn [fst snd].
  destruct (enqueue_appends env
              {| in_id := ""; in_type := "report.create"; in_payload := payload;
                 in_createdAt := "" |} q) as (Hq & Hs & _ & _ & He).
  eexists. rewrite Hq, Hs, He. repeat split; reflexivity.
Qed.

(** X18: [Reports.submit] never loses a report. Once the report is read
    from the form it ends in one of three ways: the server has accepted it;
    or it is in the queue, last, and in the store, as a [report.create]
    entry with the payload of the form, and heads the user's table as a
    queued row (off line, or on line when the call failed on the network);
    or the call failed otherwise and the error is shown, with the queue as
    it was. *)
Theorem Reports_submit_never_loses payload env reply page rows :
  let r := Reports_submit payload env reply page rows in
  let page' := fst (fst r) in
  let rows' := snd (fst r) in
  match snd r with
  | Submitted created =>
      onLine env = true
      /\ (exists status, fst reply = FetchResponse true status created)
      /\ queue (page_queue page') = queue (page_queue page) /\ rows' = rows
  | QueuedAs stub =>
      (exists entry,
         queue (page_queue page') = queue (page_queue page) ++ [entry]
         /\ stored (page_queue page') = queue (page_queue page')
         /\ item_type entry = "report.create"
         /\ item_payload entry = VObj payload
         /\ endpoint entry = Some "/reports"
         /\ stub_id stub = item_id entry)
      /\ rows' = QueuedRow stub :: rows
      /\ (onLine env = false
          \/ exists e,
               snd (api "/reports" "POST" (VObj payload) no_options env reply
                      (page_gateway page)) = Thrown e
               /\ isNetworkError (snd reply) e = true)
  | Surfaced e =>
      onLine env = true /\ isNetworkError (snd reply) e = false
      /\ (forall status data, fst reply <> FetchResponse true status data)
      /\ queue (page_queue page') = queue (page_queue page) /\ rows' = rows
  end.
Proof.
  cbv zeta. unfold Reports_submit. destruct (onLine env) eqn:Hon; cbn [negb].
  - destruct (api_POST_cases "/reports" (VObj payload) env reply (page_gateway page))
      as [(err & E & Hno) | (status & data & Hr & E)].
    + rewrite E. cbn [fst snd].
      destruct (isNetworkError (snd reply) err) eqn:Hnet; cbn [fst snd].
      * destruct (enqueueReport_appends (snd reply) (VObj payload) (page_queue page))
          as (entry & A & B & C & D & F & G).
        cbn [with_page_gateway page_queue with_page_queue toast queue stored].
        split; [|split; [reflexivity|]].
        -- exists entry. rewrite A, B. now repeat split.
        -- right. exists err. now split.
      * now repeat split.
    + rewrite E. cbn [fst snd]. split; [reflexivity|]. split; [eauto|].
      now split.
  - cbn [fst snd].
    destruct (enqueueReport_appends env (VObj payload) (page_queue page))
      as (entry & A & B & C & D & F & G).
    cbn [page_queue with_page_queue toast queue stored].
    split; [|split; [reflexivity | now left]].
    exists entry. rewrite A, B. now repeat split.
Qed.

Lemma queue_or_call_offline type path payload queuedToast doneToast env reply page :
  onLine env = false ->
  let r := queue_or_call type path payload queuedToast doneToast env reply page in
  snd r = Queued (new_entry env {| in_id := ""; in_type := type;
                                   in_payload := payload; in_createdAt := "" |})
  /\ queue (page_queue (fst r)) =
     queue (page_queue page) ++
     [new_entry env {| in_id := ""; in_type := type; in_payload := payload;
                       in_createdAt := "" |}]
  /\ stored (page_queue (fst r)) = queue (page_queue (fst r))
  /\ page_gateway (fst r) = page_gateway page
  /\ page_vault (fst r) = page_vault page
  /\ session_data (fst r) = session_data page.
Proof.
  intros Hoff. cbv zeta. unfold queue_or_call, enqueueAction. rewrite Hoff.
  cbn [negb fst snd].
  destruct (enqueue_appends env
              {| in_id := ""; in_type := type; in_payload := payload;
                 in_createdAt := "" |} (page_queue page)) as (Hq & Hs & _ & _ & He).
  cbn [with_page_queue page_queue toast queue stored page_gateway page_vault
       session_data].
  rewrite Hq, Hs, He. now repeat split.
Qed.

Lemma queue_or_call_online type path payload queuedToast doneToast env reply page :
  onLine env = true ->
  let r := queue_or_call type path payload queuedToast doneToast env reply page in
  let res := api path "POST" payload no_options env reply (page_gateway page) in
  snd r = Sent (api_request path "POST" payload env (page_gateway page)) (snd res)
  /\ queue (page_queue (fst r)) = queue (page_queue page)
  /\ stored (page_queue (fst r)) = stored (page_queue page)
  /\ page_gateway (fst r) = fst res
  /\ page_vault (fst r) = page_vault page
  /\ session_data (fst r) = session_data page.
Proof.
  intros Hon. cbv zeta. unfold queue_or_call. rewrite Hon. cbn [negb].
  destruct (snd (api path "POST" payload no_options env reply (page_gateway page)));
    cbn; now repeat split.
Qed.

(** What a form does once its input has passed: the kind and the address of
    the action, and its payload. *)
Lemma action_form_cases form :
  action_form form ->
  forall env reply page,
    (exists text, form env reply page = (notice text page, TurnedDown))
    \/ form env reply page = (page, TurnedDown)
    \/ exists type path payload queuedToast doneToast,
         form env reply page =
           queue_or_call type path payload queuedToast doneToast env reply page
         /\ truthy payload = true
         /\ (forall item, item_type item = type -> endpoint item = Some path)
         /\ forall env2 reply2 page2,
              session_data page2 = session_data page ->
              form env2 reply2 page2 =
                queue_or_call type path payload queuedToast doneToast
                  env2 reply2 page2.
Proof.
  intros [idf vf | idf sf | idf proof] env reply page.
  - unfold Reports_assign. cbv zeta.
    destruct (_ || _) eqn:Hbad; [left; eauto|].
    right. right. do 5 eexists. split; [reflexivity|]. split; [reflexivity|].
    split; [intros item Ht; unfold endpoint; rewrite Ht; reflexivity|].
    intros env2 reply2 page2 _. reflexivity.
  - unfold Reports_adminUpdateStatus. cbv zeta.
    destruct (_ || _) eqn:Hbad; [left; eauto|].
    right. right. do 5 eexists. split; [reflexivity|]. split; [reflexivity|].
    split; [intros item Ht; unfold endpoint; rewrite Ht; reflexivity|].
    intros env2 reply2 page2 _. reflexivity.
  - unfold Reports_vendorComplete. cbv zeta.
    destruct (session_data page) as [s|] eqn:Hs; [|right; now left].
    destruct (String.eqb (session_role s) "vendor") eqn:Hrole; [|right; now left].
    destruct proof as [proofBase64|]; [|left; eauto].
    destruct (String.eqb (trim idf) "") eqn:Hid; [left; eauto|].
    right. right. do 5 eexists. split; [reflexivity|]. split; [reflexivity|].
    split; [intros item Ht; unfold endpoint; rewrite Ht; reflexivity|].
    intros env2 reply2 page2 Hsess. rewrite ?Hsess, ?Hs, ?Hrole, ?Hid.
    reflexivity.
Qed.

(** X19: an action form queues or calls, never both, and queues only off
    line. For [assign], [adminUpdateStatus] and [vendorComplete]: input that
    is turned down changes neither the queue nor the gateway; off line, input
    that passes is appended to the queue and to the store and no call is
    made; on line it is called with [POST] and the queue is left alone, also
    when the call fails, on the network or otherwise. The form never touches
    the remembered accounts or the session. *)
Theorem action_form_queues_or_calls form :
  action_form form ->
  forall env reply page,
    let r := form env reply page in
    page_vault (fst r) = page_vault page
    /\ session_data (fst r) = session_data page
    /\ match snd r with
       | TurnedDown =>
           queue (page_queue (fst r)) = queue (page_queue page)
           /\ page_gateway (fst r) = page_gateway page
       | Queued item =>
           onLine env = false
           /\ queue (page_queue (fst r)) = queue (page_queue page) ++ [item]
           /\ stored (page_queue (fst r)) = queue (page_queue (fst r))
           /\ page_gateway (fst r) = page_gateway page
           /\ endpoint item <> None
       | Sent request out =>
           onLine env = true
           /\ req_method request = "POST"
           /\ queue (page_queue (fst r)) = queue (page_queue page)
           /\ stored (page_queue (fst r)) = stored (page_queue page)
       end.
Proof.
  intros Hform env reply page. cbv zeta.
  destruct (action_form_cases form Hform env reply page)
    as [[text ->] | [-> | (type & path & payload & qt & dt & -> & _ & Hep & _)]].
  - cbn. now repeat split.
  - cbn. now repeat split.
  - destruct (onLine env) eqn:Hon.
    + destruct (queue_or_call_online type path payload qt dt env reply page Hon)
        as (-> & A & B & C & D & E).
      now repeat split.
    + destruct (queue_or_call_offline type path payload qt dt env reply page Hon)
        as (-> & A & B & C & D & E).
      repeat split; try assumption.
      rewrite (Hep (new_entry env {| in_id := ""; in_type := type;
                                     in_payload := payload; in_createdAt := "" |})
                 eq_refl).
      discriminate.
Qed.

(** X20: what is queued off line is replayed as it would have been called.
    When one of the three action forms has queued an item, the loop of
    [flush] makes for that item exactly the call that the same form, with
    the same input, makes on line: the same request, with the same outcome
    and the same effect on the gateway. *)
Theorem queued_action_is_replayed_as_called form :
  action_form form ->
  forall env reply page page' item,
    form env reply page = (page', Queued item) ->
    forall env2 reply2 page2,
      onLine env2 = true -> session_data page2 = session_data page ->
      let r := flush_loop [item] 0 env2 (fun _ => reply2) (page_gateway page2) in
      exists request out,
        snd (form env2 reply2 page2) = Sent request out
        /\ loop_log r = [{| at_pos := 0; at_request := request; at_outcome := out |}]
        /\ page_gateway (fst (form env2 reply2 page2)) = loop_gateway r.
Proof.
  intros Hform env reply page page' item Hq env2 reply2 page2 Hon2 Hsess. cbv zeta.
  destruct (action_form_cases form Hform env reply page)
    as [[text E] | [E | (type & path & payload & qt & dt & E & Htruthy & Hep & Hsame)]].
  - rewrite E in Hq. discriminate.
  - rewrite E in Hq. discriminate.
  - rewrite (Hsame env2 reply2 page2 Hsess).
    destruct (queue_or_call_online type path payload qt dt env2 reply2 page2 Hon2)
      as (-> & _ & _ & -> & _).
    rewrite E in Hq.
    assert (Hitem : item = new_entry env {| in_id := ""; in_type := type;
                                            in_payload := payload;
                                            in_createdAt := "" |}).
    { destruct (onLine env) eqn:Hon.
      - destruct (queue_or_call_online type path payload qt dt env reply page Hon)
          as (Hs & _). rewrite Hq in Hs. discriminate.
      - destruct (queue_or_call_offline type path payload qt dt env reply page Hon)
          as (Hs & _). rewrite Hq in Hs. cbn in Hs. congruence. }
    assert (Hpay : item_payload item = payload).
    { rewrite Hitem. cbn. unfold js_or. now rewrite Htruthy. }
    assert (Hpath : endpoint item = Some path).
    { apply Hep. now rewrite Hitem. }
    do 2 eexists. split; [reflexivity|].
    cbn [flush_loop]. rewrite Hpath, Hpay.
    destruct (snd (api path "POST" payload no_options env2 reply2 (page_gateway page2)));
      cbn; now split.
Qed.

Lemma isNetworkError_TypeError env message :
  isNetworkError env {| err_name := "TypeError"; err_message := message |} = true.
Proof. unfold isNetworkError. now destruct (onLine env). Qed.

(** X21: the user's table always shows what is queued, and what the call
    gave. For a signed-in user [Reports.refreshUserTable] never changes the
    queue and leaves the gateway as [api] left it. When [api] returns
    [reports], which is then the body the server answered with or the
    record cached under [reports.me], the rows are those of the queued
    reports, in the order of the queue, followed by every element of
    [reports] in order (by none when [reports] is empty or cannot be spread),
    and no error is shown. When [api] throws, a network failure leaves the
    queued rows alone and shows no error; any other error is handed to
    [oops] and the rows stay as they were. *)
Theorem refreshUserTable_lists_queued_first env reply page rows s :
  session_data page = Some s -> session_role s = "user" ->
  let r := Reports_refreshUserTable env reply page rows in
  let res := api "/reports/me" "GET" VNull reports_me env reply (page_gateway page) in
  let queued :=
    List.map (fun i => QueuedRow (toReportStub (snd reply) i))
             (pendingReports (page_queue page)) in
  queue (page_queue (fst (fst r))) = queue (page_queue page)
  /\ stored (page_queue (fst (fst r))) = stored (page_queue page)
  /\ page_gateway (fst (fst r)) = fst res
  /\ match snd res with
     | Resolved reports =>
         snd r = None
         /\ snd (fst r) =
            queued ++ List.map ServerRow
                        (default [] (spread (js_or reports (VArr []))))
         /\ ((exists status, fst reply = FetchResponse true status reports)
             \/ (exists rec,
                   cache (page_gateway page) !! "reports.me" = Some rec
                   /\ rec_v rec = reports))
     | Thrown e =>
         if isNetworkError (snd reply) e
         then snd r = None /\ snd (fst r) = queued
         else snd r = Some e /\ snd (fst r) = rows
     end.
Proof.
  intros Hs Hrole. cbv zeta. unfold Reports_refreshUserTable. rewrite Hs, Hrole.
  change ("user" =? "user")%string with true. cbv iota zeta.
  assert (Hq : forall message q,
            queue (notifyOffline message (snd reply) q) = queue q).
  { intros message q. now destruct (notifyOffline_fields message (snd reply) q). }
  assert (Hst : forall message q,
            stored (notifyOffline message (snd reply) q) = stored q).
  { intros message q.
    now destruct (notifyOffline_fields message (snd reply) q) as (_ & B & _). }
  assert (Hsource : forall reports,
    snd (api "/reports/me" "GET" VNull reports_me env reply (page_gateway page)) =
      Resolved reports ->
    (exists status, fst reply = FetchResponse true status reports)
    \/ (exists rec, cache (page_gateway page) !! "reports.me" = Some rec
                    /\ rec_v rec = reports)).
  { intros reports.
    destruct (api_cases "/reports/me" "GET" VNull reports_me env reply
                (page_gateway page)) as [rec _ _ Hrec _ | err _ | status data Hr].
    - cbn [snd]. intros [= <-]. right. exists rec. now split.
    - discriminate.
    - cbv zeta. cbn [snd]. intros [= <-]. left. eauto. }
  set (res := api "/reports/me" "GET" VNull reports_me env reply (page_gateway page))
    in *.
  destruct (snd res) as [reports | e].
  - specialize (Hsource reports eq_refl).
    destruct (spread (js_or reports (VArr []))) as [rs|]; cbn [default].
    + destruct (lastFromCache (fst res));
        cbn [fst snd page_queue page_gateway with_page_queue with_page_gateway];
        rewrite ?Hq, ?Hst; now repeat split.
    + rewrite isNetworkError_TypeError.
      destruct (lastFromCache (fst res));
        cbn [fst snd page_queue page_gateway with_page_queue with_page_gateway];
        rewrite ?Hq, ?Hst, ?app_nil_r; now repeat split.
  - destruct (isNetworkError (snd reply) e) eqn:Hnet;
      cbn [fst snd page_queue page_gateway with_page_queue with_page_gateway];
      rewrite ?Hq, ?Hst; now repeat split.
Qed.

End ReportFacts.

(** ** The token segment handed to [atob] *)

Lemma replaceAll_length a b s : String.length (replaceAll a b s) = String.length s.
Proof. induction s as [|c r IH]; cbn; [reflexivity | now rewrite IH]. Qed.

Lemma append_length (s t : string) :
  String.length (s ++ t)%string = (String.length s + String.length t)%nat.
Proof. induction s as [|c r IH]; simpl; [reflexivity | now rewrite IH]. Qed.

Lemma repeat_str_length c n : String.length (repeat_str c n) = n.
Proof. induction n as [|n IH]; cbn; [reflexivity | now rewrite IH]. Qed.

Lemma replaceAll_removes a b s :
  a <> b -> all_chars (fun c => negb (Ascii.eqb c a)) (replaceAll a b s) = true.
Proof.
  intros Hab. induction s as [|c r IH]; [reflexivity|].
  cbn [replaceAll all_chars]. rewrite IH, andb_true_r.
  destruct (Ascii.eqb_spec c a) as [->|Hne].
  - apply negb_true_iff, Ascii.eqb_neq. congruence.
  - now apply negb_true_iff, Ascii.eqb_neq.
Qed.

Lemma replaceAll_keeps (P : ascii -> bool) a b s :
  P b = true -> all_chars P s = true -> all_chars P (replaceAll a b s) = true.
Proof.
  intros Hb. induction s as [|c r IH]; [reflexivity|].
  cbn [replaceAll all_chars]. intros H. apply andb_true_iff in H as [Hc Hr].
  rewrite (IH Hr), andb_true_r. now destruct (Ascii.eqb c a).
Qed.

Lemma repeat_str_all (P : ascii -> bool) c n :
  P c = true -> all_chars P (repeat_str c n) = true.
Proof. intros Hc. induction n as [|n IH]; cbn; [reflexivity | now rewrite Hc, IH]. Qed.

(** X22: the middle segment of a token is handed to [atob] in the standard
    alphabet and padded: whatever the segment, [padded] has a length that is
    a multiple of four, no [-] and no [_] is left in it, and it adds at
    most three [=] to the segment's length. *)
Theorem padded_is_standard_base64 seg :
  (String.length (padded seg) mod 4 = 0)%nat
  /\ all_chars (fun c => negb (Ascii.eqb c "-") && negb (Ascii.eqb c "_"))
       (padded seg) = true
  /\ (String.length seg <= String.length (padded seg) <= String.length seg + 3)%nat.
Proof.
  unfold padded. cbv zeta.
  set (b64 := replaceAll "_" "/" (replaceAll "-" "+" seg)).
  assert (Hlen : String.length b64 = String.length seg)
    by (unfold b64; now rewrite !replaceAll_length).
  assert (Hclean : all_chars (fun c => negb (Ascii.eqb c "-") && negb (Ascii.eqb c "_"))
                     b64 = true).
  { unfold b64.
    assert (H1 := replaceAll_removes "-" "+" seg ltac:(discriminate)).
    assert (H2 := replaceAll_keeps (fun c => negb (Ascii.eqb c "-")) "_" "/"
                    _ eq_refl H1).
    assert (H3 := replaceAll_removes "_" "/" (replaceAll "-" "+" seg)
                    ltac:(discriminate)).
    revert H2 H3. generalize (replaceAll "_" "/" (replaceAll "-" "+" seg)).
    intros t. induction t as [|c r IH]; [reflexivity|].
    cbn [all_chars]. intros H2 H3.
    apply andb_true_iff in H2 as [A1 A2]. apply andb_true_iff in H3 as [B1 B2].
    now rewrite A1, B1, (IH A2 B2). }
  rewrite all_chars_app, Hclean, append_length, Hlen.
  pose proof (Nat.mod_upper_bound (String.length seg) 4 ltac:(lia)) as Hr.
  pose proof (Nat.div_mod_eq (String.length seg) 4) as Hdm.
  destruct (Nat.eqb_spec (String.length seg mod 4) 0) as [Hz|Hnz].
  - cbn [String.length all_chars andb]. rewrite Nat.add_0_r.
    split; [exact Hz|]. split; [reflexivity | lia].
  - rewrite repeat_str_length.
    split; [|split; [now apply repeat_str_all | lia]].
    replace (String.length seg + (4 - String.length seg mod 4))%nat
      with ((String.length seg / 4 + 1) * 4)%nat by lia.
    apply Nat.Div0.mod_mul.
Qed.

Section ReportExamples.

#[local] Existing Instance toy_platform.

Lemma queued_report_is_listed_witness :
  let r := enqueueReport (env_at false 1000) (VObj [("title", VStr "Overflowing bin")])
             empty_queue in
  length (pendingReports (fst r)) = 1%nat
  /\ audit_trail_deferred (stub_id (snd r)) (stub_status (snd r)) = true.
Proof.
  cbn zeta.
  destruct (queued_report_is_listed (P := toy_platform) (fun s _ => eq_refl)
              (env_at false 1000) (VObj [("title", VStr "Overflowing bin")])
              empty_queue) as ((entry & _ & Hpending & _) & _ & Hdeferred).
  split.
  - rewrite Hpending. reflexivity.
  - apply (Hdeferred (env_at false 1000)
             (new_entry (env_at false 1000)
                {| in_id := ""; in_type := "report.create";
                   in_payload := VObj [("title", VStr "Overflowing bin")];
                   in_createdAt := "" |})).
Defined.

Lemma Reports_submit_never_loses_witness :
  exists stub entry,
    snd (Reports_submit [("title", VStr "Overflowing bin")] (env_at true 1000)
           (drop_at 0 true 1500 0) blank_page []) = QueuedAs stub
    /\ queue (page_queue (fst (fst
         (Reports_submit [("title", VStr "Overflowing bin")] (env_at true 1000)
            (drop_at 0 true 1500 0) blank_page [])))) = [entry]
    /\ stub_id stub = item_id entry.
Proof.
  pose proof (Reports_submit_never_loses [("title", VStr "Overflowing bin")]
                (env_at true 1000) (drop_at 0 true 1500 0) blank_page []) as H.
  cbv zeta in H.
  destruct (snd (Reports_submit _ _ _ _ _)) as [created | stub | e] eqn:Hout;
    [discriminate Hout | | discriminate Hout].
  destruct H as ((entry & Hq & _ & _ & _ & _ & Hid) & _).
  exists stub, entry. split; [reflexivity|]. split; [exact Hq | exact Hid].
Defined.

Lemma queued_action_is_replayed_as_called_witness :
  let form := Reports_assign " r42 " "v7" in
  exists item request out,
    snd (form (env_at false 1000) (accept_all 1500 0) blank_page) = Queued item
    /\ snd (form (env_at true 2000) (accept_all 2500 0) blank_page) = Sent request out
    /\ loop_log (flush_loop [item] 0 (env_at true 2000) (fun _ => accept_all 2500 0)
                   empty_gateway)
       = [{| at_pos := 0; at_request := request; at_outcome := out |}].
Proof.
  cbn zeta.
  destruct (queued_action_is_replayed_as_called (P := toy_platform)
              (Reports_assign " r42 " "v7")
              (AssignForm " r42 " "v7") (env_at false 1000) (accept_all 1500 0)
              blank_page _ _ eq_refl (env_at true 2000) (accept_all 2500 0)
              blank_page eq_refl eq_refl)
    as (request & out & Hsent & Hlog & _).
  eexists. exists request, out. split; [reflexivity|]. split; [exact Hsent | exact Hlog].
Defined.

Lemma action_form_queues_or_calls_witness :
  let r := Reports_adminUpdateStatus "r42" "RESOLVED" (env_at true 2000)
             (drop_at 0 true 2500 0) blank_page in
  queue (page_queue (fst r)) = [] /\ page_vault (fst r) = empty_vault.
Proof.
  cbn zeta.
  destruct (action_form_queues_or_calls (P := toy_platform)
              (Reports_adminUpdateStatus "r42" "RESOLVED")
              (StatusForm "r42" "RESOLVED") (env_at true 2000)
              (drop_at 0 true 2500 0) blank_page) as (Hv & _ & Hout).
  split; [|exact Hv].
  destruct Hout as (_ & _ & Hq & _). exact Hq.
Defined.

Lemma refreshUserTable_lists_queued_first_witness :
  let page := {| session_data := Some (user_session "7");
                 page_gateway := empty_gateway; page_vault := empty_vault;
                 page_queue := three_queued |} in
  let r := Reports_refreshUserTable (env_at true 2000)
             (FetchResponse true 200 (VArr [VStr "a"; VStr "b"]), env_at true 2500)
             page [] in
  snd r = None
  /\ (exists q1 q2, snd (fst r) =
                      [QueuedRow q1; QueuedRow q2; ServerRow (VStr "a");
                       ServerRow (VStr "b")])
  /\ queue (page_queue (fst (fst r))) = queue three_queued.
Proof.
  cbn zeta.
  destruct (refreshUserTable_lists_queued_first (env_at true 2000)
              (FetchResponse true 200 (VArr [VStr "a"; VStr "b"]), env_at true 2500)
              {| session_data := Some (user_session "7");
                 page_gateway := empty_gateway; page_vault := empty_vault;
                 page_queue := three_queued |} [] (user_session "7")
              eq_refl eq_refl) as (Hq & _ & _ & Hrows).
  destruct Hrows as (Herr & Hrows & _).
  split; [exact Herr|]. split; [|exact Hq].
  rewrite Hrows. do 2 eexists. reflexivity.
Defined.

End ReportExamples.


(** ** The vault over a session of the page *)

Section VaultHistory.

Context {P : Platform}.
Variable atob : string -> option string.
Variable JSON_parse : string -> option jsval.
Variable StringToNumber : string -> option Z.

Local Abbreviation expired := (isJwtExpired atob JSON_parse StringToNumber).
Local Abbreviation find := (findOfflineAccount atob JSON_parse StringToNumber).
Local Abbreviation candidate := (getOfflineCandidate atob JSON_parse StringToNumber).
Local Abbreviation offline := (offline_login atob JSON_parse StringToNumber).

(** X23: a token never comes back to life. A token that [isJwtExpired]
    finds expired at one moment is found expired at every later moment, and
    with every larger skew. *)
Theorem expiry_is_monotone token (skew skew' : Z) env env' :
  (now_ms env <= now_ms env')%Z -> (skew <= skew')%Z ->
  isJwtExpired atob JSON_parse StringToNumber token (Some skew) env = true ->
  isJwtExpired atob JSON_parse StringToNumber token (Some skew') env' = true.
Proof.
  intros Hnow Hskew. unfold isJwtExpired. cbv zeta. cbn [default].
  destruct (negb _ || negb _); [reflexivity|].
  destruct (ToNumber StringToNumber _) as [e|]; [|discriminate].
  intros H. apply Z.leb_le in H. apply Z.leb_le.
  pose proof (Z.div_le_mono (now_ms env) (now_ms env') 1000 ltac:(lia) Hnow).
  unfold id in *. lia.
Qed.

Lemma vault_step_wellformed v op :
  (Forall (fun a => acc_token a <> "" /\ acc_role a <> "" /\ acc_loginId a <> "")
          (offlineAccounts v)
   /\ (lastSession v <> None -> lastJwt v <> "")) ->
  Forall (fun a => acc_token a <> "" /\ acc_role a <> "" /\ acc_loginId a <> "")
         (offlineAccounts (vault_step v op))
  /\ (lastSession (vault_step v op) <> None -> lastJwt (vault_step v op) <> "").
Proof.
  intros [Hall Hlast]. destruct op as [c|]; cbn [vault_step].
  2:{ split; [constructor | intros H; now contradiction H]. }
  unfold remember, rememberSession.
  destruct (rc_session c) as [s|]; [|now split].
  destruct (String.eqb_spec (rc_token c) "") as [|Htok]; [now split|].
  cbv zeta.
  destruct (String.eqb_spec (toLowerCase (session_role s)) "") as [|Hrole];
    cbn [orb]; [now split|].
  match goal with |- context [String.eqb ?l ""] =>
    destruct (String.eqb_spec l "") as [|Hid] end; [now split|].
  cbn [offlineAccounts lastSession lastJwt]. split; [|intros _; exact Htok].
  apply List.Forall_forall. intros a Ha. apply In_take in Ha.
  destruct Ha as [<-|Ha].
  - cbn. now repeat split.
  - apply filter_In in Ha as [Ha _]. rewrite List.Forall_forall in Hall. now apply Hall.
Qed.

(** X24: the vault only holds accounts one can name. Over any history of
    logins and clearings, every remembered account has a token, a role and
    a login id that are not empty, and the slot of the last session is never
    filled without its token. *)
Theorem vault_accounts_are_usable ops :
  (forall a, In a (offlineAccounts (vault_run ops)) ->
     acc_token a <> "" /\ acc_role a <> "" /\ acc_loginId a <> "")
  /\ (lastSession (vault_run ops) <> None -> lastJwt (vault_run ops) <> "").
Proof.
  unfold vault_run.
  assert (H : forall v,
    (Forall (fun a => acc_token a <> "" /\ acc_role a <> "" /\ acc_loginId a <> "")
            (offlineAccounts v)
     /\ (lastSession v <> None -> lastJwt v <> "")) ->
    Forall (fun a => acc_token a <> "" /\ acc_role a <> "" /\ acc_loginId a <> "")
           (offlineAccounts (fold_left vault_step ops v))
    /\ (lastSession (fold_left vault_step ops v) <> None ->
        lastJwt (fold_left vault_step ops v) <> "")).
  { induction ops as [|op ops IH]; intros v Hv; [exact Hv|].
    cbn [fold_left]. apply IH. now apply vault_step_wellformed. }
  destruct (H empty_vault) as [Hall Hlast].
  { split; [constructor | intros X; now contradiction X]. }
  split; [|exact Hlast]. intros a Ha. rewrite List.Forall_forall in Hall. now apply Hall.
Qed.

(** X25: once the saved accounts are cleared nobody signs in off line. After
    [UI.clearOfflineSession], the offline branch of every login form, with
    any input, leaves the session and the token as they are; the vault is
    empty. Signing out, by contrast, leaves the vault as it was. *)
Theorem cleared_accounts_cannot_sign_in role prompt input env page :
  let page' := offline role prompt input env (forget_accounts page) in
  session_data page' = session_data page
  /\ page_gateway page' = page_gateway page
  /\ page_vault page' = empty_vault
  /\ page_vault (Session_clear page) = page_vault page.
Proof.
  cbv zeta. unfold offline_login. cbv zeta.
  destruct (String.eqb (trim input) ""); [now repeat split|].
  assert (Hnone : exists reason,
    find role (trim input) env (page_vault (forget_accounts page)) = NotOk reason).
  { unfold findOfflineAccount, forget_accounts, clearOfflineSession. cbn.
    destruct (_ || _); eauto. }
  destruct Hnone as [reason ->]. now repeat split.
Qed.

(** X26: [getOfflineCandidate] vouches for what it returns: the token of the
    account has not expired; when the token names a role and the session
    has one, the two agree, letter case apart; and the account is the entry
    filed under the key asked for or, when there is none, the one made of
    the slots of the last session. *)
Theorem getOfflineCandidate_sound key env v item :
  candidate key env v = Ok item ->
  expired (acc_token item) None env = false
  /\ (truthy (prop "role" (decodeJwtPayload atob JSON_parse (acc_token item))) = true ->
      session_role (acc_session item) <> "" ->
      toLowerCase (ToString (prop "role"
                     (decodeJwtPayload atob JSON_parse (acc_token item)))) =
      toLowerCase (session_role (acc_session item)))
  /\ ((key <> "" /\ In item (offlineAccounts v) /\ acc_key item = key)
      \/ ((key = "" \/ forall a, In a (offlineAccounts v) -> acc_key a <> key)
          /\ lastSession v = Some (acc_session item)
          /\ acc_token item = lastJwt v /\ lastJwt v <> "")).
Proof.
  unfold getOfflineCandidate. cbv zeta.
  set (listed := if String.eqb key "" then None else List.find _ (offlineAccounts v)).
  assert (Hlisted : match listed with
                    | Some a => key <> "" /\ In a (offlineAccounts v) /\ acc_key a = key
                    | None => key = "" \/ forall a, In a (offlineAccounts v) ->
                                                    acc_key a <> key
                    end).
  { unfold listed. destruct (String.eqb_spec key "") as [|Hk]; [now left|].
    destruct (List.find _ _) as [a|] eqn:Hf.
    - apply find_some in Hf as [Hin Hp]. apply String.eqb_eq in Hp. now repeat split.
    - right. intros a Ha. pose proof (find_none _ _ Hf a Ha) as Hp. cbv beta in Hp.
      now apply String.eqb_neq. }
  assert (Hcheck : forall a,
    (if expired (acc_token a) None env then NotOk "expired"
     else if truthy (prop "role" (decodeJwtPayload atob JSON_parse (acc_token a))) &&
             negb (String.eqb (session_role (acc_session a)) "")
          then if negb (String.eqb
                          (toLowerCase (ToString (prop "role"
                             (decodeJwtPayload atob JSON_parse (acc_token a)))))
                          (toLowerCase (session_role (acc_session a))))
               then NotOk "mismatch" else Ok a
          else Ok a) = Ok item ->
    a = item /\ expired (acc_token item) None env = false
    /\ (truthy (prop "role" (decodeJwtPayload atob JSON_parse (acc_token item))) = true ->
        session_role (acc_session item) <> "" ->
        toLowerCase (ToString (prop "role"
                       (decodeJwtPayload atob JSON_parse (acc_token item)))) =
        toLowerCase (session_role (acc_session item)))).
  { intros a. destruct (expired (acc_token a) None env) eqn:He; [discriminate|].
    destruct (truthy _) eqn:Ht; cbn [andb].
    - destruct (String.eqb_spec (session_role (acc_session a)) "") as [Hr|Hr];
        cbn [negb].
      + intros [= <-]. split; [reflexivity|]. split; [exact He|].
        intros _ Hne. contradiction.
      + destruct (String.eqb_spec
                    (toLowerCase (ToString (prop "role"
                       (decodeJwtPayload atob JSON_parse (acc_token a)))))
                    (toLowerCase (session_role (acc_session a)))) as [Heq|Hneq];
          cbn [negb]; [|discriminate].
        intros [= <-]. split; [reflexivity|]. split; [exact He|]. intros _ _.
        exact Heq.
    - intros [= <-]. split; [reflexivity|]. split; [exact He|].
      intros Habs. rewrite Ht in Habs. discriminate. }
  destruct listed as [a|].
  - intros H. destruct (Hcheck a H) as (-> & He & Hrole).
    split; [exact He|]. split; [exact Hrole|]. now left.
  - destruct (lastSession v) as [ls|] eqn:Hls; [|discriminate].
    destruct (String.eqb_spec (lastJwt v) "") as [|Hjwt]; cbn [negb]; [discriminate|].
    destruct (negb _ && negb _); [|discriminate].
    intros H. destruct (Hcheck _ H) as (<- & He & Hrole).
    split; [exact He|]. split; [exact Hrole|]. right.
    cbn [acc_session acc_token]. now repeat split.
Qed.

End VaultHistory.

Section VaultHistoryExamples.

#[local] Existing Instance toy_platform.

Lemma expiry_is_monotone_witness :
  isJwtExpired toy_atob (toy_parse (VNum 9000)) toy_number toy_token (Some 120%Z)
    (env_at false 9500000) = true.
Proof.
  apply (expiry_is_monotone toy_atob (toy_parse (VNum 9000)) toy_number toy_token
           60 120 (env_at false 9000000) (env_at false 9500000)).
  - cbn. lia.
  - lia.
  - reflexivity.
Defined.

Lemma vault_accounts_are_usable_witness :
  Forall (fun a => acc_token a <> "") (offlineAccounts (vault_run six_logins)).
Proof.
  apply List.Forall_forall. intros a Ha.
  now destruct (proj1 (vault_accounts_are_usable (P := toy_platform) six_logins)
                  a Ha).
Defined.

Lemma getOfflineCandidate_sound_witness :
  exists item,
    getOfflineCandidate toy_atob (toy_parse (VNum 9000)) toy_number
      "user:b@x.org" (env_at false 5000123) (vault_run six_logins) = Ok item
    /\ isJwtExpired toy_atob (toy_parse (VNum 9000)) toy_number (acc_token item)
         None (env_at false 5000123) = false.
Proof.
  eexists. split; [reflexivity|].
  apply (getOfflineCandidate_sound (P := toy_platform) toy_atob
           (toy_parse (VNum 9000)) toy_number
           "user:b@x.org" (env_at false 5000123) (vault_run six_logins)).
  reflexivity.
Defined.

End VaultHistoryExamples.
